(** * term-img: the command-line front end, the directory scan and the TUI
    bootstrap, embedded as state-passing functions.

  Sources embedded here:
  - [term_img/cli.py]           ([check_dir], [main])
  - [term_img/tui/__init__.py]  ([init], [launched])
  The image core ([term_img/image.py]) is not part of the sources at hand;
  the operations of it that are needed ([TermImage.from_url], [from_file]
  and [ImageIterator.__next__]) are modelled from the specification and are
  marked as such.

  How many call frames a helper needs is a matter of the interpreter: it is
  a parameter of the development, [py.interpreter]. *)

From Stdlib Require Import String Ascii List Bool Arith Lia ZArith.
Import ListNotations.
Set Warnings "-register-all".
Local Open Scope string_scope.
Local Open Scope list_scope.

(* ================================================================== *)
(** * Part I: definitions *)
(* ================================================================== *)

(** ** Python runtime: exceptions, outcomes, call frames *)

Module py.

(** The exception classes that occur in the embedded code. *)
Inductive exn :=
| RecursionError
| OSError
| UnidentifiedImageError (msg : string)
| ConnectionError
| URLNotFoundError (msg : string)
| ValueError (msg : string)
| InvalidSize (msg : string)
| TypeError (msg : string)
| StopIteration
| KeyboardInterrupt.

(** [isinstance(e, ValueError)]: [InvalidSize] derives from [ValueError]. *)
Definition is_ValueError (e : exn) : bool :=
  match e with
  | ValueError _ | InvalidSize _ => true
  | _ => false
  end.

Definition is_InvalidSize (e : exn) : bool :=
  match e with
  | InvalidSize _ => true
  | _ => false
  end.

(** Logging levels of the [logging] module. *)
Inductive level := DEBUG | INFO | WARNING | ERROR | CRITICAL.

(** Truth value of a string: non-empty. *)
Definition truthy (s : string) : bool :=
  match s with
  | EmptyString => false
  | String _ _ => true
  end.

(** [all(...)] over strings. *)
Definition all (l : list string) : bool := forallb truthy l.

(** [a.startswith(b)] *)
Definition startswith (a b : string) : bool := String.prefix b a.

(** [repr(s)] of a string: single quotes, unless the string holds a single
    quote and no double quote; the backslash, the quote in use and the
    control characters are escaped.  Characters outside ASCII are taken as
    printable. *)
Definition dquote : ascii := ascii_of_nat 34.

Definition squote : ascii := ascii_of_nat 39.

Definition backslash : ascii := ascii_of_nat 92.

Fixpoint contains (c : ascii) (s : string) : bool :=
  match s with
  | EmptyString => false
  | String d rest => Ascii.eqb c d || contains c rest
  end.

Definition hex_digit (n : nat) : ascii :=
  nth n ["0"; "1"; "2"; "3"; "4"; "5"; "6"; "7"; "8"; "9"; "a"; "b"; "c";
         "d"; "e"; "f"]%char "0"%char.

Definition escape_char (quote c : ascii) : string :=
  let n := nat_of_ascii c in
  if Ascii.eqb c backslash then String backslash (String backslash "")
  else if Ascii.eqb c quote then String backslash (String quote "")
  else if Nat.eqb n 10 then String backslash "n"
  else if Nat.eqb n 13 then String backslash "r"
  else if Nat.eqb n 9 then String backslash "t"
  else if Nat.ltb n 32 || Nat.eqb n 127 then
    String backslash
      (String "x" (String (hex_digit (n / 16)) (String (hex_digit (n mod 16)) "")))
  else String c "".

Fixpoint escape (quote : ascii) (s : string) : string :=
  match s with
  | EmptyString => ""
  | String c rest => escape_char quote c ++ escape quote rest
  end.

Definition repr (s : string) : string :=
  let quote :=
    if contains squote s && negb (contains dquote s) then dquote else squote in
  String quote (escape quote s ++ String quote "").

(** The calls that the embedded code makes, besides its own. *)
Inductive call :=
| Chdir          (* [os.chdir] *)
| Listdir        (* [os.listdir] *)
| Getcwd         (* [os.getcwd] *)
| Startswith     (* [str.startswith] *)
| Abspath        (* [os.path.abspath] *)
| Realpath       (* [os.path.realpath] *)
| Isfile         (* [os.path.isfile] *)
| Isdir          (* [os.path.isdir] *)
| Islink         (* [os.path.islink] *)
| Exists         (* [os.path.exists] *)
| Open           (* [PIL.Image.open] *)
| Log            (* [_log] *)
| LogException.  (* [_log_exception] *)

(** How deep a call nests is a matter of the interpreter and of the
    libraries: [depth o] is the number of call frames that must be free for
    the call [o] to run to its end; with fewer the interpreter raises
    [RecursionError] inside the call. *)
Class interpreter := {
  depth : call -> nat
}.

(** An interpreter in which a helper written in Python runs in one frame
    and a builtin in none. *)
Definition one_frame : interpreter :=
  {| depth := fun o =>
       match o with
       | Chdir | Listdir | Getcwd | Startswith => 0
       | _ => 1
       end |}.

(** An interpreter in which the predicates of [os.path] take a second
    frame for their call of [os.stat]. *)
Definition nested_stat : interpreter :=
  {| depth := fun o =>
       match o with
       | Chdir | Listdir | Getcwd | Startswith => 0
       | Isfile | Isdir | Islink | Exists => 2
       | _ => 1
       end |}.

End py.

(** ** The file system seen through [os] and [os.path] *)

Module os.

Definition name := string.

(** A canonical absolute path: the components below the root, no link among
    them. *)
Definition path := list name.

(** An argument handed to [os]: absolute or relative to the working
    directory; [".."] and ["."] may occur as components. *)
Inductive pypath :=
| Abs (components : list name)
| Rel (components : list name).

Inductive node :=
| File (image : bool)
    (* a regular file; [image] tells whether [PIL.Image.open] accepts it *)
| Dir (enterable listable : bool) (entries : list (name * node))
    (* a directory, with its search and read permissions *)
| Link (target : list name)
    (* a symbolic link holding an absolute target *)
| Other.
    (* a socket, fifo or device *)

Fixpoint find_entry (n : name) (es : list (name * node)) : option node :=
  match es with
  | [] => None
  | (m, c) :: rest => if String.eqb n m then Some c else find_entry n rest
  end.

(** The node at a canonical path; links are not followed. *)
Fixpoint get (root : node) (p : path) : option node :=
  match p with
  | [] => Some root
  | n :: q =>
      match root with
      | Dir _ _ es =>
          match find_entry n es with
          | Some c => get c q
          | None => None
          end
      | _ => None
      end
  end.

(** Links followed in one resolution before the kernel gives up (ELOOP). *)
Definition MAXSYMLINKS : nat := 40.

(** Path resolution as the kernel does it: [cur] is the canonical path
    reached so far, [todo] the components still to walk.  A link restarts
    the walk at the root with its target. *)
Fixpoint walk (hops : nat) (root : node) : path -> list name -> option path :=
  fix go (cur : path) (todo : list name) {struct todo} : option path :=
    match todo with
    | [] =>
        match get root cur with
        | Some _ => Some cur
        | None => None
        end
    | n :: rest =>
        match get root cur with
        | Some (Dir _ _ es) =>
            if String.eqb n ".." then go (removelast cur) rest
            else if String.eqb n "." then go cur rest
            else
              match find_entry n es with
              | Some (Link t) =>
                  match hops with
                  | 0 => None
                  | S h => walk h root [] (t ++ rest)
                  end
              | Some _ => go (cur ++ [n]) rest
              | None => None
              end
        | _ => None
        end
    end.

(** Lexical normalisation ([os.path.normpath]) of absolute components. *)
Fixpoint normpath (acc : path) (todo : list name) : path :=
  match todo with
  | [] => acc
  | n :: rest =>
      if String.eqb n ".." then normpath (removelast acc) rest
      else if String.eqb n "." then normpath acc rest
      else normpath (acc ++ [n]) rest
  end.

(** A name that a listing can hold: neither [".."] nor ["."]. *)
Definition plain_name (n : name) : bool :=
  negb (String.eqb n "..") && negb (String.eqb n ".").

(** The text of an absolute path, as [os.getcwd] returns it. *)
Fixpoint join_components (p : path) : string :=
  match p with
  | [] => ""
  | n :: q => "/" ++ n ++ join_components q
  end.

Definition path_text (p : path) : string :=
  match p with
  | [] => "/"
  | _ => join_components p
  end.

End os.

(** ** Process state *)

(** What the process leaves behind that the properties below talk about. *)
Inductive event :=
| Opened (frames : nat) (dir : os.path) (entry : os.name) (ok : bool)
    (* [PIL.Image.open(entry)] tried in [dir] by an activation of
       [check_dir] that had [frames] call frames left *)
| Log (lvl : option py.level) (msg : string)
    (* [log(msg, logger, level)]; [None] when no level is given *)
| LogException (msg : string)
| HttpGet (url : string)
| Drawn
| LoopRun.

(** [cwd] is the working directory of the process, [events] what happened so
    far (most recent first), [launched] the module-level flag of
    [term_img.tui]. *)
Record state := mkState {
  cwd : os.path;
  events : list event;
  launched : bool
}.

Definition set_cwd (p : os.path) (s : state) : state :=
  mkState p (events s) (launched s).

Definition record (e : event) (s : state) : state :=
  mkState (cwd s) (e :: events s) (launched s).

Definition set_launched (b : bool) (s : state) : state :=
  mkState (cwd s) (events s) b.

(** The outcome of running a piece of Python: a value or a raised exception,
    each with the state reached. *)
Inductive result (A : Type) :=
| Ret (a : A) (s : state)
| Raise (e : py.exn) (s : state).
Arguments Ret {A} a s.
Arguments Raise {A} e s.

Definition final {A} (r : result A) : state :=
  match r with
  | Ret _ s => s
  | Raise _ s => s
  end.

Definition bind {A B} (m : result A) (k : A -> state -> result B) : result B :=
  match m with
  | Ret a s => k a s
  | Raise e s => Raise e s
  end.

(** A call [o] made where [frames] call frames are free: it runs when its
    depth fits, and raises [RecursionError] otherwise, with the state as it
    was. *)
Definition needs {Py : py.interpreter} {A} (o : py.call) (frames : nat)
  (s : state) (body : result A) : result A :=
  if Nat.leb (py.depth o) frames then body else Raise py.RecursionError s.

(** The frames suffice for every call that the code makes itself. *)
Definition has_frames {Py : py.interpreter} (frames : nat) : Prop :=
  forall o, py.depth o <= frames.

Module ospath.
Import os.

Definition base (s : state) (p : pypath) : path * list name :=
  match p with
  | Abs ns => ([], ns)
  | Rel ns => (cwd s, ns)
  end.

(** The canonical path a name resolves to, all links followed. *)
Definition resolve (fs : node) (s : state) (p : pypath) : option path :=
  let '(c, todo) := base s p in walk MAXSYMLINKS fs c todo.

(** [os.stat] *)
Definition stat (fs : node) (s : state) (p : pypath) : option node :=
  match resolve fs s p with
  | Some q => get fs q
  | None => None
  end.

(** [os.lstat]: the last component is not followed. *)
Definition lstat (fs : node) (s : state) (p : pypath) : option node :=
  let '(c, todo) := base s p in
  match rev todo with
  | [] => get fs c
  | l :: front =>
      if String.eqb l ".." || String.eqb l "." then stat fs s p
      else
        match walk MAXSYMLINKS fs c (rev front) with
        | Some q =>
            match get fs q with
            | Some (Dir _ _ es) => find_entry l es
            | _ => None
            end
        | None => None
        end
  end.

Definition isfile (fs : node) (s : state) (p : pypath) : bool :=
  match stat fs s p with
  | Some (File _) => true
  | _ => false
  end.

Definition isdir (fs : node) (s : state) (p : pypath) : bool :=
  match stat fs s p with
  | Some (Dir _ _ _) => true
  | _ => false
  end.

Definition exists_ (fs : node) (s : state) (p : pypath) : bool :=
  match stat fs s p with
  | Some _ => true
  | None => false
  end.

Definition islink (fs : node) (s : state) (p : pypath) : bool :=
  match lstat fs s p with
  | Some (Link _) => true
  | _ => false
  end.

(** [os.path.abspath]: lexical, nothing is looked up. *)
Definition abspath (s : state) (p : pypath) : path :=
  let '(c, todo) := base s p in normpath [] (c ++ todo).

(** [os.path.realpath]; for a name that does not resolve the lexical path
    stands in. *)
Definition realpath (fs : node) (s : state) (p : pypath) : path :=
  match resolve fs s p with
  | Some q => q
  | None => abspath s p
  end.

End ospath.

Module os_ops.
Import os ospath.

(** [os.chdir]: [None] stands for [OSError]. *)
Definition chdir (fs : node) (p : pypath) (s : state) : option state :=
  match resolve fs s p with
  | Some q =>
      match get fs q with
      | Some (Dir true _ _) => Some (set_cwd q s)
      | _ => None
      end
  | None => None
  end.

(** [os.listdir()] of the working directory: [None] stands for [OSError].
    The special entries ["."] and [".."] are not listed. *)
Definition listdir (fs : node) (s : state) : option (list name) :=
  match get fs (cwd s) with
  | Some (Dir _ true es) => Some (filter plain_name (map fst es))
  | _ => None
  end.

(** [os.getcwd()]: [None] stands for [OSError], raised when the working
    directory is no longer there. *)
Definition getcwd (fs : node) (s : state) : option string :=
  match get fs (cwd s) with
  | Some _ => Some (path_text (cwd s))
  | None => None
  end.

End os_ops.

(** Modelled from the spec: a [TermImage] instance of [term_img/image.py],
    which is not among the sources, with the two attributes that the tests
    read: the source and, for an image fetched from a URL, the URL (3). *)
Record TermImage := mkTermImage {
  _source : string;
  _url : option string
}.

(** ** Values shared by the front end and the TUI *)

Module data.
Import os.

(** The value [check_dir] builds: a [dict] from entry names to the dicts of
    the scans below.  A dict keeps its keys in insertion order. *)
Inductive tree :=
| Node (content : list (name * tree)).

Definition dict := list (name * tree).

(** [content[entry] = result] *)
Fixpoint dict_set (k : name) (v : tree) (d : dict) : dict :=
  match d with
  | [] => [(k, v)]
  | (k', v') :: rest =>
      if String.eqb k k' then (k, v) :: rest else (k', v') :: dict_set k v rest
  end.

(** Truth value of a dict: non-empty. *)
Definition dict_truthy (d : dict) : bool :=
  match d with
  | [] => false
  | _ :: _ => true
  end.

(** An element of [images]: the widget of one image, or the generator that
    [scan_dir(source, result, os.getcwd())] returns for a directory. *)
Inductive item :=
| Image (im : TermImage)
| Scanner (source : string) (result : tree) (prev_dir : string).

(** A [float] given on the command line; it is only passed on, so a ratio
    stands for it. *)
Definition float := (Z * Z)%type.

End data.

(** The namespace that [argparse] returns, options already reconciled with
    the user's configuration. *)
Module args.
Record t := mk {
  sources : list string;
  width : option Z;
  height : option Z;
  scale_x : data.float;
  scale_y : data.float;
  frame_duration : data.float;
  no_alpha : bool;
  alpha : data.float;
  alpha_bg : option string;
  no_align : bool;
  h_align : option string;
  pad_width : option Z;
  v_align : option string;
  pad_height : option Z;
  all : bool;
  recursive : bool;
  max_pixels : Z;
  debug : bool
}.
End args.

(** ** What lies outside the sources at hand *)

(** [urllib.parse.urlparse] returns six components. *)
Record ParseResult := mkParse {
  scheme : string;
  netloc : string;
  url_path : string;
  params : string;
  query : string;
  fragment : string
}.

(** [urlparse(source)[:3]] *)
Definition first3 (r : ParseResult) : list string :=
  [scheme r; netloc r; url_path r].

(** A response of [requests.get]. *)
Record response := mkResponse {
  status_code : nat;
  body : string
}.

(** The alignment arguments of [draw_image]. *)
Record alignment := mkAlignment {
  h_align_arg : option string;
  pad_width_arg : option Z;
  v_align_arg : option string;
  pad_height_arg : option Z
}.

(** The alpha argument of [draw_image]: [None], a colour or a ratio. *)
Inductive alpha_arg :=
| AlphaNone
| AlphaColor (hex : string)
| AlphaRatio (ratio : data.float).

(** The surroundings of a run: the file system, the network, the codec, and
    the parts of the package whose code is not among the sources.  An
    operation of the surroundings maps the state to an outcome. *)
Record world := mkWorld {
  fs : os.node;
  urlparse : string -> ParseResult;
  requests_get : string -> option response;   (* [None]: ConnectionError *)
  decodable : string -> bool;                 (* [PIL.Image.open] on bytes *)
  can_open : string -> bool;                  (* the file may be read *)
  (* setters and [draw_image] of [TermImage]: [Some e] is the exception *)
  set_width : Z -> TermImage -> option py.exn;
  set_height : Z -> TermImage -> option py.exn;
  set_scale_x : data.float -> TermImage -> option py.exn;
  set_scale_y : data.float -> TermImage -> option py.exn;
  set_frame_duration : data.float -> TermImage -> option py.exn;
  draw_image : alignment -> alpha_arg -> TermImage -> option py.exn;
  (* [term_img.tui.main] *)
  make_loop : state -> result unit;           (* [MainLoop(...)], screen set-up *)
  displayer_next : list (string * data.item) -> list (string * data.tree)
                   -> state -> result unit;   (* [next(main.displayer)] *)
  loop_run : state -> result unit             (* [main.loop.run()] *)
}.

(** Code outside [term_img.tui] reads [launched] but never assigns it. *)
Definition foreign (f : state -> result unit) (s : state) : result unit :=
  match f s with
  | Ret a s' => Ret a (set_launched (launched s) s')
  | Raise e s' => Raise e (set_launched (launched s) s')
  end.

(** An operation of the surroundings that only succeeds or raises. *)
Definition attempt (o : option py.exn) (s : state) : result unit :=
  match o with
  | None => Ret tt s
  | Some e => Raise e s
  end.

(** [try: body finally: s := f s] *)
Definition finally {A} (body : result A) (f : state -> state) : result A :=
  match body with
  | Ret a s => Ret a (f s)
  | Raise e s => Raise e (f s)
  end.

(** The same surroundings with another file system. *)
Definition with_fs (fs' : os.node) (w : world) : world :=
  mkWorld fs' (urlparse w) (requests_get w) (decodable w) (can_open w)
    (set_width w)
    (set_height w) (set_scale_x w) (set_scale_y w) (set_frame_duration w)
    (draw_image w) (make_loop w) (displayer_next w) (loop_run w).

(** The same surroundings with another network. *)
Definition with_net (get' : string -> option response) (w : world) : world :=
  mkWorld (fs w) (urlparse w) get' (decodable w) (can_open w) (set_width w)
    (set_height w) (set_scale_x w) (set_scale_y w) (set_frame_duration w)
    (draw_image w) (make_loop w) (displayer_next w) (loop_run w).

(** ** [term_img/image.py], modelled from the specification *)

Module image.

(** Modelled from the spec: [TermImage.from_url] of [term_img/image.py],
    which is not among the sources.  The specification (4.1, 8.10) has it
    validate the URL first, a URL being complete when scheme, host and path
    are all present (4.4); then perform the GET; raise the not-found error
    on a 404 response; and let the codec error through when the bytes do not
    decode.  A connection failure is the client's [ConnectionError]. *)
Definition from_url (w : world) (url : string) (s : state) : result TermImage :=
  if negb (py.all (first3 (urlparse w url))) then
    Raise (py.ValueError ("Invalid URL: '" ++ url ++ "'")) s
  else
    let s1 := record (HttpGet url) s in
    match requests_get w url with
    | None => Raise py.ConnectionError s1
    | Some r =>
        if Nat.eqb (status_code r) 404 then
          Raise (py.URLNotFoundError ("URL '" ++ url ++ "' does not exist.")) s1
        else if decodable w (body r) then
          Ret (mkTermImage (body r) (Some url)) s1
        else
          Raise (py.UnidentifiedImageError
                   ("cannot identify image file '" ++ url ++ "'")) s1
    end.

(** Modelled from the spec: [TermImage.from_file], not among the sources: a
    local file is opened through the codec; what does not open, a file
    that may not be read among it, raises [OSError], what does not decode
    the codec error.  The image keeps the name of the source as it was
    given. *)
Definition from_file (w : world) (p : os.pypath) (text : string) (s : state)
  : result TermImage :=
  match ospath.stat (fs w) s p with
  | Some (os.File image) =>
      if negb (can_open w text) then Raise py.OSError s
      else if image then Ret (mkTermImage text None) s
      else Raise (py.UnidentifiedImageError
                    ("cannot identify image file '" ++ text ++ "'")) s
  | _ => Raise py.OSError s
  end.

(** Modelled from the spec: an animated image as [ImageIterator] sees it:
    [n_frames] frames and the frame pointer that [tell()] reads and
    [seek(n)] moves. *)
Record animated := mkAnimated {
  n_frames : nat;
  pointer : nat
}.

(** Modelled from the spec: [tell()] returns the current frame index
    (4.1). *)
Definition tell (im : animated) : nat := pointer im.

(** Modelled from the spec: [seek(n)] moves to frame [n] (4.1). *)
Definition seek (n : nat) (im : animated) : animated :=
  mkAnimated (n_frames im) n.

(** Modelled from the spec: the animator, the generator that drives the
    frames (3, 4.2): the index of the frame that comes next in the running
    pass, and the passes still to run, the running one included; a negative
    count never runs out. *)
Record animator := mkAnimator {
  next_frame : nat;
  passes : Z
}.

(** Modelled from the spec: the state of an [ImageIterator] (3): the image,
    the repeat count, the format, the caching flag, and the animator and the
    image handle, both absent once released. *)
Record ImageIterator := mkIterator {
  _image : animated;
  _repeat : Z;
  _format : string;
  _cached : bool;
  _animator : option animator;
  _img : option nat
}.

(** Modelled from the spec: construction (4.2): the image must have more
    than one frame, the repeat count must not be zero, and a repeat count of
    one switches caching off. *)
Definition new_iterator (im : animated) (repeat : Z) (format : string)
  (cached : bool) : py.exn + ImageIterator :=
  if Nat.leb (n_frames im) 1 then inl (py.ValueError "This image is not animated")
  else if Z.eqb repeat 0 then inl (py.ValueError "'repeat' must be non-zero")
  else
    inr (mkIterator im repeat format
           (if Z.eqb repeat 1 then false else cached)
           (Some (mkAnimator 0 repeat)) (Some 0)).

(** Modelled from the spec: the end of the iteration (4.2): the frame
    pointer goes back to 0 and the animator and the handle are released. *)
Definition release (it : ImageIterator) : ImageIterator :=
  mkIterator (seek 0 (_image it)) (_repeat it) (_format it) (_cached it)
    None None.

(** Modelled from the spec: a step that gives a frame seeks the image to
    that frame and leaves the animator suspended for the next step (4.2). *)
Definition yield (n : nat) (a : animator) (it : ImageIterator)
  : ImageIterator :=
  mkIterator (seek n (_image it)) (_repeat it) (_format it) (_cached it)
    (Some a) (_img it).

(** Modelled from the spec: [ImageIterator.__next__] (4.2).  [inr n] is the
    frame rendered at this step (its index stands for the rendered string),
    [inl StopIteration] the exhaustion signal.  Within a pass the frames
    follow each other; a further pass starts over at frame 0; after the last
    frame of the last pass the iterator is released, and a released iterator
    signals exhaustion. *)
Definition next_ (it : ImageIterator) : (py.exn + nat) * ImageIterator :=
  match _animator it with
  | None => (inl py.StopIteration, it)
  | Some a =>
      if Nat.ltb (next_frame a) (n_frames (_image it)) then
        (inr (next_frame a),
         yield (next_frame a) (mkAnimator (S (next_frame a)) (passes a)) it)
      else if Z.eqb (passes a) 1 then
        (inl py.StopIteration, release it)
      else
        (inr 0,
         yield 0 (mkAnimator 1 (if Z.ltb (passes a) 0 then passes a
                                else Z.pred (passes a))) it)
  end.

(** [n] steps in a row: the frames they gave, oldest first, or the first
    exception. *)
Fixpoint steps (n : nat) (it : ImageIterator)
  : (py.exn + list nat) * ImageIterator :=
  match n with
  | 0 => (inr [], it)
  | S m =>
      match next_ it with
      | (inl e, it') => (inl e, it')
      | (inr f, it') =>
          match steps m it' with
          | (inl e, it'') => (inl e, it'')
          | (inr fs, it'') => (inr (f :: fs), it'')
          end
      end
  end.

End image.

(** ** [term_img/tui/__init__.py] *)

Module tui.

(** [init(args, images, contents)].  The widget tree and the attributes set
    on [term_img.tui.main] live in the surroundings; what is kept here is the
    order of the steps and the flag. *)
Definition init (w : world) (a : args.t) (images : list (string * data.item))
  (contents : list (string * data.tree)) (s : state) : result unit :=
  bind (foreign (make_loop w) s) (fun _ s1 =>
  let s2 := record (Log None "Launching TUI") s1 in
  let s3 := set_launched true s2 in
  bind (foreign (displayer_next w images contents) s3) (fun _ s4 =>
  finally
    (bind (foreign (loop_run w) (record LoopRun s4)) (fun _ s5 =>
     Ret tt (record (Log None "Exited TUI normally") s5)))
    (set_launched false))).

End tui.

(** ** [term_img/cli.py]: the directory scan *)

Module cli.
Import os ospath os_ops data.

(** The module globals [_RECURSIVE] and [_SHOW_HIDDEN], set by [main] from
    [--recursive] and [--all]. *)
Record flags := mkFlags {
  _RECURSIVE : bool;
  _SHOW_HIDDEN : bool
}.

(** How one round of a [for] loop ends: on to the next entry, [break], or an
    exception that leaves the loop. *)
Inductive ctl (A : Type) :=
| Next (a : A) (s : state)
| Stop (a : A) (s : state)
| Fail (e : py.exn) (s : state).
Arguments Next {A} a s.
Arguments Stop {A} a s.
Arguments Fail {A} e s.

(** The recursive call as the loop body sees it: [check_dir(dir, prev_dir)]. *)
Definition scanner := pypath -> pypath -> state -> result (option tree).

(** Lines 63-67: [PIL.Image.open(entry)] under [except Exception: pass].  The
    attempt is recorded; an exception of any class, a [RecursionError] for
    want of frames among them, counts as a failure to open. *)
Definition pil_open {Py : py.interpreter} (frames : nat) (fs : node)
  (entry : name) (s : state) : bool * state :=
  let ok :=
    if Nat.leb (py.depth py.Open) frames then
      match stat fs s (Rel [entry]) with
      | Some (File image) => image
      | _ => false
      end
    else false in
  (ok, record (Opened frames (cwd s) entry ok) s).

(** Line 78: the test that lets a link be followed, where the working
    directory is there to be named. *)
Definition link_followed (fs : node) (s : state) (entry : name) : bool :=
  exists_ fs s (Rel [entry])
  && negb (py.startswith (path_text (cwd s))
             (path_text (realpath fs s (Rel [entry])))).

(** Lines 70-85, the body of the [try].  In the test of line 78
    [os.path.exists] comes first; [os.getcwd()] is evaluated before
    [os.path.realpath], and its [OSError] is not handled here. *)
Definition scan_try {Py : py.interpreter} (rec : scanner) (frames : nat)
  (fs : node) (entry : name) (s : state) : result (option tree) :=
  needs py.Islink frames s
    (if islink fs s (Rel [entry]) then
       needs py.Exists frames s
         (if exists_ fs s (Rel [entry]) then
            needs py.Getcwd frames s
              (match getcwd fs s with
               | None => Raise py.OSError s
               | Some here =>
                   needs py.Realpath frames s
                     (needs py.Startswith frames s
                        (if py.startswith here
                              (path_text (realpath fs s (Rel [entry])))
                         then Ret None s
                         else rec (Rel [entry]) (Abs (cwd s)) s))
               end)
          else Ret None s)
     else
       needs py.Isdir frames s
         (if isdir fs s (Rel [entry])
          then rec (Rel [entry]) (Rel [".."]) s
          else Ret None s)).

(** Line 87: the message of the handler, [os.getcwd()] having returned. *)
Definition too_deep (s : state) : event :=
  Log (Some py.ERROR) ("Too deep: " ++ py.repr (path_text (cwd s))).

(** Lines 86-92: the handler of [RecursionError]. *)
Definition handle_too_deep {Py : py.interpreter} (frames : nat) (fs : node)
  (acc : bool * dict) (s : state) : ctl (bool * dict) :=
  if Nat.leb (py.depth py.Getcwd) frames then
    match getcwd fs s with
    | None => Fail py.OSError s
    | Some _ =>
        if Nat.leb (py.depth py.Log) frames
        then Stop acc (record (too_deep s) s)
        else Fail py.RecursionError s
    end
  else Fail py.RecursionError s.

(** Lines 57-94, one round of the loop over the entries; the accumulator is
    the pair of [empty] and [content]. *)
Definition scan_entry {Py : py.interpreter} (rec : scanner) (frames : nat)
  (fs : node) (cfg : flags) (entry : name) (acc : bool * dict) (s : state)
  : ctl (bool * dict) :=
  let '(empty, content) := acc in
  if negb (Nat.leb (py.depth py.Startswith) frames) then
    Fail py.RecursionError s
  else if py.startswith entry "." && negb (_SHOW_HIDDEN cfg) then Next acc s
  else if negb (Nat.leb (py.depth py.Isfile) frames) then
    Fail py.RecursionError s
  else if isfile fs s (Rel [entry]) then
    if negb empty then Next acc s
    else
      let '(ok, s') := pil_open frames fs entry s in
      Next (if ok then false else empty, content) s'
  else if _RECURSIVE cfg then
    match scan_try rec frames fs entry s with
    | Raise py.RecursionError s' => handle_too_deep frames fs acc s'
    | Raise e s' => Fail e s'
    | Ret r s' =>
        Next (empty,
              match r with
              | Some t => dict_set entry t content
              | None => content
              end) s'
    end
  else Next acc s.

(** Lines 56-94: the loop. *)
Fixpoint scan_entries {Py : py.interpreter} (rec : scanner) (frames : nat)
  (fs : node) (cfg : flags) (entries : list name) (acc : bool * dict)
  (s : state) : result (bool * dict) :=
  match entries with
  | [] => Ret acc s
  | entry :: rest =>
      match scan_entry rec frames fs cfg entry acc s with
      | Next acc' s' => scan_entries rec frames fs cfg rest acc' s'
      | Stop acc' s' => Ret acc' s'
      | Fail e s' => Raise e s'
      end
  end.

(** Lines 96-97. *)
Definition leave {Py : py.interpreter} (frames : nat) (fs : node)
  (prev_dir : pypath) (acc : bool * dict) (s : state)
  : result (option tree) :=
  needs py.Chdir frames s
    (match chdir fs prev_dir s with
     | None => Raise py.OSError s
     | Some s' =>
         Ret (if fst acc && negb (dict_truthy (snd acc))
              then None else Some (Node (snd acc))) s'
     end).

Definition could_not_access (s : state) (dir : pypath) : event :=
  LogException ("Could not access '" ++ path_text (abspath s dir) ++ "/'").

Definition could_not_list (s : state) : event :=
  LogException
    ("Could not get the contents of '" ++ path_text (abspath s (Rel ["."]))
       ++ "/'").

(** [check_dir(dir, prev_dir)].  [frames] is the number of call frames the
    caller still has: the call takes one, the body runs with the rest. *)
Fixpoint check_dir {Py : py.interpreter} (frames : nat) (fs : node)
  (cfg : flags) (dir prev_dir : pypath) (s : state) : result (option tree) :=
  match frames with
  | 0 => Raise py.RecursionError s
  | S k =>
      needs py.Chdir k s
        (match chdir fs dir s with
         | None =>
             needs py.Abspath k s
               (needs py.LogException k s
                  (Ret None (record (could_not_access s dir) s)))
         | Some s1 =>
             needs py.Listdir k s1
               (match listdir fs s1 with
                | None =>
                    needs py.Abspath k s1
                      (needs py.LogException k s1
                         (needs py.Chdir k (record (could_not_list s1) s1)
                            (match chdir fs prev_dir
                                     (record (could_not_list s1) s1) with
                             | Some s2 => Ret None s2
                             | None =>
                                 Raise py.OSError
                                   (record (could_not_list s1) s1)
                             end)))
                | Some entries =>
                    bind (scan_entries (check_dir k fs cfg) k fs cfg entries
                            (true, []) s1)
                         (leave k fs prev_dir)
                end)
         end)
  end.

(** The default of [prev_dir]. *)
Definition parent_dir : pypath := Rel [".."].

(** ** [term_img/cli.py]: the entry point *)

(** Modelled from the spec: the constants of [term_img/exit_codes.py], which
    is not among the sources (6): SUCCESS = 0, FAILURE = 1, INVALID_SIZE = 2,
    NO_VALID_SOURCE = 3. *)
Definition SUCCESS : nat := 0.

(** Modelled from the spec: [FAILURE] of [term_img/exit_codes.py] (6). *)
Definition FAILURE : nat := 1.

(** Modelled from the spec: [INVALID_SIZE] of [term_img/exit_codes.py] (6). *)
Definition INVALID_SIZE : nat := 2.

(** Modelled from the spec: [NO_VALID_SOURCE] of [term_img/exit_codes.py]:
    no valid image, directory or URL among the sources (6). *)
Definition NO_VALID_SOURCE : nat := 3.

(** A path given as text, cut at the slashes. *)
Fixpoint split_on (sep : ascii) (s : string) (cur : string) : list string :=
  match s with
  | EmptyString => [cur]
  | String c rest =>
      if Ascii.eqb c sep then cur :: split_on sep rest ""
      else split_on sep rest (cur ++ String c "")
  end.

Fixpoint ends_with (c : ascii) (s : string) : bool :=
  match s with
  | EmptyString => false
  | String d EmptyString => Ascii.eqb c d
  | String _ rest => ends_with c rest
  end.

(** The path that a text names.  Slashes in a row count as one.  The empty
    text names nothing: it is given a component that no directory holds.  A
    text that ends with a slash names what its last component names only if
    that is a directory: it is read as ending with ["."]. *)
Definition parse_path (text : string) : pypath :=
  let comps := filter py.truthy (split_on "/" text "") in
  let comps :=
    match comps with
    | [] => comps
    | _ :: _ => if ends_with "/" text then comps ++ ["."] else comps
    end in
  match text with
  | EmptyString => Rel [""]
  | String "/" _ => Abs comps
  | _ => Rel comps
  end.

(** [os.path.basename] *)
Definition basename (text : string) : string :=
  last (split_on "/" text "") "".

(** [str(e)]; the text of an [OSError] is the system's and is left empty. *)
Definition str (e : py.exn) : string :=
  match e with
  | py.UnidentifiedImageError m | py.URLNotFoundError m | py.ValueError m
  | py.InvalidSize m | py.TypeError m => m
  | _ => ""
  end.

Definition images_t := list (string * item).
Definition contents_t := list (string * tree).

(** [os.path.relpath(source)] (line 421).  The path is handed on as it is
    given, the working directory being the same for the caller; what is kept
    of the call is the [OSError] of the [os.getcwd()] inside it, raised when
    the working directory is no longer there. *)
Definition relpath (fs : node) (p : pypath) (s : state) : option pypath :=
  match getcwd fs s with
  | Some _ => Some p
  | None => None
  end.

(** Lines 399-448, one round of the loop over [args.sources].  [main] runs
    at the bottom of the call stack: its own calls have the frames they
    need, and [frames] is what it can hand to [check_dir]. *)
Definition resolve_source {Py : py.interpreter} (w : world) (frames : nat)
  (cfg : flags) (source : string) (acc : images_t * contents_t) (s : state)
  : result (images_t * contents_t) :=
  let '(images, contents) := acc in
  if py.all (first3 (urlparse w source)) then
    let s1 :=
      record (Log None ("Getting image from " ++ py.repr source ++ "...")) s in
    match image.from_url w source s1 with
    | Ret im s2 =>
        Ret (images ++ [(basename source, Image im)], contents)
            (record (Log None "... Done!") s2)
    | Raise py.ConnectionError s2 =>
        Ret acc (record (Log (Some py.ERROR)
                           ("Unable to get " ++ py.repr source)) s2)
    | Raise (py.URLNotFoundError m) s2 =>
        Ret acc (record (Log (Some py.ERROR) m) s2)
    | Raise (py.UnidentifiedImageError m) s2 =>
        Ret acc (record (Log (Some py.ERROR) m) s2)
    | Raise e s2 => Raise e s2
    end
  else if isfile (fs w) s (parse_path source) then
    match
      match relpath (fs w) (parse_path source) s with
      | Some p => image.from_file w p source s
      | None => Raise py.OSError s
      end
    with
    | Ret im s1 => Ret (images ++ [(source, Image im)], contents) s1
    | Raise (py.UnidentifiedImageError m) s1 =>
        Ret acc (record (Log (Some py.ERROR) m) s1)
    | Raise py.OSError s1 =>
        Ret acc (record (Log (Some py.ERROR)
                           ("(" ++ str py.OSError ++ ") " ++ py.repr source
                              ++ " could not be read")) s1)
    | Raise e s1 => Raise e s1
    end
  else if isdir (fs w) s (parse_path source) then
    let s1 :=
      record (Log None ("Checking directory " ++ py.repr source ++ "...")) s in
    match getcwd (fs w) s1 with
    | None => Raise py.OSError s1
    | Some _ =>
        match check_dir frames (fs w) cfg (parse_path source) (Abs (cwd s1)) s1
        with
        | Raise e s2 => Raise e s2
        | Ret result s2 =>
            let s3 := record (Log None "... Done!") s2 in
            match result with
            | None => Ret acc s3
            | Some t =>
                let source' := path_text (abspath s3 (parse_path source)) in
                match getcwd (fs w) s3 with
                | None => Raise py.OSError s3
                | Some here =>
                    Ret (images ++ [(source', Scanner source' t here)],
                         dict_set source' t contents) s3
                end
            end
        end
    end
  else
    Ret acc (record (Log (Some py.ERROR)
                       (py.repr source ++ " is invalid or does not exist")) s).

(** Lines 398-448: the loop over the sources. *)
Fixpoint resolve_sources {Py : py.interpreter} (w : world) (frames : nat)
  (cfg : flags) (sources : list string) (acc : images_t * contents_t)
  (s : state) : result (images_t * contents_t) :=
  match sources with
  | [] => Ret acc s
  | source :: rest =>
      bind (resolve_source w frames cfg source acc s)
           (resolve_sources w frames cfg rest)
  end.

(** Lines 476-480: the alpha argument. *)
Definition alpha_of (a : args.t) : alpha_arg :=
  if args.no_alpha a then AlphaNone
  else
    match args.alpha_bg a with
    | Some bg => if py.truthy bg then AlphaColor ("#" ++ bg)
                 else AlphaRatio (args.alpha a)
    | None => AlphaRatio (args.alpha a)
    end.

(** Lines 471-475: the alignment arguments. *)
Definition alignment_of (a : args.t) : alignment :=
  if args.no_align a then mkAlignment None (Some 1%Z) None (Some 1%Z)
  else mkAlignment (args.h_align a) (args.pad_width a)
         (args.v_align a) (args.pad_height a).

(** Lines 462-481, the body of the [try]. *)
Definition draw (w : world) (a : args.t) (im : TermImage) (s : state)
  : result unit :=
  bind (match args.width a, args.height a with
        | Some n, _ => attempt (set_width w n im) s
        | None, Some n => attempt (set_height w n im) s
        | None, None => Ret tt s
        end) (fun _ s1 =>
  bind (attempt (set_scale_x w (args.scale_x a) im) s1) (fun _ s2 =>
  bind (attempt (set_scale_y w (args.scale_y a) im) s2) (fun _ s3 =>
  bind (attempt (set_frame_duration w (args.frame_duration a) im) s3)
    (fun _ s4 =>
  bind (attempt (draw_image w (alignment_of a) (alpha_of a) im) s4)
    (fun _ s5 => Ret tt (record Drawn s5)))))).

(** Lines 450-492: what is done with the sources that were found. *)
Definition dispatch (w : world) (a : args.t) (images : images_t)
  (contents : contents_t) (s : state) : result nat :=
  match images with
  | [] => Ret NO_VALID_SOURCE (record (Log None "No valid source!") s)
  | [(_, Image im)] =>
      let s1 :=
        record (Log None "Single image source; Printing directly to console")
          s in
      match draw w a im s1 with
      | Ret _ s2 => Ret SUCCESS s2
      | Raise e s2 =>
          if py.is_ValueError e then
            Ret (if py.is_InvalidSize e then INVALID_SIZE else FAILURE)
                (record (Log (Some py.CRITICAL) (str e)) s2)
          else Raise e s2
      end
  | _ => bind (tui.init w a images contents s) (fun _ s1 => Ret SUCCESS s1)
  end.

(** [main()], from the parsed arguments on. *)
Definition main {Py : py.interpreter} (w : world) (frames : nat) (a : args.t)
  (s : state) : result nat :=
  let cfg := mkFlags (args.recursive a) (args.all a) in
  bind (resolve_sources w frames cfg (args.sources a) ([], []) s)
       (fun found s1 => dispatch w a (fst found) (snd found) s1).

End cli.

(** ** What the events of a scan tell *)

Module observe.
Import os ospath os_ops data.

Definition is_success (e : event) : bool :=
  match e with
  | Opened _ _ _ true => true
  | _ => false
  end.

(** A readable image was found: some attempt to open succeeded. *)
Definition found (l : list event) : bool := existsb is_success l.

Definition opened_at (k : nat) (e : event) : bool :=
  match e with
  | Opened f _ _ _ => Nat.eqb f k
  | _ => false
  end.

(** The attempts made by the activation that had [k] frames left, its own
    files, as opposed to those of the scans below it. *)
Definition own (k : nat) (l : list event) : list event :=
  filter (opened_at k) l.

(** Attempts are made by activations with fewer than [k] frames left. *)
Definition below (k : nat) (e : event) : Prop :=
  match e with
  | Opened f _ _ _ => f < k
  | _ => True
  end.

Definition is_too_deep (e : event) : bool :=
  match e with
  | Log (Some py.ERROR) m => py.startswith m "Too deep: "
  | _ => false
  end.

(** No "Too deep" was logged. *)
Definition quiet (l : list event) : bool := negb (existsb is_too_deep l).

(** The process standing in the directory [p], nothing else being known of
    it: what [os] and [os.path] answer depends on the working directory
    only. *)
Definition at_ (p : path) : state := mkState p [] false.

(** The entry is not skipped as hidden (line 57). *)
Definition visible (cfg : cli.flags) (n : name) : bool :=
  negb (py.startswith n "." && negb (cli._SHOW_HIDDEN cfg)).

(** The entry, looked up from the working directory of [s] with links
    followed, is a regular file that [PIL.Image.open] accepts. *)
Definition readable_image (fs : node) (s : state) (entry : name) : bool :=
  match stat fs s (Rel [entry]) with
  | Some (File image) => image
  | _ => false
  end.

(** An attempt that is recorded as a success was made on a file that the
    flags let the scan see and that is an image. *)
Definition honest (fs : node) (cfg : cli.flags) (e : event) : bool :=
  match e with
  | Opened _ d entry true => visible cfg entry && readable_image fs (at_ d) entry
  | _ => true
  end.

(** What a scanner of the directories below guarantees the loop above it:
    its events are put in front of those already there, they stem from
    activations with fewer than [k] frames, and it returns a tree only if
    one of its attempts to open succeeded. *)
Definition scanner_ok (k : nat) (rec : cli.scanner) : Prop :=
  forall dir prev s,
  exists new,
    events (final (rec dir prev s)) = new ++ events s
    /\ Forall (below k) new
    /\ forall t s', rec dir prev s = Ret (Some t) s' -> found new = true.

(** How one round of the loop ends, without the distinction between going
    on and breaking. *)
Definition ctl_state {A} (c : cli.ctl A) : state :=
  match c with
  | cli.Next _ s | cli.Stop _ s | cli.Fail _ s => s
  end.

Definition ctl_acc {A} (c : cli.ctl A) (default : A) : A :=
  match c with
  | cli.Next a _ | cli.Stop a _ => a
  | cli.Fail _ _ => default
  end.

(** The turns of the loop: each entry that the loop came to, with the state
    of the process when its turn came. *)
Fixpoint turns {Py : py.interpreter} (rec : cli.scanner) (frames : nat)
  (fs : node) (cfg : cli.flags) (entries : list name) (acc : bool * dict)
  (s : state) : list (name * state) :=
  match entries with
  | [] => []
  | entry :: rest =>
      (entry, s)
      :: match cli.scan_entry rec frames fs cfg entry acc s with
         | cli.Next acc' s' => turns rec frames fs cfg rest acc' s'
         | _ => []
         end
  end.

(** Where an entry of the mapping comes from: a name whose turn came, that
    was not skipped as hidden, that was not a regular file when it was
    looked up at its turn, and whose own scan, made then because
    [_RECURSIVE] is set, returned the tree. *)
Definition from_subscan (rec : cli.scanner) (fs : node) (cfg : cli.flags)
  (at_turn : list (name * state)) (key : name) (t : tree) : Prop :=
  cli._RECURSIVE cfg = true
  /\ visible cfg key = true
  /\ exists s1 s2 prev,
       In (key, s1) at_turn
       /\ isfile fs s1 (Rel [key]) = false
       /\ rec (Rel [key]) prev s1 = Ret (Some t) s2.

(** [p] is [q] or a directory above [q]. *)
Fixpoint is_ancestor (p q : path) : bool :=
  match p, q with
  | [], _ => true
  | a :: p', b :: q' => String.eqb a b && is_ancestor p' q'
  | _ :: _, [] => false
  end.

(** A link found in the directory [p] that cannot start a cycle nor lead
    astray: it is broken, or names a regular file, or is cyclic, that is, it
    resolves to [p] itself or to a directory above [p]. *)
Definition harmless_link (fs : node) (p : path) (target : list name)
  : bool :=
  match walk (pred MAXSYMLINKS) fs [] target with
  | None => true
  | Some q =>
      is_ancestor q p
      || match get fs q with
         | Some (File _) => true
         | _ => false
         end
  end.

(** A directory, found at [p], in and below which every name is plain and
    every link harmless: the only links to directories are cyclic ones. *)
Fixpoint only_cyclic_links (fs : node) (p : path) (d : node) : bool :=
  match d with
  | Dir _ _ es =>
      (fix all (es : list (name * node)) : bool :=
         match es with
         | [] => true
         | (n, c) :: rest =>
             plain_name n
             && match c with
                | Link t => harmless_link fs p t
                | _ => only_cyclic_links fs (p ++ [n]) c
                end
             && all rest
         end) es
  | _ => true
  end.

(** The number of directories nested in each other, [d] included. *)
Fixpoint height (d : node) : nat :=
  match d with
  | Dir _ _ es =>
      S ((fix highest (es : list (name * node)) : nat :=
            match es with
            | [] => 0
            | (_, c) :: rest => Nat.max (height c) (highest rest)
            end) es)
  | _ => 0
  end.

(** Every key of the tree, at every level, names a directory of [d] proper:
    an entry that is itself a directory, not a link to one. *)
Fixpoint real_dirs (t : tree) (d : node) : bool :=
  match t, d with
  | Node content, Dir _ _ es =>
      (fix all (c : list (name * tree)) : bool :=
         match c with
         | [] => true
         | (k, t') :: rest =>
             match find_entry k es with
             | Some (Dir e l es') => real_dirs t' (Dir e l es')
             | _ => false
             end
             && all rest
         end) content
  | _, _ => false
  end.

(** Some link in or below the directory [d], found at [p], is cyclic: it
    resolves to the directory that holds it or to one above. *)
Fixpoint holds_cyclic_link (fs : node) (p : path) (d : node) : bool :=
  match d with
  | Dir _ _ es =>
      (fix any (es : list (name * node)) : bool :=
         match es with
         | [] => false
         | (n, c) :: rest =>
             match c with
             | Link t =>
                 match walk (pred MAXSYMLINKS) fs [] t with
                 | Some q => is_ancestor q p
                 | None => false
                 end
             | _ => holds_cyclic_link fs (p ++ [n]) c
             end
             || any rest
         end) es
  | _ => false
  end.



(** *** The scan without its frames *)

(** Where [os.chdir(dir)], called in the directory [p], leads. *)
Definition target (fs : node) (p : path) (dir : pypath) : option path :=
  match chdir fs dir (at_ p) with
  | Some s => Some (cwd s)
  | None => None
  end.

(** The scan, standing in the directory [p], calls [check_dir] on the
    entry: the entry is not skipped as hidden, it is not a regular file,
    [_RECURSIVE] is set, and the entry is a link that passes the test of
    line 78 or, not being a link, a directory. *)
Definition entered (cfg : cli.flags) (fs : node) (p : path) (e : name)
  : bool :=
  visible cfg e
  && negb (isfile fs (at_ p) (Rel [e]))
  && cli._RECURSIVE cfg
  && (if islink fs (at_ p) (Rel [e]) then cli.link_followed fs (at_ p) e
      else isdir fs (at_ p) (Rel [e])).

(** The directory [p] is known by the path that [os.getcwd()] returns for
    it: the path exists and holds no link, so that [os.chdir] of it leads
    back to [p]. *)
Definition home (fs : node) (p : path) : bool :=
  match walk MAXSYMLINKS fs [] p with
  | Some q => if list_eq_dec string_dec q p then true else false
  | None => false
  end.

(** The scans that [check_dir(dir)], called in the directory [p], sets off
    nest [n] deep at most, the call itself counted; and a directory in which
    a link is followed is known by its own path, so that the scan can come
    back to it. *)
Fixpoint calls_bounded (n : nat) (cfg : cli.flags) (fs : node) (p : path)
  (dir : pypath) : bool :=
  match n with
  | 0 => false
  | S m =>
      match target fs p dir with
      | None => true
      | Some q =>
          match listdir fs (at_ q) with
          | None => true
          | Some entries =>
              forallb
                (fun e =>
                   negb (entered cfg fs q e)
                   || ((negb (islink fs (at_ q) (Rel [e])) || home fs q)
                       && calls_bounded m cfg fs q (Rel [e])))
                entries
          end
      end
  end.

(** A readable image can be reached by [check_dir(dir)], called in the
    directory [p], within [n] nested scans: the directory can be entered and
    listed, and one of the entries that are not skipped as hidden is a
    regular file (links followed) that opens as an image, or is entered by
    the scan and leads to one. *)
Fixpoint reach (n : nat) (cfg : cli.flags) (fs : node) (p : path)
  (dir : pypath) : bool :=
  match n with
  | 0 => false
  | S m =>
      match target fs p dir with
      | None => false
      | Some q =>
          match listdir fs (at_ q) with
          | None => false
          | Some entries =>
              existsb
                (fun e =>
                   visible cfg e
                   && (if isfile fs (at_ q) (Rel [e])
                       then readable_image fs (at_ q) e
                       else entered cfg fs q e
                            && reach m cfg fs q (Rel [e])))
                entries
          end
      end
  end.

(** Every key of the tree, at every level, was entered by the scan under
    the rules: it names a directory proper, or a link that passed the test
    of line 78, and so no link that leads to the directory that holds it or
    to one above. *)
Fixpoint keys_followed (fs : node) (p : path) (t : tree) : bool :=
  match t with
  | Node content =>
      (fix all (c : list (name * tree)) : bool :=
         match c with
         | [] => true
         | (k, t') :: rest =>
             (if islink fs (at_ p) (Rel [k])
              then cli.link_followed fs (at_ p) k
              else isdir fs (at_ p) (Rel [k]))
             && match target fs p (Rel [k]) with
                | Some q => keys_followed fs q t'
                | None => false
                end
             && all rest
         end) content
  end.

(** The entry as the scan standing in the directory [p] meets it, [m] nested
    scans being looked into: a file that opens as an image, or an entry that
    is scanned and leads to one. *)
Definition hit (m : nat) (cfg : cli.flags) (fs : node) (p : path) (e : name)
  : bool :=
  visible cfg e
  && (if isfile fs (at_ p) (Rel [e])
      then readable_image fs (at_ p) e
      else entered cfg fs p e && reach m cfg fs p (Rel [e])).

(** What is asked of an entry for the scans below the directory [p] to nest
    [m] deep at most. *)
Definition tame_entry (m : nat) (cfg : cli.flags) (fs : node) (p : path)
  (e : name) : bool :=
  negb (entered cfg fs p e)
  || ((negb (islink fs (at_ p) (Rel [e])) || home fs p)
      && calls_bounded m cfg fs p (Rel [e])).

(** Nothing was found so far: no file opened and the mapping is empty. *)
Definition nothing_yet (acc : bool * dict) : bool :=
  fst acc && negb (dict_truthy (snd acc)).

(** The key [k] with its tree is one that a scan standing in [p] may put
    into its mapping. *)
Definition key_followed (fs : node) (p : path) (k : name) (t : tree)
  : Prop :=
  (if islink fs (at_ p) (Rel [k]) then cli.link_followed fs (at_ p) k
   else isdir fs (at_ p) (Rel [k])) = true
  /\ exists q, target fs p (Rel [k]) = Some q /\ keys_followed fs q t = true.

(** What a scanner guarantees where the scans it sets off nest [m] deep at
    most: it logs no "Too deep"; if the directory cannot be entered it
    returns [None] where it stands; else it returns where [prev_dir] leads
    from the directory, [None] exactly if no image can be reached, and a
    tree whose keys were all entered under the rules; or [os.chdir(prev_dir)]
    fails. *)
Definition scans_within (cfg : cli.flags) (fs : node) (m : nat)
  (rec : cli.scanner) : Prop :=
  forall dir prev s,
    calls_bounded m cfg fs (cwd s) dir = true ->
    exists new,
      events (final (rec dir prev s)) = new ++ events s
      /\ quiet new = true
      /\ match target fs (cwd s) dir with
         | None => exists s', rec dir prev s = Ret None s' /\ cwd s' = cwd s
         | Some q =>
             match target fs q prev with
             | Some q' =>
                 exists r s',
                   rec dir prev s = Ret r s'
                   /\ cwd s' = q'
                   /\ (r = None <-> reach m cfg fs (cwd s) dir = false)
                   /\ forall t, r = Some t -> keys_followed fs q t = true
             | None => exists s', rec dir prev s = Raise py.OSError s'
             end
         end.

End observe.

(** ** A small concrete world to run the definitions on *)

Module demo.
Import os data cli.

(** [/pics] holds an image, a text file, a directory of images, a hidden
    directory, a link back to [/pics] and a link to the root; [/http:] makes
    the text of a URL name a local file as well. *)
Definition root : node :=
  Dir true true
    [("pics",
      Dir true true
        [("a.png", File true);
         ("notes.txt", File false);
         ("b.png", File true);
         ("sub", Dir true true [("c.gif", File true)]);
         (".cache", Dir true true [("d.png", File true)]);
         ("self", Link ["pics"]);
         ("up", Link []);
         ("void", Dir true true [])]);
     ("http:",
      Dir true true
        [("example.org", Dir true true [("a.png", File true)])]);
     ("locked", Dir true false [("e.png", File true)])].

(** A stand-in for [urlparse] that knows the two shapes used below. *)
Definition parse (url : string) : ParseResult :=
  if py.startswith url "http://example.org/"
  then mkParse "http" "example.org" (substring 18 (String.length url) url)
         "" "" ""
  else mkParse "" "" url "" "" "".

Definition get (url : string) : option response :=
  if String.eqb url "http://example.org/a.png" then Some (mkResponse 200 "PNG")
  else if String.eqb url "http://example.org/LICENSE"
       then Some (mkResponse 200 "MIT")
  else if String.eqb url "http://example.org/down" then None
  else Some (mkResponse 404 "").

(** A core that rejects a width of 0 as an invalid size and a scale of 0 as
    a plain value error. *)
Definition world0 : world :=
  mkWorld root parse get (fun b => String.eqb b "PNG")
    (fun f => negb (String.eqb f "/locked/e.png"))
    (fun n _ => if Z.eqb n 0 then Some (py.InvalidSize "too small") else None)
    (fun n _ => if Z.eqb n 0 then Some (py.InvalidSize "too small") else None)
    (fun q _ => if Z.eqb (fst q) 0 then Some (py.ValueError "scale") else None)
    (fun q _ => if Z.eqb (fst q) 0 then Some (py.ValueError "scale") else None)
    (fun _ _ => None)
    (fun _ _ _ => None)
    (fun s => Ret tt s)
    (fun _ _ s => Ret tt s)
    (fun s => Ret tt s).

(** The same, with a display generator that fails at its first step. *)
Definition world1 : world :=
  mkWorld root parse get (fun b => String.eqb b "PNG") (fun _ => true)
    (fun _ _ => None) (fun _ _ => None) (fun _ _ => None) (fun _ _ => None)
    (fun _ _ => None) (fun _ _ _ => None)
    (fun s => Ret tt s)
    (fun _ _ s => Raise py.KeyboardInterrupt s)
    (fun s => Ret tt s).

Definition args0 (sources : list string) : args.t :=
  args.mk sources None None (1, 1)%Z (1, 1)%Z (1, 10)%Z false (2, 5)%Z None
    false None None None None false true 4194304%Z false.

(** A chain of directories to run out of frames in. *)
Definition deep : node :=
  Dir true true
    [("d",
      Dir true true
        [("e", Dir true true [("x.png", File true)]);
         ("x.png", File true);
         ("f", Dir true true [("y.png", File true)])])].

(** Two directories that link to each other, one of them with a link to
    itself as well. *)
Definition twisted_r : node :=
  Dir true true
    [("x",
      Dir true true
        [("a.png", File true);
         ("self", Link ["r"; "x"]);
         ("l1", Link ["r"; "y"])]);
     ("y", Dir true true [("l2", Link ["r"; "x"])])].

Definition twisted : node := Dir true true [("r", twisted_r)].

(** A directory with a chain of directories listed before a file and a
    directory of the file's name further down. *)
Definition drift : node :=
  Dir true true
    [("root",
      Dir true true
        [("d",
          Dir true true
            [("e", Dir true true [("x.png", File true)]);
             ("f", Dir true true [("y.png", File true)])]);
         ("f", File true)])].

(** A directory with a link to itself and a link to a directory that is
    not above it. *)
Definition linked : node :=
  Dir true true
    [("a",
      Dir true true
        [("self", Link ["a"]);
         ("lnk", Link ["b"]);
         ("z.txt", File false)]);
     ("b", Dir true true [("c.png", File true)])].

Definition start : state := mkState [] [] false.

End demo.

(** ** [term_img/cli.py], lines 382-391: the options checked against the
    user's configuration *)

Module config.

(** The value of an attribute of the namespace, or of a local variable of
    [main]. *)
Inductive value :=
| VNone
| VBool (b : bool)
| VInt (n : Z)
| VFloat (q : data.float)
| VStr (text : string)
| VObject (id : nat).
    (* anything else: a function, a module, the parser *)

(** The attributes of [args], in the order they were set. *)
Definition namespace := list (string * value).

(** [getattr(args, var_name, None)] *)
Fixpoint getattr (ns : namespace) (k : string) : value :=
  match ns with
  | [] => VNone
  | (k', v) :: rest => if String.eqb k k' then v else getattr rest k
  end.

(** [setattr(args, var_name, v)] *)
Fixpoint setattr (ns : namespace) (k : string) (v : value) : namespace :=
  match ns with
  | [] => [(k, v)]
  | (k', v') :: rest =>
      if String.eqb k k' then (k, v) :: rest else (k', v') :: setattr rest k v
  end.

(** [value is not None] *)
Definition is_not_None (v : value) : bool :=
  match v with
  | VNone => false
  | _ => true
  end.

(** [name.replace(" ", "_")] *)
Fixpoint replace_spaces (name : string) : string :=
  match name with
  | EmptyString => EmptyString
  | String c rest =>
      String (if Ascii.eqb c " " then "_"%char else c) (replace_spaces rest)
  end.

(** One call of [notify.notify] at level ERROR: "Invalid {name} (got:
    {value})... Using config value." *)
Record notification := mkNotification {
  about : string;
  got : value
}.

(** [locals()] inside the loop: the variables of the loop, and below them
    the other local variables of [main], [env]. *)
Definition locals (env : string -> option value) (name var_name : string)
  (v : value) (k : string) : option value :=
  if String.eqb k "name" then Some (VStr name)
  else if String.eqb k "is_valid" then Some (VObject 0)
  else if String.eqb k "var_name" then Some (VStr var_name)
  else if String.eqb k "value" then Some v
  else env k.

(** How the loop ends: it ran through, or [locals()[var_name]] raised
    [KeyError]. *)
Inductive outcome :=
| Done (ns : namespace) (notes : list notification)
| KeyError (var_name : string) (ns : namespace) (notes : list notification).

(** Lines 383-391, one round of the loop; [notes] holds the notifications so
    far, most recent first. *)
Definition reconcile_option (env : string -> option value)
  (option : string * (value -> bool)) (ns : namespace)
  (notes : list notification) : outcome :=
  let '(name, is_valid) := option in
  let var_name := replace_spaces name in
  let v := getattr ns var_name in
  if is_not_None v && negb (is_valid v) then
    let notes' := mkNotification name v :: notes in
    match locals env name var_name v var_name with
    | Some c => Done (setattr ns var_name c) notes'
    | None => KeyError var_name ns notes'
    end
  else Done ns notes.

(** Lines 382-391: the loop over [config_options.items()]. *)
Fixpoint reconcile (env : string -> option value)
  (config_options : list (string * (value -> bool))) (ns : namespace)
  (notes : list notification) : outcome :=
  match config_options with
  | [] => Done ns notes
  | option :: rest =>
      match reconcile_option env option ns notes with
      | Done ns' notes' => reconcile env rest ns' notes'
      | KeyError k ns' notes' => KeyError k ns' notes'
      end
  end.

(** The name of an option does not collide with a variable of the loop. *)
Definition plain_option (name : string) : bool :=
  negb (String.eqb (replace_spaces name) "name")
  && negb (String.eqb (replace_spaces name) "is_valid")
  && negb (String.eqb (replace_spaces name) "var_name")
  && negb (String.eqb (replace_spaces name) "value").

(** An option sits well in a namespace: its attribute is [None] or absent,
    or passes the option's test, or holds the value of the configuration. *)
Definition settled_option (env : string -> option value) (ns : namespace)
  (option : string * (value -> bool)) : Prop :=
  getattr ns (replace_spaces (fst option)) = VNone
  \/ snd option (getattr ns (replace_spaces (fst option))) = true
  \/ env (replace_spaces (fst option))
     = Some (getattr ns (replace_spaces (fst option))).

(** A configuration with three values, and a command line that asks for a
    font ratio of 0 and for 10 pixels. *)
Definition env0 (k : string) : option value :=
  if String.eqb k "font_ratio" then Some (VFloat (1, 2)%Z)
  else if String.eqb k "frame_duration" then Some (VFloat (1, 10)%Z)
  else if String.eqb k "max_pixels" then Some (VInt 4194304)
  else None.

Definition positive (v : value) : bool :=
  match v with
  | VInt n => Z.ltb 0 n
  | VFloat q => Z.ltb 0 (fst q) && Z.ltb 0 (snd q)
  | _ => false
  end.

Definition options0 : list (string * (value -> bool)) :=
  [("font ratio", positive);
   ("frame duration", positive);
   ("max pixels", fun v => match v with
                           | VInt n => Z.leb 100 n
                           | _ => false
                           end);
   ("max notifications", positive)].

Definition namespace0 : namespace :=
  [("font_ratio", VFloat (0, 1)%Z);
   ("frame_duration", VFloat (1, 5)%Z);
   ("width", VNone);
   ("max_pixels", VInt 10);
   ("recursive", VBool true)].

End config.

(** ** What a scan may do to the process *)

Module effects.
Import os ospath data observe.

(** An event that [check_dir] itself leaves: an attempt to open an entry
    that the flags let it see, the error logged by the handler of
    [RecursionError], or an exception logged when a directory cannot be
    entered or listed. *)
Definition scan_event (cfg : cli.flags) (e : event) : bool :=
  match e with
  | Opened _ _ entry _ => visible cfg entry
  | Log _ _ => is_too_deep e
  | LogException _ => true
  | _ => false
  end.

(** The state [s'] was reached from [s] by a scan: the flag of the TUI is
    as it was, the new events are events of a scan, and those that record a
    success do so of an image. *)
Definition within (fs : node) (cfg : cli.flags) (s s' : state) : Prop :=
  launched s' = launched s
  /\ exists new,
       events s' = new ++ events s
       /\ forallb (scan_event cfg) new = true
       /\ forallb (honest fs cfg) new = true.

(** The exceptions that a scan lets out. *)
Definition scan_exn (e : py.exn) : bool :=
  match e with
  | py.RecursionError | py.OSError => true
  | _ => false
  end.

Definition contained (fs : node) (cfg : cli.flags) (s : state)
  (r : result (option tree)) : Prop :=
  within fs cfg s (final r)
  /\ match r with
     | Raise e _ => scan_exn e = true
     | Ret _ _ => True
     end.

(** No key of the tree, at any level, is a hidden name. *)
Fixpoint no_hidden_keys (t : tree) : bool :=
  match t with
  | Node content =>
      (fix all (c : list (name * tree)) : bool :=
         match c with
         | [] => true
         | (k, t') :: rest =>
             negb (py.startswith k ".") && no_hidden_keys t' && all rest
         end) content
  end.

(** The entry makes a directory count when it is scanned without
    [--recursive]. *)
Definition counts_flat (cfg : cli.flags) (fs : node) (s : state)
  (entry : name) : bool :=
  visible cfg entry && readable_image fs s entry.

(** An element of [images] is the scan of a directory. *)
Definition is_scanner (it : string * item) : bool :=
  match snd it with
  | Scanner _ _ _ => true
  | Image _ => false
  end.

(** [images] and [contents] agree: every entry of [contents] belongs to a
    scan among the images, filed under the same name and holding the same
    tree, and every scan among the images has its name in [contents]. *)
Definition agree (images : cli.images_t) (contents : cli.contents_t) : Prop :=
  (forall k t, In (k, t) contents ->
               exists c, In (k, Scanner k t c) images)
  /\ (forall k src t c, In (k, Scanner src t c) images ->
                        src = k /\ In k (map fst contents))
  /\ NoDup (map fst contents).

(** The names [a] occur in [b], in the same order. *)
Fixpoint subseq (a b : list name) : bool :=
  match a, b with
  | [], _ => true
  | _ :: _, [] => false
  | x :: a', y :: b' =>
      if String.eqb x y then subseq a' b' else subseq a b'
  end.

End effects.

(* ================================================================== *)
(** * Part II: properties *)
(* ================================================================== *)

(** ** The entry point *)

Module main_facts.
Import os data cli.

Lemma main_unfold {Py : py.interpreter} w frames a s images contents s1 :
  resolve_sources w frames (mkFlags (args.recursive a) (args.all a))
    (args.sources a) ([], []) s = Ret (images, contents) s1 ->
  main w frames a s = dispatch w a images contents s1.
Proof.
  intros H. unfold main. rewrite H. reflexivity.
Qed.

(** C1.  Whatever the sources resolve to, [main] ends in one of three ways.
    With no valid source it returns NO_VALID_SOURCE (3).  With exactly one
    source that is a plain image, the image is drawn directly: [main] returns
    SUCCESS (0) when drawing raises nothing, INVALID_SIZE (2) when it raises
    an invalid-size error, FAILURE (1) when it raises another value error.
    In every other case (more than one source, or a directory) [main] is
    [tui.init] followed by SUCCESS. *)
Theorem main_exit_codes {Py : py.interpreter} w frames a s images contents s1 :
  resolve_sources w frames (mkFlags (args.recursive a) (args.all a))
    (args.sources a) ([], []) s = Ret (images, contents) s1 ->
  (images = [] ->
   main w frames a s
   = Ret NO_VALID_SOURCE (record (Log None "No valid source!") s1))
  /\
  (forall n im, images = [(n, Image im)] ->
   let s2 :=
     record (Log None "Single image source; Printing directly to console")
       s1 in
   (forall s3, draw w a im s2 = Ret tt s3 ->
      main w frames a s = Ret SUCCESS s3 /\ In Drawn (events s3))
   /\
   (forall e s3, draw w a im s2 = Raise e s3 -> py.is_InvalidSize e = true ->
      main w frames a s
      = Ret INVALID_SIZE (record (Log (Some py.CRITICAL) (str e)) s3))
   /\
   (forall e s3, draw w a im s2 = Raise e s3 -> py.is_ValueError e = true ->
      py.is_InvalidSize e = false ->
      main w frames a s
      = Ret FAILURE (record (Log (Some py.CRITICAL) (str e)) s3)))
  /\
  (images <> [] -> (forall n im, images <> [(n, Image im)]) ->
   main w frames a s
   = bind (tui.init w a images contents s1) (fun _ s2 => Ret SUCCESS s2)).
Proof.
  intros Hres. rewrite (main_unfold _ _ _ _ _ _ _ Hres).
  split; [|split].
  - intros ->. reflexivity.
  - intros n im ->. cbn zeta. split; [|split].
    + intros s3 Hd. cbn [dispatch]. rewrite Hd. split; [reflexivity|].
      revert Hd. unfold draw, bind, attempt.
      repeat match goal with
             | |- context [match ?x with _ => _ end] => destruct x
             end; intros Hd; inversion Hd; subst; cbn; auto.
    + intros e s3 Hd Hi. cbn [dispatch]. rewrite Hd.
      destruct e; cbn in Hi; try discriminate. reflexivity.
    + intros e s3 Hd Hv Hi. cbn [dispatch]. rewrite Hd, Hv, Hi. reflexivity.
  - intros Hne Hsingle. unfold dispatch.
    destruct images as [|[n [im|src t p]] [|x rest]]; try reflexivity.
    + contradiction.
    + exfalso. apply (Hsingle n im). reflexivity.
Qed.

Lemma main_exit_codes_witness :
  main (Py := py.one_frame) demo.world0 100 (demo.args0 ["pics/a.png"])
    demo.start
  = Ret SUCCESS
      (record Drawn
         (record (Log None "Single image source; Printing directly to console")
            demo.start)).
Proof.
  pose proof (main_exit_codes (Py := py.one_frame) demo.world0 100
                (demo.args0 ["pics/a.png"])
                demo.start [("pics/a.png", Image (mkTermImage "pics/a.png" None))]
                [] demo.start eq_refl) as [_ [H _]].
  destruct (H "pics/a.png" (mkTermImage "pics/a.png" None) eq_refl) as [H1 _].
  exact (proj1 (H1 _ eq_refl)).
Defined.

End main_facts.

(** ** The TUI bootstrap *)

Module tui_facts.
Import data.

Lemma foreign_launched f s :
  launched (final (foreign f s)) = launched s.
Proof.
  unfold foreign. destruct (f s); reflexivity.
Qed.

Lemma finally_launched {A} (body : result A) b :
  launched (final (finally body (set_launched b))) = b.
Proof.
  destruct body; reflexivity.
Qed.

(** C9, as stated, does not hold: an error raised by the first step of the
    display generator comes after the flag was set and outside the [try], so
    [init] is left with the flag still set. *)
Lemma launched_survives_failed_start :
  ~ (forall w a images contents s s1,
        foreign (make_loop w) s = Ret tt s1 ->
        launched (final (tui.init w a images contents s)) = false).
Proof.
  intros H.
  specialize (H demo.world1 (demo.args0 ["pics"]) [] [] demo.start
                demo.start eq_refl).
  vm_compute in H. discriminate H.
Qed.

(** C9, amended.  Once the display generator has made its first step, the
    event loop is entered with the flag set, and however the loop ends, by
    returning or by raising, the flag is clear when [init] is left. *)
Theorem launched_cleared_on_loop_exit w a images contents s s1 s4 :
  foreign (make_loop w) s = Ret tt s1 ->
  foreign (displayer_next w images contents)
    (set_launched true (record (Log None "Launching TUI") s1)) = Ret tt s4 ->
  launched (record LoopRun s4) = true
  /\ tui.init w a images contents s
     = finally
         (bind (foreign (loop_run w) (record LoopRun s4)) (fun _ s5 =>
          Ret tt (record (Log None "Exited TUI normally") s5)))
         (set_launched false)
  /\ launched (final (tui.init w a images contents s)) = false.
Proof.
  intros H1 H4.
  assert (Hinit : tui.init w a images contents s
                  = finally
                      (bind (foreign (loop_run w) (record LoopRun s4))
                         (fun _ s5 =>
                          Ret tt (record (Log None "Exited TUI normally") s5)))
                      (set_launched false)).
  { unfold tui.init. rewrite H1. cbn [bind]. rewrite H4. reflexivity. }
  split; [|split].
  - pose proof (foreign_launched (displayer_next w images contents)
                  (set_launched true (record (Log None "Launching TUI") s1)))
      as Hl.
    rewrite H4 in Hl. cbn in Hl. cbn. exact Hl.
  - exact Hinit.
  - rewrite Hinit. apply finally_launched.
Qed.

Lemma launched_cleared_on_loop_exit_witness :
  launched
    (final (tui.init demo.world0 (demo.args0 ["pics"]) [] [] demo.start))
  = false.
Proof.
  exact (proj2 (proj2 (launched_cleared_on_loop_exit demo.world0
                         (demo.args0 ["pics"]) [] [] demo.start demo.start
                         _ eq_refl eq_refl))).
Defined.

End tui_facts.

(** ** Images from a URL *)

Module url_facts.
Import data.

(** C7.  [from_url] looks at the URL before it touches the network.  A URL
    that is not complete raises a value error and the state is left as it
    was: no request is made, whatever the network would have answered.  A
    complete URL answered with 404 raises the not-found error, which is not
    the connection error; fetched bytes that do not decode raise the codec
    error. *)
Theorem from_url_errors w url s :
  (py.all (first3 (urlparse w url)) = false ->
   image.from_url w url s
   = Raise (py.ValueError ("Invalid URL: '" ++ url ++ "'")) s
   /\ events (final (image.from_url w url s)) = events s
   /\ forall w', urlparse w' = urlparse w ->
       image.from_url w' url s = image.from_url w url s)
  /\
  (forall r,
     py.all (first3 (urlparse w url)) = true ->
     requests_get w url = Some r ->
     status_code r = 404 ->
     exists msg,
       image.from_url w url s
       = Raise (py.URLNotFoundError msg) (record (HttpGet url) s)
       /\ py.URLNotFoundError msg <> py.ConnectionError)
  /\
  (forall r,
     py.all (first3 (urlparse w url)) = true ->
     requests_get w url = Some r ->
     status_code r <> 404 ->
     decodable w (body r) = false ->
     exists msg,
       image.from_url w url s
       = Raise (py.UnidentifiedImageError msg) (record (HttpGet url) s)).
Proof.
  split; [|split].
  - intros Hbad.
    assert (Hraise : image.from_url w url s
                     = Raise (py.ValueError ("Invalid URL: '" ++ url ++ "'")) s).
    { unfold image.from_url. rewrite Hbad. reflexivity. }
    rewrite Hraise. repeat split.
    intros w' Hw'. unfold image.from_url. rewrite Hw', Hbad. reflexivity.
  - intros r Hok Hget H404. unfold image.from_url.
    rewrite Hok, Hget, H404. cbn. eexists. split; [reflexivity|discriminate].
  - intros r Hok Hget H404 Hdec. unfold image.from_url.
    rewrite Hok, Hget, Hdec. cbn [negb].
    destruct (Nat.eqb_spec (status_code r) 404); [contradiction|].
    eexists. reflexivity.
Qed.

Lemma from_url_errors_witness :
  image.from_url demo.world0 "pics/a.png" demo.start
  = Raise (py.ValueError "Invalid URL: 'pics/a.png'") demo.start
  /\ (exists msg,
        image.from_url demo.world0 "http://example.org/gone" demo.start
        = Raise (py.URLNotFoundError msg)
            (record (HttpGet "http://example.org/gone") demo.start))
  /\ (exists msg,
        image.from_url demo.world0 "http://example.org/LICENSE" demo.start
        = Raise (py.UnidentifiedImageError msg)
            (record (HttpGet "http://example.org/LICENSE") demo.start)).
Proof.
  split; [|split].
  - exact (proj1 (proj1 (from_url_errors demo.world0 "pics/a.png" demo.start)
                    eq_refl)).
  - destruct (proj1 (proj2 (from_url_errors demo.world0
                              "http://example.org/gone" demo.start))
                (mkResponse 404 "") eq_refl eq_refl eq_refl) as [m [Hm _]].
    exists m. exact Hm.
  - refine (proj2 (proj2 (from_url_errors demo.world0
                            "http://example.org/LICENSE" demo.start))
              (mkResponse 200 "MIT") eq_refl eq_refl _ eq_refl).
    cbn. discriminate.
Defined.

End url_facts.

(** ** Classification of the sources *)

Module source_facts.
Import os data cli.

Lemma from_url_with_fs fs' w url s :
  image.from_url (with_fs fs' w) url s = image.from_url w url s.
Proof. reflexivity. Qed.

Lemma from_url_requests w url s :
  py.all (first3 (urlparse w url)) = true ->
  In (HttpGet url) (events (final (image.from_url w url s))).
Proof.
  intros H. unfold image.from_url. rewrite H. cbn [negb].
  destruct (requests_get w url) as [r|]; [|cbn; auto].
  destruct (Nat.eqb (status_code r) 404); [cbn; auto|].
  destruct (decodable w (body r)); cbn; auto.
Qed.

(** C10.  The sources are classified as URL first, then file, then
    directory.  A source whose scheme, host and path are all non-empty is
    fetched: the request is made, and what comes of the source is the same
    whatever the file system holds, a file or a directory of that very name
    included.  A source that fails the URL test never reaches the network:
    what comes of it is the same whatever the network would answer; it is
    taken as a file when it is one, given to [check_dir] when it is not a
    file but a directory, with [os.getcwd()] as the directory to come back
    to (so that the round ends in the [OSError] of [os.getcwd()] when the
    working directory is no longer there), and reported as invalid
    otherwise. *)
Theorem url_before_file_before_dir {Py : py.interpreter} w frames cfg source
  acc s :
  (py.all (first3 (urlparse w source)) = true ->
   In (HttpGet source)
     (events (final (resolve_source w frames cfg source acc s)))
   /\ forall fs',
        resolve_source (with_fs fs' w) frames cfg source acc s
        = resolve_source w frames cfg source acc s)
  /\
  (py.all (first3 (urlparse w source)) = false ->
   (forall get',
      resolve_source (with_net get' w) frames cfg source acc s
      = resolve_source w frames cfg source acc s)
   /\
   (ospath.isfile (fs w) s (parse_path source) = true ->
    forall r, resolve_source w frames cfg source acc s = r ->
    events (final r) = events s
    \/ exists m, events (final r) = Log (Some py.ERROR) m :: events s)
   /\
   (ospath.isfile (fs w) s (parse_path source) = false ->
    ospath.isdir (fs w) s (parse_path source) = true ->
    match os_ops.getcwd (fs w) s with
    | None =>
        resolve_source w frames cfg source acc s
        = Raise py.OSError
            (record (Log None ("Checking directory " ++ py.repr source
                                 ++ "...")) s)
    | Some _ =>
        forall result s2,
          check_dir frames (fs w) cfg (parse_path source) (Abs (cwd s))
            (record (Log None ("Checking directory " ++ py.repr source
                                 ++ "...")) s)
          = Ret result s2 ->
          final (resolve_source w frames cfg source acc s)
          = record (Log None "... Done!") s2
    end)
   /\
   (ospath.isfile (fs w) s (parse_path source) = false ->
    ospath.isdir (fs w) s (parse_path source) = false ->
    resolve_source w frames cfg source acc s
    = Ret acc (record (Log (Some py.ERROR)
                         (py.repr source ++ " is invalid or does not exist"))
                 s))).
Proof.
  split.
  - intros Hurl. split.
    + unfold resolve_source. destruct acc as [images contents]. rewrite Hurl.
      pose proof (from_url_requests w source
                    (record (Log None ("Getting image from " ++ py.repr source
                                         ++ "...")) s) Hurl) as Hin.
      destruct (image.from_url w source _) as [im s2|e s2]; cbn in Hin.
      * cbn. auto.
      * destruct e; cbn; auto.
    + intros fs'. unfold resolve_source. destruct acc as [images contents].
      cbn [urlparse with_fs]. rewrite Hurl, from_url_with_fs. reflexivity.
  - intros Hurl. split; [|split; [|split]].
    + intros get'. unfold resolve_source. destruct acc as [images contents].
      cbn [urlparse with_net]. rewrite Hurl. reflexivity.
    + intros Hfile r <-. unfold resolve_source.
      destruct acc as [images contents]. rewrite Hurl, Hfile.
      unfold relpath, image.from_file.
      destruct (os_ops.getcwd (fs w) s); [|cbn; eauto].
      destruct (ospath.stat (fs w) s (parse_path source)) as [[[|]| | |]|];
        try destruct (can_open w source); cbn; eauto.
    + intros Hfile Hdir.
      unfold resolve_source. destruct acc as [images contents].
      rewrite Hurl, Hfile, Hdir. unfold os_ops.getcwd. cbn [cwd record].
      destruct (get (fs w) (cwd s)); [|reflexivity].
      intros result s2 Hscan. rewrite Hscan.
      destruct result; [|reflexivity].
      destruct (get (fs w) (cwd s2)); reflexivity.
    + intros Hfile Hdir.
      unfold resolve_source. destruct acc as [images contents].
      rewrite Hurl, Hfile, Hdir. reflexivity.
Qed.

(** [http://example.org/a.png] names a local file as well; it is fetched. *)
Lemma url_before_file_before_dir_witness :
  ospath.isfile (fs demo.world0) demo.start
    (parse_path "http://example.org/a.png") = true
  /\ In (HttpGet "http://example.org/a.png")
       (events (final (resolve_source (Py := py.one_frame) demo.world0 100
                         (mkFlags true false) "http://example.org/a.png"
                         ([], []) demo.start))).
Proof.
  split; [reflexivity|].
  exact (proj1 (proj1 (url_before_file_before_dir (Py := py.one_frame)
                         demo.world0 100 (mkFlags true false)
                         "http://example.org/a.png" ([], []) demo.start)
                  eq_refl)).
Defined.

End source_facts.

(** ** The animation iterator *)

Module iterator_facts.
Import image.

(** Steps in a row compose. *)
Lemma steps_app a : forall b it l1 it1 l2 it2,
  steps a it = (inr l1, it1) ->
  steps b it1 = (inr l2, it2) ->
  steps (a + b) it = (inr (l1 ++ l2), it2).
Proof.
  induction a as [|a IH]; intros b it l1 it1 l2 it2 H1 H2.
  - cbn in H1. inversion H1; subst. exact H2.
  - cbn [Nat.add steps] in *.
    destruct (next_ it) as [[e|f] ita]; [discriminate|].
    destruct (steps a ita) as [[e|l'] itb] eqn:E; [discriminate|].
    inversion H1; subst.
    rewrite (IH b ita l' it1 l2 it2 E H2). reflexivity.
Qed.

(** The rest of the running pass: from frame [n] to the last one. *)
Lemma steps_rest_of_pass k : forall n it p,
  _animator it = Some (mkAnimator n p) ->
  n + k = n_frames (_image it) ->
  exists it',
    steps k it = (inr (seq n k), it')
    /\ _animator it' = Some (mkAnimator (n + k) p)
    /\ n_frames (_image it') = n_frames (_image it)
    /\ (k = 0 -> it' = it).
Proof.
  induction k as [|k IH]; intros n it p Ha Hn.
  - exists it. cbn. rewrite Nat.add_0_r. auto.
  - cbn [steps]. unfold next_. rewrite Ha. cbn [next_frame passes].
    assert (Hlt : Nat.ltb n (n_frames (_image it)) = true)
      by (apply Nat.ltb_lt; lia).
    rewrite Hlt.
    destruct (IH (S n) (yield n (mkAnimator (S n) p) it) p eq_refl)
      as (it' & Hs & Ha' & Hf & _).
    { cbn. lia. }
    exists it'. rewrite Hs. cbn [seq].
    repeat split.
    + rewrite Ha'. f_equal. f_equal. lia.
    + rewrite Hf. reflexivity.
    + discriminate.
Qed.

(** One further pass: from the end of a pass that is not the last one to the
    end of the next. *)
Lemma steps_further_pass it q :
  _animator it
  = Some (mkAnimator (n_frames (_image it)) (Z.of_nat (S (S q)))) ->
  1 <= n_frames (_image it) ->
  exists it',
    steps (n_frames (_image it)) it
    = (inr (seq 0 (n_frames (_image it))), it')
    /\ _animator it'
       = Some (mkAnimator (n_frames (_image it)) (Z.of_nat (S q)))
    /\ n_frames (_image it') = n_frames (_image it).
Proof.
  intros Ha HF. remember (n_frames (_image it)) as F eqn:EF.
  destruct F as [|F]; [lia|].
  cbn [steps]. unfold next_. rewrite Ha. cbn [next_frame passes].
  rewrite <- EF, Nat.ltb_irrefl.
  assert (Hne : Z.eqb (Z.of_nat (S (S q))) 1 = false) by (apply Z.eqb_neq; lia).
  assert (Hpos : Z.ltb (Z.of_nat (S (S q))) 0 = false) by (apply Z.ltb_ge; lia).
  rewrite Hne, Hpos.
  destruct (steps_rest_of_pass F 1
              (yield 0 (mkAnimator 1 (Z.pred (Z.of_nat (S (S q))))) it)
              (Z.pred (Z.of_nat (S (S q)))) eq_refl)
    as (it' & Hs & Ha' & Hf & _).
  { cbn. lia. }
  exists it'. rewrite Hs. repeat split.
  - rewrite Ha'. f_equal. f_equal. lia.
  - rewrite Hf. cbn. lia.
Qed.

(** All the passes that remain after the end of a pass. *)
Lemma steps_remaining_passes q : forall it,
  _animator it = Some (mkAnimator (n_frames (_image it)) (Z.of_nat (S q))) ->
  1 <= n_frames (_image it) ->
  exists fs it',
    steps (n_frames (_image it) * q) it = (inr fs, it')
    /\ length fs = n_frames (_image it) * q
    /\ _animator it' = Some (mkAnimator (n_frames (_image it)) 1%Z)
    /\ n_frames (_image it') = n_frames (_image it).
Proof.
  induction q as [|q IH]; intros it Ha HF.
  - exists [], it. rewrite Nat.mul_0_r. cbn [steps]. auto.
  - destruct (steps_further_pass it q Ha HF) as (it1 & Hs1 & Ha1 & Hf1).
    destruct (IH it1) as (fs2 & it2 & Hs2 & Hl2 & Ha2 & Hf2).
    { rewrite Hf1. exact Ha1. }
    { lia. }
    exists (seq 0 (n_frames (_image it)) ++ fs2), it2.
    rewrite Hf1 in *. repeat split; auto.
    + replace (n_frames (_image it) * S q)
        with (n_frames (_image it) + n_frames (_image it) * q) by lia.
      exact (steps_app _ _ _ _ _ _ _ Hs1 Hs2).
    + rewrite length_app, Hl2. rewrite length_seq. lia.
Qed.

(** C6.  An iterator over an image of [F] frames with repeat count [R], at
    least 1, gives [F * R] frames.  The step after them signals exhaustion,
    leaves the frame pointer of the image at 0 and the animator and the
    handle released; from there on every step signals exhaustion and changes
    nothing. *)
Theorem exhaustion_is_sticky im R format cached it :
  (1 <= R)%Z ->
  new_iterator im R format cached = inr it ->
  exists fs it1,
    steps (n_frames im * Z.to_nat R) it = (inr fs, it1)
    /\ length fs = n_frames im * Z.to_nat R
    /\ fst (next_ it1) = inl py.StopIteration
    /\ tell (_image (snd (next_ it1))) = 0
    /\ _animator (snd (next_ it1)) = None
    /\ _img (snd (next_ it1)) = None
    /\ next_ (snd (next_ it1)) = (inl py.StopIteration, snd (next_ it1)).
Proof.
  intros HR Hnew. unfold new_iterator in Hnew.
  destruct (Nat.leb_spec (n_frames im) 1) as [|HF]; [discriminate|].
  destruct (Z.eqb R 0); [discriminate|].
  inversion Hnew as [Hit]. clear Hnew.
  set (it0 := mkIterator im R format (if Z.eqb R 1 then false else cached)
                (Some (mkAnimator 0 R)) (Some 0)) in *.
  destruct (Z.to_nat R) as [|q] eqn:Eq; [lia|].
  assert (HRq : R = Z.of_nat (S q)) by lia.
  destruct (steps_rest_of_pass (n_frames im) 0 it0 R eq_refl eq_refl)
    as (ita & Hsa & Haa & Hfa & _).
  cbn [Nat.add _image it0] in *.
  destruct (steps_remaining_passes q ita) as (fs2 & itb & Hsb & Hlb & Hab & Hfb).
  { rewrite Hfa, Haa, HRq. reflexivity. }
  { lia. }
  rewrite Hfa in *.
  exists (seq 0 (n_frames im) ++ fs2), itb.
  assert (Hnext : next_ itb = (inl py.StopIteration, release itb)).
  { unfold next_. rewrite Hab. cbn [next_frame passes].
    rewrite Hfb, Nat.ltb_irrefl. reflexivity. }
  rewrite Hnext. cbn [fst snd].
  repeat split.
  - replace (n_frames im * S q) with (n_frames im + n_frames im * q) by lia.
    exact (steps_app _ _ _ _ _ _ _ Hsa Hsb).
  - rewrite length_app, Hlb. rewrite length_seq. lia.
Qed.

Lemma exhaustion_is_sticky_witness :
  exists fs it1,
    steps 6 (mkIterator (mkAnimated 3 0) 2 "1.1" true
               (Some (mkAnimator 0 2)) (Some 0)) = (inr fs, it1)
    /\ fst (next_ it1) = inl py.StopIteration
    /\ tell (_image (snd (next_ it1))) = 0.
Proof.
  destruct (exhaustion_is_sticky (mkAnimated 3 0) 2 "1.1" true _
              ltac:(lia) eq_refl)
    as (fs & it1 & H1 & _ & H2 & H3 & _).
  exists fs, it1. auto.
Defined.

End iterator_facts.

(** ** The directory scan: what it opens and what it returns *)

Module scan_facts.
Import os ospath os_ops data cli observe effects.

(** *** Calls and their frames *)

Lemma needs_enough {Py : py.interpreter} {A} o frames s (b : result A) :
  py.depth o <= frames -> needs o frames s b = b.
Proof.
  intros H. unfold needs. apply Nat.leb_le in H. rewrite H. reflexivity.
Qed.

Lemma needs_starved {Py : py.interpreter} {A} o frames s (b : result A) :
  frames < py.depth o -> needs o frames s b = Raise py.RecursionError s.
Proof.
  intros H. unfold needs. apply Nat.leb_gt in H. rewrite H. reflexivity.
Qed.

(** Settles whether the call [o] has its frames where [k] are free. *)
Tactic Notation "ask" constr(o) constr(k) "as" ident(H) :=
  destruct (Nat.le_gt_cases (py.depth o) k) as [H|H];
  [repeat rewrite (needs_enough o k _ _ H)
  |repeat rewrite (needs_starved o k _ _ H)].

(** Takes the tests of a frame count, the booleans and the answer of
    [os.getcwd()] in the goal apart. *)
Ltac branches :=
  repeat match goal with
         | |- context [if ?b then _ else _] => destruct b eqn:?
         | |- context [match getcwd ?fs ?s with _ => _ end] =>
             destruct (getcwd fs s) eqn:?
         end.

Lemma found_app a b : found (a ++ b) = found a || found b.
Proof. apply existsb_app. Qed.

Lemma own_app k a b : own k (a ++ b) = own k a ++ own k b.
Proof. apply filter_app. Qed.

Lemma own_below k l : Forall (below k) l -> own k l = [].
Proof.
  induction 1 as [|e l He _ IH]; [reflexivity|].
  unfold own in *. cbn [filter]. rewrite IH.
  destruct e; cbn in *; try reflexivity.
  destruct (Nat.eqb_spec frames k); [lia|reflexivity].
Qed.

Lemma below_weaken k k' l : k <= k' -> Forall (below k) l -> Forall (below k') l.
Proof.
  intros Hk. apply Forall_impl. intros e. destruct e; cbn; auto. lia.
Qed.

Lemma quiet_app a b : quiet (a ++ b) = quiet a && quiet b.
Proof.
  unfold quiet. rewrite existsb_app, negb_orb. reflexivity.
Qed.

Lemma dict_set_truthy k v d : dict_truthy (dict_set k v d) = true.
Proof.
  destruct d as [|[k' v'] d]; cbn; [reflexivity|].
  destruct (String.eqb k k'); reflexivity.
Qed.

(** *** The events of a scan *)

Lemma scan_try_ok {Py : py.interpreter} k rec fs entry s :
  scanner_ok k rec ->
  exists new,
    events (final (scan_try rec k fs entry s)) = new ++ events s
    /\ Forall (below k) new
    /\ forall t s', scan_try rec k fs entry s = Ret (Some t) s' ->
                    found new = true.
Proof.
  intros Hrec. unfold scan_try, needs. branches;
    try apply Hrec;
    exists []; (split; [reflexivity|]); (split; [constructor|]);
    intros; discriminate.
Qed.

(** One round of the loop. *)
Lemma scan_entry_ok {Py : py.interpreter} k rec fs cfg entry acc s :
  scanner_ok k rec ->
  exists new,
    events (ctl_state (scan_entry rec k fs cfg entry acc s)) = new ++ events s
    /\ Forall (below (S k)) new
    /\ (fst acc = false -> own k new = [])
    /\ (forall e rest, own k new = e :: rest -> rest = [])
    /\ match scan_entry rec k fs cfg entry acc s with
       | Next acc' _ =>
           (fst acc' = false <-> fst acc = false \/ found (own k new) = true)
           /\ (dict_truthy (snd acc') = true ->
               dict_truthy (snd acc) = true \/ found new = true)
       | Stop acc' _ => acc' = acc /\ own k new = []
       | Fail _ _ => True
       end.
Proof.
  intros Hrec. destruct acc as [empty content]. unfold scan_entry.
  assert (Hnone : forall c : ctl (bool * dict),
            ctl_state c = s ->
            match c with
            | Next acc' _ | Stop acc' _ => acc' = (empty, content)
            | Fail _ _ => True
            end ->
            exists new,
              events (ctl_state c) = new ++ events s
              /\ Forall (below (S k)) new
              /\ (fst (empty, content) = false -> own k new = [])
              /\ (forall e rest, own k new = e :: rest -> rest = [])
              /\ match c with
                 | Next acc' _ =>
                     (fst acc' = false
                      <-> fst (empty, content) = false
                          \/ found (own k new) = true)
                     /\ (dict_truthy (snd acc') = true ->
                         dict_truthy (snd (empty, content)) = true
                         \/ found new = true)
                 | Stop acc' _ => acc' = (empty, content) /\ own k new = []
                 | Fail _ _ => True
                 end).
  { intros c Hs Hc. exists []. rewrite Hs. split; [reflexivity|].
    split; [constructor|]. split; [reflexivity|]. split; [discriminate|].
    destruct c as [a ?|a ?|? ?]; auto. subst a. cbn.
    split; [|auto]. split; [auto|]. intros [H|H]; [exact H|discriminate]. }
  destruct (negb (Nat.leb (py.depth py.Startswith) k));
    [apply Hnone; [reflexivity|exact I]|].
  destruct (py.startswith entry "." && negb (_SHOW_HIDDEN cfg));
    [apply Hnone; reflexivity|].
  destruct (negb (Nat.leb (py.depth py.Isfile) k));
    [apply Hnone; [reflexivity|exact I]|].
  destruct (isfile fs s (Rel [entry])).
  - destruct empty; cbn [negb]; [|apply Hnone; reflexivity].
    unfold pil_open.
    set (ok := if Nat.leb (py.depth py.Open) k
               then match stat fs s (Rel [entry]) with
                    | Some (File image) => image
                    | _ => false
                    end
               else false).
    exists [Opened k (cwd s) entry ok]. cbn [ctl_state record events app].
    split; [reflexivity|]. split; [repeat constructor|].
    split; [discriminate|]. split.
    { intros e rest. cbn. rewrite Nat.eqb_refl. intros H. inversion H. auto. }
    unfold own. cbn [filter opened_at]. rewrite Nat.eqb_refl.
    cbn [fst snd found existsb is_success]. destruct ok; cbn.
    + split; [split; auto|auto].
    + split; [|auto]. split; [discriminate|].
      intros [H|H]; discriminate.
  - destruct (_RECURSIVE cfg); [|apply Hnone; reflexivity].
    destruct (scan_try_ok k rec fs entry s Hrec) as (new & Hev & Hbelow & Hv).
    assert (Hb' : Forall (below (S k)) new)
      by (eapply below_weaken; [|exact Hbelow]; lia).
    destruct (scan_try rec k fs entry s) as [r s'|e s']; cbn [final] in Hev.
    + exists new. cbn [ctl_state]. split; [exact Hev|]. split; [exact Hb'|].
      rewrite (own_below _ _ Hbelow).
      split; [reflexivity|]. split; [discriminate|].
      cbn [fst snd found existsb]. split.
      * split; [auto|]. intros [H|H]; [exact H|discriminate].
      * destruct r as [t|]; [|auto]. intros _. right. eapply Hv. reflexivity.
    + assert (Hfail : forall x,
                exists new0,
                  events (ctl_state (@Fail (bool * dict) x s'))
                  = new0 ++ events s
                  /\ Forall (below (S k)) new0
                  /\ (fst (empty, content) = false -> own k new0 = [])
                  /\ (forall e0 rest, own k new0 = e0 :: rest -> rest = [])
                  /\ True).
      { intros x. exists new. cbn [ctl_state]. split; [exact Hev|].
        split; [exact Hb'|]. rewrite (own_below _ _ Hbelow).
        split; [reflexivity|]. split; [discriminate|exact I]. }
      destruct e; try apply Hfail.
      unfold handle_too_deep.
      destruct (Nat.leb (py.depth py.Getcwd) k); [|apply Hfail].
      destruct (getcwd fs s'); [|apply Hfail].
      destruct (Nat.leb (py.depth py.Log) k); [|apply Hfail].
      exists (too_deep s' :: new). cbn [ctl_state record events app].
      rewrite Hev. split; [reflexivity|].
      split; [constructor; [exact I|exact Hb']|].
      assert (Hown : own k (too_deep s' :: new) = []).
      { unfold own. cbn [filter too_deep opened_at].
        apply (own_below _ _ Hbelow). }
      rewrite Hown. split; [reflexivity|]. split; [discriminate|].
      split; reflexivity.
Qed.

(** The loop. *)
Lemma scan_entries_ok {Py : py.interpreter} k rec fs cfg :
  scanner_ok k rec ->
  forall entries acc s,
  exists new,
    events (final (scan_entries rec k fs cfg entries acc s)) = new ++ events s
    /\ Forall (below (S k)) new
    /\ (fst acc = false -> own k new = [])
    /\ (forall e rest, own k new = e :: rest -> found rest = false)
    /\ match scan_entries rec k fs cfg entries acc s with
       | Ret acc' _ =>
           (fst acc' = false <-> fst acc = false \/ found (own k new) = true)
           /\ (dict_truthy (snd acc') = true ->
               dict_truthy (snd acc) = true \/ found new = true)
       | Raise _ _ => True
       end.
Proof.
  intros Hrec. induction entries as [|entry rest IH]; intros acc s.
  { exists []. cbn. split; [reflexivity|]. split; [constructor|].
    split; [reflexivity|]. split; [discriminate|].
    split; [|auto]. split; [auto|]. intros [H|H]; [exact H|discriminate]. }
  cbn [scan_entries].
  destruct (scan_entry_ok k rec fs cfg entry acc s Hrec)
    as (new1 & Hev1 & Hb1 & Hown1 & Hone1 & Hout1).
  destruct (scan_entry rec k fs cfg entry acc s) as [acc' s'|acc' s'|e s'];
    cbn [ctl_state] in Hev1.
  - destruct Hout1 as [Hempty1 Hdict1].
    destruct (IH acc' s') as (new2 & Hev2 & Hb2 & Hown2 & Hone2 & Hout2).
    exists (new2 ++ new1). rewrite Hev2, Hev1, app_assoc.
    split; [reflexivity|]. split; [apply Forall_app; auto|].
    split; [|split].
    + intros He. rewrite own_app, (Hown1 He), app_nil_r.
      apply Hown2. apply Hempty1. auto.
    + intros e tl. rewrite own_app.
      destruct (own k new1) as [|e1 tl1] eqn:E1.
      { rewrite app_nil_r. apply Hone2. }
      rewrite (Hone1 e1 tl1 eq_refl) in *.
      destruct (is_success e1) eqn:Es.
      * rewrite Hown2.
        2:{ apply Hempty1. right. cbn. rewrite Es. reflexivity. }
        cbn. intros H. inversion H. reflexivity.
      * destruct (own k new2) as [|e2 tl2] eqn:E2; cbn; intros H.
        { inversion H. reflexivity. }
        pose proof (Hone2 e2 tl2 eq_refl) as Htl2.
        injection H as _ <-. rewrite found_app, Htl2. cbn. rewrite Es.
        reflexivity.
    + destruct (scan_entries rec k fs cfg rest acc' s') as [acc'' s''|e s''];
        [|exact I].
      destruct Hout2 as [Hempty2 Hdict2]. split.
      * rewrite Hempty2, Hempty1, own_app, found_app.
        destruct (found (own k new2)), (found (own k new1)); cbn;
          intuition (try discriminate; auto).
      * intros Hd. destruct (Hdict2 Hd) as [H|H].
        -- destruct (Hdict1 H) as [H1|H1]; [auto|].
           right. rewrite found_app, H1. apply orb_true_r.
        -- right. rewrite found_app, H. reflexivity.
  - destruct Hout1 as [-> Hnone1]. exists new1. cbn [final].
    split; [exact Hev1|]. split; [exact Hb1|]. split; [exact Hown1|].
    split.
    + intros e tl H. rewrite (Hone1 e tl H). reflexivity.
    + rewrite Hnone1. split; [|auto]. split; [auto|].
      intros [H|H]; [exact H|discriminate].
  - exists new1. cbn [final].
    split; [exact Hev1|]. split; [exact Hb1|]. split; [exact Hown1|].
    split; [|exact I].
    intros e' tl H. rewrite (Hone1 e' tl H). reflexivity.
Qed.

Lemma chdir_events fs p s s' : chdir fs p s = Some s' -> events s' = events s.
Proof.
  unfold chdir. destruct (resolve fs s p); [|discriminate].
  destruct (get fs p0) as [[| [] ? ? | |]|]; try discriminate.
  intros H. inversion H. reflexivity.
Qed.

Lemma check_dir_S {Py : py.interpreter} k fs cfg dir prev s :
  check_dir (S k) fs cfg dir prev s
  = needs py.Chdir k s
      (match chdir fs dir s with
       | None =>
           needs py.Abspath k s
             (needs py.LogException k s
                (Ret None (record (could_not_access s dir) s)))
       | Some s1 =>
           needs py.Listdir k s1
             (match listdir fs s1 with
              | None =>
                  needs py.Abspath k s1
                    (needs py.LogException k s1
                       (needs py.Chdir k (record (could_not_list s1) s1)
                          (match chdir fs prev
                                   (record (could_not_list s1) s1) with
                           | Some s2 => Ret None s2
                           | None =>
                               Raise py.OSError
                                 (record (could_not_list s1) s1)
                           end)))
              | Some entries =>
                  bind (scan_entries (check_dir k fs cfg) k fs cfg entries
                          (true, []) s1)
                       (leave k fs prev)
              end)
       end).
Proof. reflexivity. Qed.

Lemma found_own k l : found (own k l) = true -> found l = true.
Proof.
  unfold found, own. rewrite !existsb_exists.
  intros (e & Hin & He). apply filter_In in Hin. exists e. tauto.
Qed.

(** The whole scan: its events, and what its outcome tells about them. *)
Lemma check_dir_events {Py : py.interpreter} fs cfg : forall n dir prev s,
  exists new,
    events (final (check_dir n fs cfg dir prev s)) = new ++ events s
    /\ Forall (below n) new
    /\ (forall t s', check_dir n fs cfg dir prev s = Ret (Some t) s' ->
                     found new = true)
    /\ (forall s', check_dir n fs cfg dir prev s = Ret None s' ->
                   found (own (pred n) new) = false)
    /\ (forall e rest, own (pred n) new = e :: rest -> found rest = false).
Proof.
  induction n as [|k IH]; intros dir prev s.
  { exists []. cbn. split; [reflexivity|]. split; [constructor|].
    repeat split; intros; discriminate. }
  assert (Hrec : scanner_ok k (check_dir k fs cfg)).
  { intros d p s0. destruct (IH d p s0) as (new & H1 & H2 & H3 & _). eauto. }
  assert (Hnil : forall r : result (option tree),
            events (final r) = events s ->
            (forall t s', r <> Ret (Some t) s') ->
            exists new,
              events (final r) = new ++ events s
              /\ Forall (below (S k)) new
              /\ (forall t s', r = Ret (Some t) s' -> found new = true)
              /\ (forall s', r = Ret None s' ->
                             found (own (pred (S k)) new) = false)
              /\ (forall e rest, own (pred (S k)) new = e :: rest ->
                                 found rest = false)).
  { intros r He Hr. exists []. split; [exact He|]. split; [constructor|].
    split; [intros t s' H; destruct (Hr t s' H)|].
    split; [reflexivity|discriminate]. }
  assert (Hlog : forall (r : result (option tree)) m,
            events (final r) = LogException m :: events s ->
            (forall t s', r <> Ret (Some t) s') ->
            exists new,
              events (final r) = new ++ events s
              /\ Forall (below (S k)) new
              /\ (forall t s', r = Ret (Some t) s' -> found new = true)
              /\ (forall s', r = Ret None s' ->
                             found (own (pred (S k)) new) = false)
              /\ (forall e rest, own (pred (S k)) new = e :: rest ->
                                 found rest = false)).
  { intros r m He Hr. exists [LogException m]. split; [exact He|].
    split; [constructor; [exact I|constructor]|].
    split; [intros t s' H; destruct (Hr t s' H)|].
    split; [reflexivity|discriminate]. }
  rewrite check_dir_S. ask py.Chdir k as Hchdir;
    [|apply Hnil; [reflexivity|discriminate]].
  destruct (chdir fs dir s) as [s1|] eqn:Ecd.
  2:{ ask py.Abspath k as Habs; [|apply Hnil; [reflexivity|discriminate]].
      ask py.LogException k as Hlogx;
        [|apply Hnil; [reflexivity|discriminate]].
      eapply Hlog; [reflexivity|discriminate]. }
  pose proof (chdir_events _ _ _ _ Ecd) as Hs1.
  ask py.Listdir k as Hlist; [|apply Hnil; [exact Hs1|discriminate]].
  destruct (listdir fs s1) as [entries|].
  2:{ ask py.Abspath k as Habs; [|apply Hnil; [exact Hs1|discriminate]].
      ask py.LogException k as Hlogx; [|apply Hnil; [exact Hs1|discriminate]].
      rewrite (needs_enough py.Chdir k _ _ Hchdir).
      destruct (chdir fs prev (record (could_not_list s1) s1)) as [s2|] eqn:E2.
      - eapply Hlog; [|discriminate]. cbn [final].
        rewrite (chdir_events _ _ _ _ E2). cbn [events record].
        rewrite Hs1. reflexivity.
      - eapply Hlog; [|discriminate]. cbn [final events record].
        rewrite Hs1. reflexivity. }
  destruct (scan_entries_ok k (check_dir k fs cfg) fs cfg Hrec entries
              (true, []) s1) as (new & Hev & Hb & _ & Hone & Hout).
  exists new. rewrite Hs1 in Hev. cbn [pred].
  destruct (scan_entries (check_dir k fs cfg) k fs cfg entries (true, []) s1)
    as [acc s2|e s2]; cbn [bind final] in *.
  2:{ split; [exact Hev|]. split; [exact Hb|].
      split; [discriminate|]. split; [discriminate|exact Hone]. }
  destruct Hout as [Hempty Hdict]. cbn [fst snd dict_truthy] in *.
  unfold leave. rewrite (needs_enough py.Chdir k _ _ Hchdir).
  destruct (chdir fs prev s2) as [s3|] eqn:E3; cbn [final].
  2:{ split; [exact Hev|]. split; [exact Hb|].
      split; [discriminate|]. split; [discriminate|exact Hone]. }
  rewrite (chdir_events _ _ _ _ E3).
  split; [exact Hev|]. split; [exact Hb|]. split; [|split; [|exact Hone]].
  - intros t s' H.
    destruct (fst acc) eqn:Ea.
    + destruct (dict_truthy (snd acc)) eqn:Ed; [|discriminate H].
      destruct (Hdict eq_refl) as [Hd|Hd]; [discriminate|exact Hd].
    + apply (found_own k). destruct (proj1 Hempty eq_refl) as [Hd|Hd];
        [discriminate|exact Hd].
  - intros s' H.
    destruct (found (own k new)) eqn:Ef; [|reflexivity].
    rewrite (proj2 Hempty (or_intror eq_refl)) in H. discriminate H.
Qed.

Lemma dict_set_in k v d key t :
  In (key, t) (dict_set k v d) -> (key, t) = (k, v) \/ In (key, t) d.
Proof.
  induction d as [|[k' v'] d IH]; cbn.
  - intros [H|[]]. left. symmetry. exact H.
  - destruct (String.eqb k k').
    + intros [H|H]; [left; symmetry; exact H|right; right; exact H].
    + intros [H|H]; [right; left; exact H|].
      destruct (IH H); [left|right; right]; assumption.
Qed.

(** *** The keys of the mapping *)

Lemma scan_try_some {Py : py.interpreter} rec k fs entry s r s' :
  scan_try rec k fs entry s = Ret (Some r) s' ->
  exists prev, rec (Rel [entry]) prev s = Ret (Some r) s'.
Proof.
  unfold scan_try, needs. branches; intros H; try discriminate H; eauto.
Qed.

Lemma visible_shown cfg entry :
  py.startswith entry "." && negb (_SHOW_HIDDEN cfg) = false ->
  visible cfg entry = true.
Proof. unfold visible. intros ->. reflexivity. Qed.

Lemma scan_entry_keys {Py : py.interpreter} rec k fs cfg entry acc s
  (P : name -> Prop) at_turn :
  P entry ->
  In (entry, s) at_turn ->
  (forall key t, In (key, t) (snd acc) ->
                 P key /\ from_subscan rec fs cfg at_turn key t) ->
  forall key t,
    In (key, t) (snd (ctl_acc (scan_entry rec k fs cfg entry acc s) acc)) ->
    P key /\ from_subscan rec fs cfg at_turn key t.
Proof.
  intros HP Hturn Hacc. destruct acc as [empty content]. unfold scan_entry.
  destruct (negb (Nat.leb (py.depth py.Startswith) k)); [exact Hacc|].
  destruct (py.startswith entry "." && negb (_SHOW_HIDDEN cfg)) eqn:Ehid;
    [exact Hacc|].
  destruct (negb (Nat.leb (py.depth py.Isfile) k)); [exact Hacc|].
  destruct (isfile fs s (Rel [entry])) eqn:Efile.
  - destruct empty; cbn [negb]; [|exact Hacc].
    destruct (pil_open k fs entry s) as [ok s']. exact Hacc.
  - destruct (_RECURSIVE cfg) eqn:Erec; [|exact Hacc].
    destruct (scan_try rec k fs entry s) as [r s'|e s'] eqn:Etry.
    + destruct r as [t0|]; [|exact Hacc].
      cbn [ctl_acc snd]. intros key t Hin.
      destruct (dict_set_in _ _ _ _ _ Hin) as [Heq|Hold]; [|auto].
      injection Heq as -> ->. split; [exact HP|].
      destruct (scan_try_some _ _ _ _ _ _ _ Etry) as [prev Hrec].
      unfold from_subscan. split; [exact Erec|].
      split; [apply visible_shown; exact Ehid|].
      exists s, s', prev. repeat split; assumption.
    + destruct e; try exact Hacc. unfold handle_too_deep.
      branches; exact Hacc.
Qed.

Lemma scan_entries_keys {Py : py.interpreter} rec k fs cfg
  (P : name -> Prop) at_turn :
  forall entries acc s acc' s',
  (forall e, In e entries -> P e) ->
  incl (turns rec k fs cfg entries acc s) at_turn ->
  (forall key t, In (key, t) (snd acc) ->
                 P key /\ from_subscan rec fs cfg at_turn key t) ->
  scan_entries rec k fs cfg entries acc s = Ret acc' s' ->
  forall key t, In (key, t) (snd acc') ->
                P key /\ from_subscan rec fs cfg at_turn key t.
Proof.
  induction entries as [|entry rest IH]; intros acc s acc' s' HP Hin Hacc Hrun.
  { cbn in Hrun. inversion Hrun; subst. exact Hacc. }
  cbn [scan_entries] in Hrun. cbn [turns] in Hin.
  pose proof (scan_entry_keys rec k fs cfg entry acc s P at_turn
                (HP entry (or_introl eq_refl))
                (Hin _ (or_introl eq_refl)) Hacc) as Hstep.
  destruct (scan_entry rec k fs cfg entry acc s) as [a1 s1|a1 s1|e s1];
    cbn [ctl_acc] in Hstep.
  - eapply IH; [| |exact Hstep|exact Hrun].
    + intros e He. apply HP. right. exact He.
    + intros x Hx. apply Hin. right. exact Hx.
  - inversion Hrun; subst. exact Hstep.
  - discriminate.
Qed.




(** How a call of [check_dir] returns: the directory could not be entered;
    or it could not be listed; or the loop ran and the directory was
    left. *)
Lemma check_dir_ret {Py : py.interpreter} k fs cfg dir prev s r s' :
  check_dir (S k) fs cfg dir prev s = Ret r s' ->
  (chdir fs dir s = None /\ r = None
   /\ s' = record (could_not_access s dir) s)
  \/ (exists s0,
        chdir fs dir s = Some s0 /\ listdir fs s0 = None /\ r = None
        /\ chdir fs prev (record (could_not_list s0) s0) = Some s')
  \/ (exists s0 entries acc s2,
        chdir fs dir s = Some s0 /\ listdir fs s0 = Some entries
        /\ scan_entries (check_dir k fs cfg) k fs cfg entries (true, []) s0
           = Ret acc s2
        /\ chdir fs prev s2 = Some s'
        /\ r = if fst acc && negb (dict_truthy (snd acc))
               then None else Some (Node (snd acc))).
Proof.
  rewrite check_dir_S. ask py.Chdir k as Hchdir; [|discriminate].
  destruct (chdir fs dir s) as [s0|] eqn:Hcd.
  2:{ ask py.Abspath k as Habs; [|discriminate].
      ask py.LogException k as Hlogx; [|discriminate].
      intros H. inversion H. left. repeat split; auto. }
  ask py.Listdir k as Hlist; [|discriminate].
  destruct (listdir fs s0) as [entries|] eqn:Hls.
  2:{ ask py.Abspath k as Habs; [|discriminate].
      ask py.LogException k as Hlogx; [|discriminate].
      rewrite (needs_enough py.Chdir k _ _ Hchdir).
      destruct (chdir fs prev (record (could_not_list s0) s0)) as [s2|] eqn:E;
        [|discriminate].
      intros H. inversion H; subst. right. left. exists s0.
      repeat split; auto. }
  destruct (scan_entries (check_dir k fs cfg) k fs cfg entries (true, []) s0)
    as [acc s2|e s2] eqn:Hloop; [|discriminate].
  cbn [bind]. unfold leave. rewrite (needs_enough py.Chdir k _ _ Hchdir).
  destruct (chdir fs prev s2) as [s3|] eqn:E; [|discriminate].
  intros H. inversion H; subst. right. right.
  exists s0, entries, acc, s2. repeat split; auto.
Qed.


(** What the answers of [os.path] depend on is where the process stands. *)
Lemma stat_cwd fs s s' p : cwd s = cwd s' -> stat fs s p = stat fs s' p.
Proof.
  intros H. unfold stat, resolve, base. destruct p; rewrite ?H; reflexivity.
Qed.




(** After a scan that was cut short has left the process below the scanned
    directory (C8), a name is looked up where the process stands: [/root/f]
    is a regular file, and [f] is a key all the same, for [/root/d/f]. *)
Lemma drifted_name_is_a_key :
  isfile demo.drift (mkState ["root"] [] false) (Rel ["f"]) = true
  /\ check_dir (Py := py.one_frame) 3 demo.drift (mkFlags true false)
       (Rel ["root"]) parent_dir demo.start
     = Ret (Some (Node [("f", Node [])]))
         (mkState ["root"]
            [Opened 1 ["root"; "d"; "f"] "y.png" true;
             Log (Some py.ERROR) "Too deep: '/root/d/e'"] false).
Proof. split; reflexivity. Qed.

(** C5, as stated, does not hold: after the error in the scan of [/d/e] the
    loop over [/d] does not go on with the entries that follow [e]. *)
Lemma siblings_not_scanned_after_too_deep :
  ~ (forall (Py : py.interpreter) rec k fs cfg (entry : name) rest acc s s',
        py.startswith entry "." && negb (_SHOW_HIDDEN cfg) = false ->
        isfile fs s (Rel [entry]) = false ->
        _RECURSIVE cfg = true ->
        scan_try rec (S k) fs entry s = Raise py.RecursionError s' ->
        scan_entries rec (S k) fs cfg (entry :: rest) acc s
        = scan_entries rec (S k) fs cfg rest acc (record (too_deep s') s')).
Proof.
  intros H.
  specialize (H py.one_frame
                (check_dir (Py := py.one_frame) 1 demo.deep
                   (mkFlags true false)) 0 demo.deep
                (mkFlags true false) "e" ["x.png"; "f"] (true, [])
                (mkState ["d"] [] false) _ eq_refl eq_refl eq_refl eq_refl).
  vm_compute in H. discriminate H.
Qed.

(** C5, amended.  When the scan of an entry raises a recursion-depth error,
    in an activation that has the frames for its own calls, the error is
    logged and the loop over the directory ends there: the entry adds
    nothing to the mapping, the entries after it are not looked at, and
    [check_dir] goes on to leave the directory and return.  (Were the
    working directory no longer there, [os.getcwd()] in the handler would
    raise its [OSError] instead.) *)
Theorem too_deep_ends_the_directory {Py : py.interpreter} rec frames fs cfg
  (entry : name) rest acc s s' prev :
  has_frames frames ->
  py.startswith entry "." && negb (_SHOW_HIDDEN cfg) = false ->
  isfile fs s (Rel [entry]) = false ->
  _RECURSIVE cfg = true ->
  scan_try rec frames fs entry s = Raise py.RecursionError s' ->
  match getcwd fs s' with
  | Some _ =>
      scan_entries rec frames fs cfg (entry :: rest) acc s
      = Ret acc (record (too_deep s') s')
      /\ bind (scan_entries rec frames fs cfg (entry :: rest) acc s)
              (leave frames fs prev)
         = leave frames fs prev acc (record (too_deep s') s')
  | None =>
      scan_entries rec frames fs cfg (entry :: rest) acc s
      = Raise py.OSError s'
  end.
Proof.
  intros Hframes Hvis Hfile Hrec Htry.
  assert (Hround : scan_entry rec frames fs cfg entry acc s
                   = handle_too_deep frames fs acc s').
  { unfold scan_entry. destruct acc as [empty content].
    rewrite (proj2 (Nat.leb_le _ _) (Hframes py.Startswith)).
    rewrite (proj2 (Nat.leb_le _ _) (Hframes py.Isfile)).
    cbn [negb]. rewrite Hvis, Hfile, Hrec, Htry. reflexivity. }
  cbn [scan_entries]. rewrite Hround. unfold handle_too_deep.
  rewrite (proj2 (Nat.leb_le _ _) (Hframes py.Getcwd)).
  rewrite (proj2 (Nat.leb_le _ _) (Hframes py.Log)).
  destruct (getcwd fs s'); [|reflexivity].
  split; reflexivity.
Qed.

Lemma too_deep_ends_the_directory_witness :
  scan_entries (Py := py.one_frame)
    (check_dir (Py := py.one_frame) 1 demo.deep (mkFlags true false)) 1
    demo.deep (mkFlags true false) ["e"; "x.png"; "f"] (true, [])
    (mkState ["d"] [] false)
  = Ret (true, [])
      (mkState ["d"; "e"] [Log (Some py.ERROR) "Too deep: '/d/e'"] false).
Proof.
  refine (proj1 (too_deep_ends_the_directory (Py := py.one_frame)
                   (check_dir (Py := py.one_frame) 1 demo.deep
                      (mkFlags true false)) 1 demo.deep
                   (mkFlags true false) "e" ["x.png"; "f"] (true, [])
                   (mkState ["d"] [] false) (mkState ["d"; "e"] [] false)
                   parent_dir _ eq_refl eq_refl eq_refl eq_refl)).
  intros o. destruct o; cbn; lia.
Defined.

(** C8 at a failing input: [check_dir("d")], called in [/] with the default
    [prev_dir], runs out of frames inside [/d/e]; it returns with [/d] as the
    working directory, not with [/], the parent of [d].  So it is where a
    helper written in Python takes one frame and the call has two; and so it
    is where the predicates of [os.path] take a second frame and the call
    has three. *)
Theorem cwd_after_too_deep :
  chdir demo.deep (Rel ["d"]) demo.start = Some (mkState ["d"] [] false)
  /\ check_dir (Py := py.one_frame) 2 demo.deep (mkFlags true false)
       (Rel ["d"]) parent_dir demo.start
     = Ret None (mkState ["d"] [Log (Some py.ERROR) "Too deep: '/d/e'"] false)
  /\ resolve demo.deep (mkState ["d"] [] false) parent_dir = Some []
  /\ check_dir (Py := py.nested_stat) 3 demo.deep (mkFlags true false)
       (Rel ["d"]) parent_dir demo.start
     = Ret None (mkState ["d"] [Log (Some py.ERROR) "Too deep: '/d/e'"] false).
Proof.
  repeat split.
Qed.

(** With an absolute [prev_dir], as [main] and the scan of a link give it, a
    scan that entered its directory and returns leaves the process where
    [prev_dir] resolves to. *)
Lemma absolute_prev_dir_is_restored {Py : py.interpreter} fs cfg n dir p s s0
  r s' :
  chdir fs dir s = Some s0 ->
  check_dir n fs cfg dir (Abs p) s = Ret r s' ->
  walk MAXSYMLINKS fs [] p = Some (cwd s').
Proof.
  intros Hcd Hrun. destruct n as [|k]; [discriminate|].
  assert (Hleave : forall s1 s2, chdir fs (Abs p) s1 = Some s2 ->
                                 walk MAXSYMLINKS fs [] p = Some (cwd s2)).
  { intros s1 s2. unfold chdir, resolve. cbn [base].
    destruct (walk MAXSYMLINKS fs [] p) as [q|]; [|discriminate].
    destruct (get fs q) as [[| [] ? ? | |]|]; try discriminate.
    intros H. inversion H. reflexivity. }
  destruct (check_dir_ret _ _ _ _ _ _ _ _ Hrun)
    as [(Hcd' & _)|[(s1 & _ & _ & _ & Hback)
                   |(s1 & entries & acc & s2 & _ & _ & _ & Hback & _)]].
  - congruence.
  - eapply Hleave. exact Hback.
  - eapply Hleave. exact Hback.
Qed.

(** *** Walking the file system *)

Lemma prefix_app_same x : forall y z,
  String.prefix (x ++ y) (x ++ z) = String.prefix y z.
Proof.
  induction x as [|c x IH]; intros y z; [reflexivity|].
  cbn. destruct (ascii_dec c c) as [_|Hne]; [apply IH|].
  exfalso. apply Hne. reflexivity.
Qed.

Lemma prefix_empty z : String.prefix "" z = true.
Proof. destruct z; reflexivity. Qed.

Lemma ancestor_joined p : forall q,
  is_ancestor p q = true ->
  String.prefix (join_components p) (join_components q) = true.
Proof.
  induction p as [|a p IH]; intros q H; [apply prefix_empty|].
  destruct q as [|b q]; [discriminate|].
  cbn in H. apply andb_prop in H. destruct H as [Hab Hpq].
  apply String.eqb_eq in Hab. subst b.
  cbn [join_components String.append String.prefix]. destruct (ascii_dec "/" "/") as [_|Hne].
  - rewrite prefix_app_same. apply IH. exact Hpq.
  - exfalso. apply Hne. reflexivity.
Qed.

(** The text of a directory starts with the text of each directory above
    it. *)
Lemma ancestor_startswith p q :
  is_ancestor p q = true ->
  py.startswith (path_text q) (path_text p) = true.
Proof.
  intros H. unfold py.startswith, path_text.
  destruct p as [|a p].
  - destruct q as [|b q]; [reflexivity|].
    cbn [join_components String.append String.prefix].
    destruct (ascii_dec "/" "/") as [_|Hne]; [apply prefix_empty|].
    exfalso. apply Hne. reflexivity.
  - destruct q as [|b q]; [discriminate|].
    apply ancestor_joined. exact H.
Qed.

Lemma get_snoc : forall p fs e l es n,
  get fs p = Some (Dir e l es) ->
  get fs (p ++ [n]) = find_entry n es.
Proof.
  induction p as [|a p IH]; intros fs e l es n H.
  - cbn in H. inversion H; subst. cbn.
    destruct (find_entry n es); reflexivity.
  - cbn in *. destruct fs as [|e0 l0 es0| |]; try discriminate.
    destruct (find_entry a es0) as [c|]; [|discriminate].
    eapply IH. exact H.
Qed.

Lemma walk_nil h fs cur :
  walk h fs cur [] = match get fs cur with Some _ => Some cur | None => None end.
Proof. destruct h; reflexivity. Qed.

Lemma walk_cons h fs cur n rest :
  walk h fs cur (n :: rest)
  = match get fs cur with
    | Some (Dir _ _ es) =>
        if String.eqb n ".." then walk h fs (removelast cur) rest
        else if String.eqb n "." then walk h fs cur rest
        else
          match find_entry n es with
          | Some (Link t) =>
              match h with
              | 0 => None
              | S h' => walk h' fs [] (t ++ rest)
              end
          | Some _ => walk h fs (cur ++ [n]) rest
          | None => None
          end
    | _ => None
    end.
Proof. destruct h; reflexivity. Qed.

Lemma plain_name_not_dots n :
  plain_name n = true -> String.eqb n ".." = false /\ String.eqb n "." = false.
Proof.
  unfold plain_name. intros H. apply andb_prop in H. destruct H as [H1 H2].
  split; [destruct (String.eqb n ".."); [discriminate|reflexivity]|].
  destruct (String.eqb n "."); [discriminate|reflexivity].
Qed.

(** Where a name of the working directory leads. *)
Lemma resolve_entry fs s e l es n :
  get fs (cwd s) = Some (Dir e l es) ->
  plain_name n = true ->
  resolve fs s (Rel [n])
  = match find_entry n es with
    | Some (Link t) => walk (pred MAXSYMLINKS) fs [] t
    | Some _ => Some (cwd s ++ [n])
    | None => None
    end.
Proof.
  intros Hget Hn. destruct (plain_name_not_dots n Hn) as [H1 H2].
  unfold resolve. cbn [base]. rewrite walk_cons, Hget, H1, H2.
  pose proof (get_snoc _ _ _ _ _ n Hget) as Hsnoc.
  destruct (find_entry n es) as [c|]; [|reflexivity].
  assert (Hhere : walk MAXSYMLINKS fs (cwd s ++ [n]) [] = Some (cwd s ++ [n])).
  { rewrite walk_nil, Hsnoc. reflexivity. }
  destruct c; try exact Hhere.
  unfold MAXSYMLINKS. cbn [pred]. rewrite app_nil_r. reflexivity.
Qed.

Lemma stat_entry fs s e l es n :
  get fs (cwd s) = Some (Dir e l es) ->
  plain_name n = true ->
  stat fs s (Rel [n])
  = match find_entry n es with
    | Some (Link t) =>
        match walk (pred MAXSYMLINKS) fs [] t with
        | Some q => get fs q
        | None => None
        end
    | Some c => Some c
    | None => None
    end.
Proof.
  intros Hget Hn. unfold stat. rewrite (resolve_entry _ _ _ _ _ _ Hget Hn).
  pose proof (get_snoc _ _ _ _ _ n Hget) as Hsnoc.
  destruct (find_entry n es) as [c|]; [|reflexivity].
  destruct c; try exact Hsnoc. reflexivity.
Qed.

Lemma lstat_entry fs s e l es n :
  get fs (cwd s) = Some (Dir e l es) ->
  plain_name n = true ->
  lstat fs s (Rel [n]) = find_entry n es.
Proof.
  intros Hget Hn. destruct (plain_name_not_dots n Hn) as [H1 H2].
  unfold lstat. cbn [base rev app]. rewrite H1, H2. cbn [orb].
  rewrite walk_nil, Hget, Hget. reflexivity.
Qed.

(** Back to the parent of the working directory. *)
Lemma chdir_parent fs s p n e l es d s' :
  cwd s = p ++ [n] ->
  get fs (p ++ [n]) = Some (Dir e l es) ->
  get fs p = Some d ->
  chdir fs (Rel [".."]) s = Some s' ->
  cwd s' = p.
Proof.
  intros Hcwd Hhere Hup. unfold chdir, resolve. cbn [base].
  rewrite walk_cons, Hcwd, Hhere. cbn [String.eqb Ascii.eqb Bool.eqb].
  rewrite removelast_last, walk_nil, Hup. rewrite Hup.
  destruct d as [| [] ? ? | |]; try discriminate.
  intros H. inversion H. reflexivity.
Qed.

(** A directory above a directory is a directory. *)
Lemma ancestor_is_dir : forall q p fs e l es,
  is_ancestor q p = true ->
  get fs p = Some (Dir e l es) ->
  exists e' l' es', get fs q = Some (Dir e' l' es').
Proof.
  induction q as [|a q IH]; intros p fs e l es Hanc Hget.
  - destruct p as [|b p]; cbn in Hget.
    + inversion Hget. cbn. eauto.
    + destruct fs as [|e0 l0 es0| |]; try discriminate. cbn. eauto.
  - destruct p as [|b p]; [discriminate|].
    cbn in Hanc. apply andb_prop in Hanc. destruct Hanc as [Hab Hqp].
    apply String.eqb_eq in Hab. subst b. cbn in *.
    destruct fs as [|e0 l0 es0| |]; try discriminate.
    destruct (find_entry a es0) as [c|]; [|discriminate].
    eapply IH; eauto.
Qed.

(** *** Trees whose links to directories are all cyclic *)

Lemma entry_of_tame fs p e l es : forall n c,
  only_cyclic_links fs p (Dir e l es) = true ->
  find_entry n es = Some c ->
  plain_name n = true
  /\ match c with
     | Link t => harmless_link fs p t = true
     | _ => only_cyclic_links fs (p ++ [n]) c = true
     end.
Proof.
  intros n c. cbn [only_cyclic_links].
  induction es as [|[m c0] es IH]; [discriminate|].
  intros Htame Hfind. apply andb_prop in Htame. destruct Htame as [Hhead Hrest].
  apply andb_prop in Hhead. destruct Hhead as [Hname Hnode].
  cbn [find_entry] in Hfind. destruct (String.eqb_spec n m) as [->|Hne].
  - inversion Hfind; subst. split; [exact Hname|].
    destruct c; exact Hnode.
  - apply IH; assumption.
Qed.

Lemma entry_lower e l es : forall n c,
  find_entry n es = Some c -> height c < height (Dir e l es).
Proof.
  intros n c. cbn [height].
  induction es as [|[m c0] es IH]; [discriminate|].
  cbn [find_entry]. destruct (String.eqb n m).
  - intros H. inversion H; subst. lia.
  - intros H. specialize (IH H). lia.
Qed.

Lemma listed_is_entry (es : list (name * node)) n :
  In n (map fst es) -> exists c, find_entry n es = Some c.
Proof.
  induction es as [|[m c0] es IH]; [intros []|].
  cbn. destruct (String.eqb_spec n m) as [->|Hne]; [eauto|].
  intros [H|H]; [congruence|auto].
Qed.

Lemma listed_plain fs s entries e :
  listdir fs s = Some entries -> In e entries -> plain_name e = true.
Proof.
  unfold listdir. destruct (get fs (cwd s)) as [[| ? [] es | |]|];
    try discriminate.
  intros H Hin. inversion H; subst. apply filter_In in Hin. apply Hin.
Qed.

(** *** The scan without its frames *)

Lemma chdir_target fs dir s :
  chdir fs dir s
  = match target fs (cwd s) dir with
    | Some q => Some (set_cwd q s)
    | None => None
    end.
Proof.
  unfold target, chdir.
  change (resolve fs (at_ (cwd s)) dir) with (resolve fs s dir).
  destruct (resolve fs s dir) as [q|]; [|reflexivity].
  destruct (get fs q) as [[| [] ? ? | |]|]; reflexivity.
Qed.

Lemma target_dir fs p dir q :
  target fs p dir = Some q -> exists l es, get fs q = Some (Dir true l es).
Proof.
  unfold target, chdir. destruct (resolve fs (at_ p) dir) as [q'|];
    [|discriminate].
  destruct (get fs q') as [[| [] l es | |]|] eqn:E; try discriminate.
  intros H. inversion H; subst. eauto.
Qed.

(** A name that is no link leads into the directory below. *)
Lemma target_entry fs p e0 l es (e : name) q :
  get fs p = Some (Dir e0 l es) ->
  plain_name e = true ->
  islink fs (at_ p) (Rel [e]) = false ->
  target fs p (Rel [e]) = Some q ->
  q = p ++ [e].
Proof.
  intros Hget Hplain Hlink. unfold target, chdir.
  rewrite (resolve_entry fs (at_ p) e0 l es e Hget Hplain).
  unfold islink in Hlink.
  rewrite (lstat_entry fs (at_ p) e0 l es e Hget Hplain) in Hlink.
  destruct (find_entry e es) as [[| | |]|]; try discriminate;
    cbn [cwd at_];
    destruct (get fs (p ++ [e])) as [[| [] ? ? | |]|]; try discriminate;
    intros H; inversion H; reflexivity.
Qed.

(** Back to the parent of a directory. *)
Lemma target_parent fs p (e : name) e1 l1 es1 l es :
  get fs (p ++ [e]) = Some (Dir e1 l1 es1) ->
  get fs p = Some (Dir true l es) ->
  target fs (p ++ [e]) (Rel [".."]) = Some p.
Proof.
  intros Hhere Hup. unfold target, chdir, resolve. cbn [base cwd at_].
  rewrite walk_cons, Hhere. cbn [String.eqb Ascii.eqb Bool.eqb].
  rewrite removelast_last, walk_nil, Hup. rewrite Hup. reflexivity.
Qed.

(** Back to a directory that is known by its own path. *)
Lemma target_home fs p q l es :
  home fs p = true ->
  get fs p = Some (Dir true l es) ->
  target fs q (Abs p) = Some p.
Proof.
  unfold home, target, chdir, resolve. cbn [base].
  destruct (walk MAXSYMLINKS fs [] p) as [p'|]; [|discriminate].
  destruct (list_eq_dec string_dec p' p) as [->|]; [|discriminate].
  intros _ Hget. rewrite Hget. reflexivity.
Qed.

Lemma reach_no_target m cfg fs p dir :
  target fs p dir = None -> reach m cfg fs p dir = false.
Proof.
  intros H. destruct m; [reflexivity|]. cbn [reach]. rewrite H. reflexivity.
Qed.


(** Every call has its frames. *)
Ltac enough_frames Hk :=
  repeat match goal with
         | |- context [needs ?o ?k ?s0 ?b] =>
             rewrite (needs_enough o k s0 b (Hk o))
         end.

Lemma entered_spec cfg fs p (e : name) :
  visible cfg e = true ->
  isfile fs (at_ p) (Rel [e]) = false ->
  _RECURSIVE cfg = true ->
  entered cfg fs p e
  = if islink fs (at_ p) (Rel [e]) then link_followed fs (at_ p) e
    else isdir fs (at_ p) (Rel [e]).
Proof. intros Hv Hf Hr. unfold entered. rewrite Hv, Hf, Hr. reflexivity. Qed.

Lemma getcwd_there fs s d :
  get fs (cwd s) = Some d -> getcwd fs s = Some (path_text (cwd s)).
Proof. intros H. unfold getcwd. rewrite H. reflexivity. Qed.

(** One round of the loop where the scans nest [m] deep at most. *)
Lemma bounded_round {Py : py.interpreter} cfg fs m rec k l es (e : name) acc
  s :
  has_frames k ->
  scans_within cfg fs m rec ->
  get fs (cwd s) = Some (Dir true l es) ->
  plain_name e = true ->
  tame_entry m cfg fs (cwd s) e = true ->
  exists acc' s' new,
    scan_entry rec k fs cfg e acc s = Next acc' s'
    /\ cwd s' = cwd s
    /\ events s' = new ++ events s
    /\ quiet new = true
    /\ nothing_yet acc' = nothing_yet acc && negb (hit m cfg fs (cwd s) e)
    /\ (forall key t,
          In (key, t) (snd acc') ->
          In (key, t) (snd acc) \/ key_followed fs (cwd s) key t).
Proof.
  intros Hk Hrec Hget Hplain Htame.
  assert (Hleb : forall o, Nat.leb (py.depth o) k = true).
  { intros o. apply Nat.leb_le. apply Hk. }
  assert (Hsame : forall (a : bool * dict),
            exists acc' s' new,
              Next a s = Next acc' s' /\ cwd s' = cwd s
              /\ events s' = new ++ events s /\ quiet new = true
              /\ nothing_yet acc' = nothing_yet a
              /\ (forall key t,
                    In (key, t) (snd acc') ->
                    In (key, t) (snd a) \/ key_followed fs (cwd s) key t)).
  { intros a. exists a, s, []. repeat split; auto. }
  destruct acc as [empty content].
  unfold scan_entry. rewrite !Hleb. cbn [negb].
  unfold hit.
  destruct (visible cfg e) eqn:Hvis.
  2:{ unfold visible in Hvis. apply negb_false_iff in Hvis. rewrite Hvis.
      cbn [andb negb]. rewrite andb_true_r. apply Hsame. }
  pose proof Hvis as Hvis'. unfold visible in Hvis'.
  apply negb_true_iff in Hvis'. rewrite Hvis'. cbn [andb].
  change (isfile fs (at_ (cwd s)) (Rel [e])) with (isfile fs s (Rel [e])).
  destruct (isfile fs s (Rel [e])) eqn:Hfile.
  - destruct empty; cbn [negb].
    + unfold pil_open. rewrite Hleb.
      change (readable_image fs (at_ (cwd s)) e)
        with (match stat fs s (Rel [e]) with
              | Some (File image) => image
              | _ => false
              end).
      set (ok := match stat fs s (Rel [e]) with
                 | Some (File image) => image
                 | _ => false
                 end).
      exists (if ok then false else true, content),
        (record (Opened k (cwd s) e ok) s), [Opened k (cwd s) e ok].
      repeat split; auto.
      destruct ok; unfold nothing_yet; cbn [fst snd negb andb];
        rewrite ?andb_true_r, ?andb_false_r; reflexivity.
    + destruct (Hsame (false, content))
        as (acc' & s' & new & H1 & H2 & H3 & H4 & H5 & H6).
      exists acc', s', new. repeat split; auto.
  - destruct (_RECURSIVE cfg) eqn:Hrecur.
    2:{ assert (Hent : entered cfg fs (cwd s) e = false).
        { unfold entered. rewrite Hrecur, andb_false_r. reflexivity. }
        rewrite Hent. cbn [andb negb]. rewrite andb_true_r. apply Hsame. }
    rewrite (entered_spec cfg fs (cwd s) e Hvis Hfile Hrecur).
    unfold tame_entry in Htame.
    rewrite (entered_spec cfg fs (cwd s) e Hvis Hfile Hrecur) in Htame.
    change (islink fs (at_ (cwd s)) (Rel [e])) with (islink fs s (Rel [e]))
      in *.
    change (isdir fs (at_ (cwd s)) (Rel [e])) with (isdir fs s (Rel [e]))
      in *.
    change (link_followed fs (at_ (cwd s)) e) with (link_followed fs s e)
      in *.
    assert (Hnone : forall (rest : bool) (res : result (option tree)),
              res = Ret None s ->
              rest = false ->
              exists acc' s' new,
                match res with
                | Raise py.RecursionError s' =>
                    handle_too_deep k fs (empty, content) s'
                | Raise e0 s' => Fail e0 s'
                | Ret r s' =>
                    Next (empty,
                          match r with
                          | Some t => dict_set e t content
                          | None => content
                          end) s'
                end = Next acc' s'
                /\ cwd s' = cwd s
                /\ events s' = new ++ events s
                /\ quiet new = true
                /\ nothing_yet acc'
                   = nothing_yet (empty, content) && negb rest
                /\ (forall key t,
                      In (key, t) (snd acc') ->
                      In (key, t) (snd (empty, content))
                      \/ key_followed fs (cwd s) key t)).
    { intros rest res -> ->. cbn [negb]. rewrite andb_true_r.
      apply (Hsame (empty, content)). }
    assert (Hcall : forall prev (res : result (option tree)),
              (if islink fs s (Rel [e]) then link_followed fs s e
               else isdir fs s (Rel [e])) = true ->
              calls_bounded m cfg fs (cwd s) (Rel [e]) = true ->
              (forall q, target fs (cwd s) (Rel [e]) = Some q ->
                         target fs q prev = Some (cwd s)) ->
              res = rec (Rel [e]) prev s ->
              exists acc' s' new,
                match res with
                | Raise py.RecursionError s' =>
                    handle_too_deep k fs (empty, content) s'
                | Raise e0 s' => Fail e0 s'
                | Ret r s' =>
                    Next (empty,
                          match r with
                          | Some t => dict_set e t content
                          | None => content
                          end) s'
                end = Next acc' s'
                /\ cwd s' = cwd s
                /\ events s' = new ++ events s
                /\ quiet new = true
                /\ nothing_yet acc'
                   = nothing_yet (empty, content)
                     && negb (true && reach m cfg fs (cwd s) (Rel [e]))
                /\ (forall key t,
                      In (key, t) (snd acc') ->
                      In (key, t) (snd (empty, content))
                      \/ key_followed fs (cwd s) key t)).
    { intros prev res Hcond Hbound Hback ->.
      destruct (Hrec (Rel [e]) prev s Hbound) as (new & Hev & Hq & Hout).
      destruct (target fs (cwd s) (Rel [e])) as [q|] eqn:Htarget.
      - rewrite (Hback q eq_refl) in Hout.
        destruct Hout as (r & s' & Hrun & Hcwd & Hiff & Hkeys).
        rewrite Hrun in *. cbn [final] in Hev.
        eexists _, s', new. split; [reflexivity|].
        split; [exact Hcwd|]. split; [exact Hev|]. split; [exact Hq|].
        cbn [andb]. destruct r as [t|].
        + split.
          * destruct (reach m cfg fs (cwd s) (Rel [e])) eqn:Hreach.
            -- unfold nothing_yet. cbn [fst snd negb].
               rewrite dict_set_truthy, !andb_false_r. reflexivity.
            -- destruct Hiff as [_ Hiff]. discriminate (Hiff eq_refl).
          * cbn [snd]. intros key t' Hin.
            destruct (dict_set_in _ _ _ _ _ Hin) as [Heq|Hold]; [|auto].
            inversion Heq; subst. right. split; [exact Hcond|].
            exists q. split; [exact Htarget|]. apply Hkeys. reflexivity.
        + split; [|auto].
          rewrite (proj1 Hiff eq_refl). cbn [negb].
          rewrite andb_true_r. reflexivity.
      - destruct Hout as (s' & Hrun & Hcwd).
        rewrite Hrun in *. cbn [final] in Hev.
        eexists _, s', new. split; [reflexivity|].
        split; [exact Hcwd|]. split; [exact Hev|]. split; [exact Hq|].
        split; [|auto].
        rewrite (reach_no_target m cfg fs _ _ Htarget). cbn [andb negb].
        rewrite andb_true_r. reflexivity. }
    unfold scan_try. rewrite (getcwd_there fs s _ Hget).
    enough_frames Hk.
    destruct (islink fs s (Rel [e])) eqn:Hlink.
    + unfold link_followed in Hcall, Htame |- *.
      destruct (exists_ fs s (Rel [e])) eqn:Hex;
        [|apply (Hnone _ (Ret None s) eq_refl); reflexivity].
      cbn [andb] in Hcall, Htame |- *.
      destruct (py.startswith (path_text (cwd s))
                  (path_text (realpath fs s (Rel [e])))) eqn:Hstart;
        [apply (Hnone _ (Ret None s) eq_refl); reflexivity|].
      cbn [negb orb andb] in Htame, Hcall |- *.
      apply andb_prop in Htame. destruct Htame as [Hhome Hbound].
      apply (Hcall (Abs (cwd s)) _ eq_refl Hbound); [|reflexivity].
      intros q _. eapply target_home; eassumption.
    + destruct (isdir fs s (Rel [e])) eqn:Hdir;
        [|apply (Hnone _ (Ret None s) eq_refl); reflexivity].
      cbn [negb orb andb] in Htame.
      apply (Hcall (Rel [".."]) _ eq_refl Htame); [|reflexivity].
      intros q Hq.
      pose proof (target_entry fs (cwd s) _ _ _ e q Hget Hplain Hlink Hq)
        as ->.
      destruct (target_dir _ _ _ _ Hq) as (l' & es' & Hget').
      eapply target_parent; eassumption.
Qed.

(** The loop where the scans nest [m] deep at most: it comes to its end in
    the directory it started in. *)
Lemma bounded_loop {Py : py.interpreter} cfg fs m rec k q l es :
  has_frames k ->
  scans_within cfg fs m rec ->
  get fs q = Some (Dir true l es) ->
  forall entries acc s,
    cwd s = q ->
    (forall e, In e entries -> plain_name e = true) ->
    forallb (tame_entry m cfg fs q) entries = true ->
    exists acc' s' new,
      scan_entries rec k fs cfg entries acc s = Ret acc' s'
      /\ cwd s' = q
      /\ events s' = new ++ events s
      /\ quiet new = true
      /\ nothing_yet acc'
         = nothing_yet acc && negb (existsb (hit m cfg fs q) entries)
      /\ (forall key t,
            In (key, t) (snd acc') ->
            In (key, t) (snd acc) \/ key_followed fs q key t).
Proof.
  intros Hk Hrec Hget.
  induction entries as [|e rest IH]; intros acc s Hcwd Hplain Htame.
  - exists acc, s, []. cbn [existsb negb]. rewrite andb_true_r.
    repeat split; auto.
  - cbn [forallb] in Htame. apply andb_prop in Htame.
    destruct Htame as [He Hrest]. subst q.
    destruct (bounded_round cfg fs m rec k l es e acc s Hk Hrec Hget
                (Hplain e (or_introl eq_refl)) He)
      as (acc1 & s1 & new1 & Hround & Hcwd1 & Hev1 & Hq1 & Hyet1 & Hkeys1).
    destruct (IH acc1 s1 Hcwd1 (fun x Hx => Hplain x (or_intror Hx)) Hrest)
      as (acc2 & s2 & new2 & Hloop & Hcwd2 & Hev2 & Hq2 & Hyet2 & Hkeys2).
    exists acc2, s2, (new2 ++ new1).
    cbn [scan_entries]. rewrite Hround.
    split; [exact Hloop|]. split; [exact Hcwd2|].
    split; [rewrite Hev2, Hev1; apply app_assoc|].
    split; [rewrite quiet_app, Hq1, Hq2; reflexivity|].
    split.
    + rewrite Hyet2, Hyet1. cbn [existsb]. rewrite negb_orb.
      symmetry. apply andb_assoc.
    + intros key t Hin. destruct (Hkeys2 key t Hin) as [Hold|Hnew]; auto.
Qed.

Lemma keys_followed_intro fs q : forall content,
  (forall key t, In (key, t) content -> key_followed fs q key t) ->
  keys_followed fs q (Node content) = true.
Proof.
  cbn [keys_followed].
  induction content as [|[k t] content IH]; intros H; [reflexivity|].
  destruct (H k t (or_introl eq_refl)) as (Hcond & q' & Htarget & Hkeys).
  rewrite Hcond, Htarget, Hkeys. cbn [andb].
  apply IH. intros key t' Hin. apply H. right. exact Hin.
Qed.

Lemma reach_S m cfg fs p dir :
  reach (S m) cfg fs p dir
  = match target fs p dir with
    | None => false
    | Some q =>
        match listdir fs (at_ q) with
        | None => false
        | Some entries => existsb (hit m cfg fs q) entries
        end
    end.
Proof. reflexivity. Qed.

Lemma calls_bounded_S m cfg fs p dir :
  calls_bounded (S m) cfg fs p dir
  = match target fs p dir with
    | None => true
    | Some q =>
        match listdir fs (at_ q) with
        | None => true
        | Some entries => forallb (tame_entry m cfg fs q) entries
        end
    end.
Proof. reflexivity. Qed.

(** The scan where the calls it sets off nest [m] deep at most and each
    call of a helper takes [D] frames at most: [m + D] frames are enough. *)
Lemma bounded_scan {Py : py.interpreter} D cfg fs :
  (forall o, py.depth o <= D) ->
  forall m n, m + D <= n -> scans_within cfg fs m (check_dir n fs cfg).
Proof.
  intros HD. induction m as [|m IH]; intros n Hn dir prev s Hbound;
    [discriminate|].
  destruct n as [|k]; [lia|].
  assert (Hk : has_frames k). { intros o. specialize (HD o). lia. }
  rewrite calls_bounded_S in Hbound. rewrite reach_S.
  rewrite check_dir_S. rewrite (needs_enough py.Chdir k _ _ (Hk _)).
  rewrite chdir_target.
  destruct (target fs (cwd s) dir) as [q|] eqn:Htarget.
  2:{ enough_frames Hk.
      exists [could_not_access s dir]. cbn [final].
      split; [reflexivity|]. split; [reflexivity|]. eauto. }
  rewrite (needs_enough py.Listdir k _ _ (Hk _)).
  change (listdir fs (set_cwd q s)) with (listdir fs (at_ q)).
  destruct (target_dir _ _ _ _ Htarget) as (l & es & Hget).
  destruct (listdir fs (at_ q)) as [entries|] eqn:Hls.
  - destruct (bounded_loop cfg fs m (check_dir k fs cfg) k q l es Hk
                (IH k ltac:(lia)) Hget entries (true, []) (set_cwd q s)
                eq_refl (fun e => listed_plain fs (at_ q) entries e Hls) Hbound)
      as (acc & s1 & new & Hloop & Hcwd & Hev & Hq & Hyet & Hkeys).
    rewrite Hloop. cbn [bind]. unfold leave.
    rewrite (needs_enough py.Chdir k _ _ (Hk _)), chdir_target, Hcwd.
    change (nothing_yet (true, [])) with true in Hyet.
    cbn [andb] in Hyet.
    exists new. destruct (target fs q prev) as [q'|]; cbn [final].
    + split; [exact Hev|]. split; [exact Hq|].
      eexists _, _. split; [reflexivity|]. split; [reflexivity|].
      unfold nothing_yet in Hyet. rewrite Hyet. split.
      * destruct (existsb (hit m cfg fs q) entries); cbn [negb];
          split; intros H; try discriminate; reflexivity.
      * intros t Ht.
        destruct (negb (existsb (hit m cfg fs q) entries)); [discriminate|].
        inversion Ht. apply keys_followed_intro.
        intros key t' Hin. destruct (Hkeys key t' Hin) as [[]|H]. exact H.
    + split; [exact Hev|]. split; [exact Hq|]. eauto.
  - enough_frames Hk. rewrite chdir_target. cbn [cwd record set_cwd].
    exists [could_not_list (set_cwd q s)].
    destruct (target fs q prev) as [q'|]; cbn [final].
    + split; [reflexivity|]. split; [reflexivity|].
      eexists _, _. split; [reflexivity|]. split; [reflexivity|].
      split; [split; reflexivity|discriminate].
    + split; [reflexivity|]. split; [reflexivity|]. eauto.
Qed.

(** More nested scans looked into, more images reached. *)
Lemma reach_mono cfg fs : forall m m' p dir,
  m <= m' -> reach m cfg fs p dir = true -> reach m' cfg fs p dir = true.
Proof.
  induction m as [|m IH]; intros m' p dir Hm; [discriminate|].
  destruct m' as [|m']; [lia|].
  rewrite !reach_S. destruct (target fs p dir) as [q|]; [|auto].
  destruct (listdir fs (at_ q)) as [entries|]; [|auto].
  rewrite !existsb_exists. intros (e & Hin & Hhit). exists e.
  split; [exact Hin|]. unfold hit in *.
  destruct (visible cfg e); [|discriminate]. cbn [andb] in *.
  destruct (isfile fs (at_ q) (Rel [e])); [exact Hhit|].
  apply andb_prop in Hhit. destruct Hhit as [-> Hreach]. cbn [andb].
  apply (IH m'); [lia|exact Hreach].
Qed.


Lemma calls_bounded_mono cfg fs : forall m m' p dir,
  m <= m' ->
  calls_bounded m cfg fs p dir = true ->
  calls_bounded m' cfg fs p dir = true.
Proof.
  induction m as [|m IH]; intros m' p dir Hm; [discriminate|].
  destruct m' as [|m']; [lia|].
  rewrite !calls_bounded_S. destruct (target fs p dir) as [q|]; [|auto].
  destruct (listdir fs (at_ q)) as [entries|]; [|auto].
  rewrite !forallb_forall. intros H e Hin. specialize (H e Hin).
  unfold tame_entry in *.
  destruct (entered cfg fs q e); [|reflexivity]. cbn [negb orb] in *.
  apply andb_prop in H. destruct H as [-> H]. cbn [andb].
  apply (IH m'); [lia|exact H].
Qed.

(** *** What a scan leaves behind and what it lets out *)

Lemma within_refl fs cfg s : within fs cfg s s.
Proof.
  split; [reflexivity|]. exists []. repeat split; reflexivity.
Qed.

Lemma within_trans fs cfg s1 s2 s3 :
  within fs cfg s1 s2 -> within fs cfg s2 s3 -> within fs cfg s1 s3.
Proof.
  intros [Hl1 (n1 & He1 & Hf1 & Hh1)] [Hl2 (n2 & He2 & Hf2 & Hh2)].
  split; [congruence|].
  exists (n2 ++ n1). rewrite He2, He1, app_assoc. split; [reflexivity|].
  rewrite !forallb_app, Hf1, Hf2, Hh1, Hh2. split; reflexivity.
Qed.

Lemma within_record fs cfg s e :
  scan_event cfg e = true -> honest fs cfg e = true ->
  within fs cfg s (record e s).
Proof.
  intros H1 H2. split; [reflexivity|]. exists [e]. cbn.
  rewrite H1, H2. auto.
Qed.

Lemma chdir_launched fs p s s' :
  chdir fs p s = Some s' -> launched s' = launched s.
Proof.
  unfold chdir. destruct (resolve fs s p) as [q|]; [|discriminate].
  destruct (get fs q) as [[| [] ? ? | |]|]; try discriminate.
  intros H. inversion H. reflexivity.
Qed.

Lemma within_chdir fs cfg p s s' :
  chdir fs p s = Some s' -> within fs cfg s s'.
Proof.
  intros H. split; [eapply chdir_launched; exact H|].
  exists []. rewrite (chdir_events _ _ _ _ H). auto.
Qed.

Lemma too_deep_event cfg s : scan_event cfg (too_deep s) = true.
Proof.
  unfold too_deep, scan_event, is_too_deep, py.startswith.
  change (String.prefix ("Too deep: " ++ "")
            ("Too deep: " ++ py.repr (path_text (cwd s))) = true).
  rewrite prefix_app_same. apply prefix_empty.
Qed.

(** A call that lacked the frames for one of its own calls. *)
Lemma starved_call {Py : py.interpreter} o k :
  Nat.leb (py.depth o) k = false -> exists o', k < py.depth o'.
Proof. intros H. exists o. apply Nat.leb_gt. exact H. Qed.

Lemma scan_try_contained {Py : py.interpreter} fs cfg rec k entry s :
  (forall dir prev s0, contained fs cfg s0 (rec dir prev s0)) ->
  contained fs cfg s (scan_try rec k fs entry s).
Proof.
  intros Hrec. unfold scan_try, needs. branches; try apply Hrec;
    (split; [apply within_refl|reflexivity]).
Qed.

Lemma scan_entry_contained {Py : py.interpreter} fs cfg rec k entry acc s :
  (forall dir prev s0, contained fs cfg s0 (rec dir prev s0)) ->
  within fs cfg s (ctl_state (scan_entry rec k fs cfg entry acc s))
  /\ match scan_entry rec k fs cfg entry acc s with
     | Fail py.RecursionError _ => exists o, k < py.depth o
     | Fail e _ => e = py.OSError
     | _ => True
     end.
Proof.
  intros Hrec. destruct acc as [empty content]. unfold scan_entry.
  destruct (Nat.leb (py.depth py.Startswith) k) eqn:Estart; cbn [negb].
  2:{ split; [apply within_refl|eapply starved_call; exact Estart]. }
  destruct (py.startswith entry "." && negb (_SHOW_HIDDEN cfg)) eqn:Ehid.
  { split; [apply within_refl|exact I]. }
  destruct (Nat.leb (py.depth py.Isfile) k) eqn:Eisfile; cbn [negb].
  2:{ split; [apply within_refl|eapply starved_call; exact Eisfile]. }
  destruct (isfile fs s (Rel [entry])).
  - destruct empty; cbn [negb].
    + unfold pil_open. cbn [ctl_state]. split; [|exact I].
      apply within_record.
      * cbn. unfold visible. rewrite Ehid. reflexivity.
      * unfold honest, readable_image, visible. rewrite Ehid.
        cbn [negb andb cwd at_].
        change (stat fs (at_ (cwd s)) (Rel [entry]))
          with (stat fs s (Rel [entry])).
        destruct (Nat.leb (py.depth py.Open) k); [|reflexivity].
        destruct (stat fs s (Rel [entry])) as [[[]| | |]|]; reflexivity.
    + split; [apply within_refl|exact I].
  - destruct (_RECURSIVE cfg); [|split; [apply within_refl|exact I]].
    destruct (scan_try_contained fs cfg rec k entry s Hrec) as [Hw Hx].
    destruct (scan_try rec k fs entry s) as [r s'|e s']; cbn [final] in Hw.
    + split; [exact Hw|exact I].
    + destruct e; cbn in Hx; try discriminate.
      * unfold handle_too_deep.
        destruct (Nat.leb (py.depth py.Getcwd) k) eqn:Egetcwd.
        2:{ split; [exact Hw|eapply starved_call; exact Egetcwd]. }
        destruct (getcwd fs s'); [|split; [exact Hw|reflexivity]].
        destruct (Nat.leb (py.depth py.Log) k) eqn:Elog.
        2:{ split; [exact Hw|eapply starved_call; exact Elog]. }
        cbn [ctl_state]. split; [|exact I].
        eapply within_trans; [exact Hw|].
        apply within_record; [apply too_deep_event|reflexivity].
      * split; [exact Hw|reflexivity].
Qed.

Lemma scan_entries_contained {Py : py.interpreter} fs cfg rec k :
  (forall dir prev s0, contained fs cfg s0 (rec dir prev s0)) ->
  forall entries acc s,
  within fs cfg s (final (scan_entries rec k fs cfg entries acc s))
  /\ match scan_entries rec k fs cfg entries acc s with
     | Raise py.RecursionError _ => exists o, k < py.depth o
     | Raise e _ => e = py.OSError
     | Ret _ _ => True
     end.
Proof.
  intros Hrec. induction entries as [|entry rest IH]; intros acc s.
  { split; [apply within_refl|exact I]. }
  cbn [scan_entries].
  destruct (scan_entry_contained fs cfg rec k entry acc s Hrec) as [Hw Hx].
  destruct (scan_entry rec k fs cfg entry acc s) as [acc' s'|acc' s'|e s'];
    cbn [ctl_state] in Hw.
  - destruct (IH acc' s') as [Hw' Hx']. split; [|exact Hx'].
    eapply within_trans; [exact Hw|exact Hw'].
  - split; [exact Hw|exact I].
  - split; [exact Hw|exact Hx].
Qed.

(** The whole scan: what it leaves behind and what it lets out. *)
Lemma check_dir_contained {Py : py.interpreter} fs cfg : forall n dir prev s,
  contained fs cfg s (check_dir n fs cfg dir prev s)
  /\ forall s', check_dir n fs cfg dir prev s = Raise py.RecursionError s' ->
                n = 0 \/ exists o, n - 1 < py.depth o.
Proof.
  induction n as [|k IH]; intros dir prev s.
  { cbn. split; [split; [apply within_refl|reflexivity]|auto]. }
  assert (Hrec : forall d p s0,
            contained fs cfg s0 (check_dir k fs cfg d p s0))
    by (intros; apply IH).
  assert (Hstarved : forall o s0,
            k < py.depth o ->
            contained fs cfg s (Raise py.RecursionError s0 : result (option tree))
            -> contained fs cfg s (Raise py.RecursionError s0 : result (option tree))
               /\ forall s', (Raise py.RecursionError s0 : result (option tree))
                             = Raise py.RecursionError s' ->
                             S k = 0 \/ exists o, S k - 1 < py.depth o).
  { intros o s0 Ho Hc. split; [exact Hc|]. intros _ _. right. exists o.
    lia. }
  assert (Hraise : forall s0,
            within fs cfg s s0 ->
            contained fs cfg s (Raise py.RecursionError s0 : result (option tree))).
  { intros s0 Hw. split; [exact Hw|reflexivity]. }
  rewrite check_dir_S.
  ask py.Chdir k as Hchdir.
  2:{ eapply Hstarved; [exact Hchdir|]. apply Hraise, within_refl. }
  destruct (chdir fs dir s) as [s1|] eqn:Ecd.
  2:{ ask py.Abspath k as Habs.
      2:{ eapply Hstarved; [exact Habs|]. apply Hraise, within_refl. }
      ask py.LogException k as Hlogx.
      2:{ eapply Hstarved; [exact Hlogx|]. apply Hraise, within_refl. }
      split; [split; [apply within_record; reflexivity|exact I]|].
      intros s' H. discriminate H. }
  pose proof (within_chdir fs cfg _ _ _ Ecd) as Hw1.
  ask py.Listdir k as Hlist.
  2:{ eapply Hstarved; [exact Hlist|]. apply Hraise, Hw1. }
  destruct (listdir fs s1) as [entries|].
  2:{ ask py.Abspath k as Habs.
      2:{ eapply Hstarved; [exact Habs|]. apply Hraise, Hw1. }
      ask py.LogException k as Hlogx.
      2:{ eapply Hstarved; [exact Hlogx|]. apply Hraise, Hw1. }
      rewrite (needs_enough py.Chdir k _ _ Hchdir).
      assert (Hw2 : within fs cfg s (record (could_not_list s1) s1)).
      { eapply within_trans; [exact Hw1|].
        apply within_record; reflexivity. }
      destruct (chdir fs prev (record (could_not_list s1) s1)) as [s2|]
        eqn:E2.
      + split; [split; [|exact I]|intros s' H; discriminate H].
        eapply within_trans; [exact Hw2|]. eapply within_chdir. exact E2.
      + split; [split; [exact Hw2|reflexivity]|intros s' H; discriminate H]. }
  destruct (scan_entries_contained fs cfg _ k Hrec entries (true, []) s1)
    as [Hw Hx].
  destruct (scan_entries (check_dir k fs cfg) k fs cfg entries (true, []) s1)
    as [acc s2|e s2]; cbn [bind final] in *.
  - unfold leave. rewrite (needs_enough py.Chdir k _ _ Hchdir).
    destruct (chdir fs prev s2) as [s3|] eqn:E3.
    + split; [split; [|exact I]|intros s' H; discriminate H].
      eapply within_trans; [exact Hw1|].
      eapply within_trans; [exact Hw|]. eapply within_chdir. exact E3.
    + split; [split; [|reflexivity]|intros s' H; discriminate H].
      eapply within_trans; [exact Hw1|exact Hw].
  - destruct e; try discriminate Hx.
    + split; [split; [|reflexivity]|].
      * eapply within_trans; [exact Hw1|exact Hw].
      * intros _ _. right. destruct Hx as [o Ho]. exists o. lia.
    + split; [split; [|reflexivity]|intros s' H; discriminate H].
      eapply within_trans; [exact Hw1|exact Hw].
Qed.

(** *** Trees whose links to directories are all cyclic *)

(** In such a tree the scans nest no deeper than the directories do. *)
Lemma tame_is_bounded cfg fs : forall m p0 dir p e l es,
  resolve fs (at_ p0) dir = Some p ->
  get fs p = Some (Dir e l es) ->
  only_cyclic_links fs p (Dir e l es) = true ->
  height (Dir e l es) <= m ->
  calls_bounded m cfg fs p0 dir = true.
Proof.
  induction m as [|m IH]; intros p0 dir p e l es Hres Hget Htame Hh.
  { cbn [height] in Hh. lia. }
  rewrite calls_bounded_S. unfold target, chdir. rewrite Hres, Hget.
  destruct e; [|reflexivity]. cbn [cwd set_cwd at_].
  unfold listdir. cbn [cwd at_]. rewrite Hget.
  destruct l; [|reflexivity].
  apply forallb_forall. intros n Hin. apply filter_In in Hin.
  destruct Hin as [Hin Hplain].
  destruct (listed_is_entry es n Hin) as [c Hfind].
  destruct (entry_of_tame fs p true true es n c Htame Hfind) as [_ Hc].
  unfold tame_entry. destruct (entered cfg fs p n) eqn:Hent; [|reflexivity].
  cbn [negb orb]. unfold entered in Hent.
  apply andb_prop in Hent. destruct Hent as [Hent Hcond].
  apply andb_prop in Hent. destruct Hent as [Hent _].
  apply andb_prop in Hent. destruct Hent as [_ Hfile].
  apply negb_true_iff in Hfile.
  unfold islink in *. unfold isfile in Hfile. unfold isdir in Hcond.
  unfold link_followed, exists_, realpath in Hcond.
  rewrite (lstat_entry fs (at_ p) true true es n Hget Hplain) in *.
  rewrite (stat_entry fs (at_ p) true true es n Hget Hplain) in *.
  rewrite (resolve_entry fs (at_ p) true true es n Hget Hplain) in Hcond.
  rewrite Hfind in *.
  destruct c as [image|e' l' es'|t|].
  - discriminate Hcond.
  - cbn [negb orb andb].
    apply (IH p (Rel [n]) (p ++ [n]) e' l' es').
    + rewrite (resolve_entry fs (at_ p) true true es n Hget Hplain), Hfind.
      reflexivity.
    + rewrite (get_snoc _ _ _ _ _ n Hget). exact Hfind.
    + exact Hc.
    + pose proof (entry_lower true true es n _ Hfind). lia.
  - exfalso. unfold harmless_link in Hc.
    destruct (walk (pred MAXSYMLINKS) fs [] t) as [q|]; [|discriminate].
    apply andb_prop in Hcond. destruct Hcond as [_ Hcond].
    apply negb_true_iff in Hcond. cbn [cwd at_] in Hcond.
    apply orb_prop in Hc. destruct Hc as [Hc|Hc].
    + rewrite (ancestor_startswith _ _ Hc) in Hcond. discriminate Hcond.
    + destruct (get fs q) as [[| | |]|]; discriminate.
  - discriminate Hcond.
Qed.

(** Back from a directory to the one that holds it. *)
Lemma target_parent_inv fs p (e : name) e1 l1 es1 q :
  get fs (p ++ [e]) = Some (Dir e1 l1 es1) ->
  target fs (p ++ [e]) (Rel [".."]) = Some q ->
  q = p.
Proof.
  intros Hhere. unfold target, chdir, resolve. cbn [base cwd at_].
  rewrite walk_cons, Hhere. cbn [String.eqb Ascii.eqb Bool.eqb].
  rewrite removelast_last, walk_nil.
  destruct (get fs p) as [[| [] ? ? | |]|] eqn:Hup; cbv iota;
    rewrite ?Hup; try discriminate.
  intros H. inversion H. reflexivity.
Qed.

(** The default [prev_dir], where the frames suffice: in a tree whose links
    to directories are all cyclic, a scan of a directory proper that
    returns has gone back to the directory that holds it. *)
Lemma prev_dir_is_restored_when_frames_suffice {Py : py.interpreter} D fs cfg
  n (entry : name) s e0 l0 es0 l es r s' :
  (forall o, py.depth o <= D) ->
  get fs (cwd s) = Some (Dir e0 l0 es0) ->
  plain_name entry = true ->
  find_entry entry es0 = Some (Dir true l es) ->
  only_cyclic_links fs (cwd s ++ [entry]) (Dir true l es) = true ->
  height (Dir true l es) + D <= n ->
  check_dir n fs cfg (Rel [entry]) parent_dir s = Ret r s' ->
  cwd s' = cwd s.
Proof.
  intros HD Hhere Hplain Hentry Htame Hframes Hrun.
  assert (Hres : resolve fs (at_ (cwd s)) (Rel [entry])
                 = Some (cwd s ++ [entry])).
  { rewrite (resolve_entry fs (at_ (cwd s)) e0 l0 es0 entry Hhere Hplain).
    rewrite Hentry. reflexivity. }
  assert (Hget : get fs (cwd s ++ [entry]) = Some (Dir true l es)).
  { rewrite (get_snoc _ _ _ _ _ entry Hhere). exact Hentry. }
  pose proof (tame_is_bounded cfg fs _ _ _ _ _ _ _ Hres Hget Htame
                (le_n _)) as Hbound.
  destruct (bounded_scan D cfg fs HD _ n Hframes (Rel [entry]) parent_dir s
              Hbound) as (new & _ & _ & Hout).
  assert (Htarget : target fs (cwd s) (Rel [entry])
                    = Some (cwd s ++ [entry])).
  { unfold target, chdir. rewrite Hres, Hget. reflexivity. }
  rewrite Htarget in Hout.
  destruct (target fs (cwd s ++ [entry]) parent_dir) as [q|] eqn:Hback.
  - destruct Hout as (r0 & s0 & Hrun0 & Hcwd & _).
    rewrite Hrun in Hrun0. inversion Hrun0; subst.
    eapply target_parent_inv; eassumption.
  - destruct Hout as (s0 & Hrun0). rewrite Hrun in Hrun0.
    discriminate Hrun0.
Qed.

(** *** The verdict of a scan *)




(** *** Links *)

(** C4, as stated, does not hold for every tree that holds a cyclic link:
    [/r/x] links to itself and to [/r/y], which links back to [/r/x]; neither
    of the two is above the other, so each link is followed from the other
    side until the frames run out, three directories deep as the tree is. *)
Lemma mutual_links_recurse_to_the_limit :
  (get demo.twisted ["r"] = Some demo.twisted_r
   /\ holds_cyclic_link demo.twisted ["r"] demo.twisted_r = true
   /\ height demo.twisted_r = 2
   /\ exists t s',
        check_dir (Py := py.one_frame) 8 demo.twisted (mkFlags true false)
          (Rel ["r"]) parent_dir demo.start = Ret (Some t) s'
        /\ quiet (events s') = false
        /\ real_dirs t demo.twisted_r = false)
  /\
  ~ (forall (Py : py.interpreter) fs cfg n dir prev s p e l es,
        resolve fs s dir = Some p ->
        get fs p = Some (Dir e l es) ->
        holds_cyclic_link fs p (Dir e l es) = true ->
        height (Dir e l es) < n ->
        quiet (events s) = true ->
        quiet (events (final (check_dir n fs cfg dir prev s))) = true
        /\ forall t s', check_dir n fs cfg dir prev s = Ret (Some t) s' ->
                        real_dirs t (Dir e l es) = true).
Proof.
  split.
  - split; [reflexivity|]. split; [reflexivity|]. split; [reflexivity|].
    set (r := check_dir (Py := py.one_frame) 8 demo.twisted
                (mkFlags true false) (Rel ["r"]) parent_dir demo.start).
    vm_compute in r. subst r.
    eexists _, _. split; [reflexivity|]. split; vm_compute; reflexivity.
  - intros H.
    specialize (H py.one_frame demo.twisted (mkFlags true false) 8
                  (Rel ["r"]) parent_dir demo.start ["r"] _ _ _ eq_refl
                  eq_refl eq_refl).
    cbn [height] in H. specialize (H ltac:(cbn; lia) eq_refl).
    destruct H as [H _]. vm_compute in H. discriminate H.
Qed.

(** C4, amended.  A link is followed only if it resolves to something that
    exists and is neither the working directory nor a directory above it; a
    link that fails the test is passed over without a scan.  Hence, where
    the scans that [check_dir] sets off nest [m] deep at most, each
    directory in which a link is followed being known by its own path, and
    the call has [m] frames and those that a call of a helper takes, the
    scan returns (or fails on [os.chdir(prev_dir)] alone) without a
    recursion error, logs no "Too deep", and every key of the tree it
    returns, at every level, is a directory proper or a link that passed
    the test, so that no cyclic link is reported.  A tree whose links to
    directories are all cyclic is such a tree, with [m] the number of
    directories nested in each other. *)
Theorem cyclic_links_are_passed_over {Py : py.interpreter} fs :
  (forall s (entry : name),
     (link_followed fs s entry = true ->
      exists q, resolve fs s (Rel [entry]) = Some q
                /\ is_ancestor q (cwd s) = false)
     /\ (link_followed fs s entry = false ->
         islink fs s (Rel [entry]) = true ->
         get fs (cwd s) <> None ->
         forall rec k, has_frames k -> scan_try rec k fs entry s = Ret None s))
  /\
  (forall D cfg m n dir prev s,
     (forall o, py.depth o <= D) ->
     calls_bounded m cfg fs (cwd s) dir = true ->
     m + D <= n ->
     exists new,
       events (final (check_dir n fs cfg dir prev s)) = new ++ events s
       /\ quiet new = true
       /\ ((exists r s', check_dir n fs cfg dir prev s = Ret r s')
           \/ (exists s', check_dir n fs cfg dir prev s = Raise py.OSError s'))
       /\ (forall t s',
             check_dir n fs cfg dir prev s = Ret (Some t) s' ->
             exists q, target fs (cwd s) dir = Some q
                       /\ keys_followed fs q t = true))
  /\
  (forall cfg dir s p e l es,
     resolve fs s dir = Some p ->
     get fs p = Some (Dir e l es) ->
     only_cyclic_links fs p (Dir e l es) = true ->
     calls_bounded (height (Dir e l es)) cfg fs (cwd s) dir = true).
Proof.
  split; [|split].
  - intros s entry. split.
    + unfold link_followed, exists_, realpath, stat.
      destruct (resolve fs s (Rel [entry])) as [q|]; [|discriminate].
      intros H. apply andb_prop in H. destruct H as [_ H].
      exists q. split; [reflexivity|].
      destruct (is_ancestor q (cwd s)) eqn:E; [|reflexivity].
      rewrite (ancestor_startswith _ _ E) in H. discriminate H.
    + intros Hno Hlink Hcwd rec k Hk. unfold scan_try.
      enough_frames Hk. rewrite Hlink.
      unfold link_followed in Hno.
      destruct (exists_ fs s (Rel [entry])); [|reflexivity].
      cbn [andb] in Hno. apply negb_false_iff in Hno.
      unfold getcwd. destruct (get fs (cwd s)); [|contradiction].
      enough_frames Hk. rewrite Hno. reflexivity.
  - intros D cfg m n dir prev s HD Hbound Hframes.
    destruct (bounded_scan D cfg fs HD m n Hframes dir prev s Hbound)
      as (new & Hev & Hq & Hout).
    exists new. split; [exact Hev|]. split; [exact Hq|].
    destruct (target fs (cwd s) dir) as [q|].
    + destruct (target fs q prev) as [q'|].
      * destruct Hout as (r & s' & Hrun & _ & _ & Hkeys).
        split; [eauto|]. intros t s0 Hrun0. rewrite Hrun in Hrun0.
        inversion Hrun0; subst. eauto.
      * destruct Hout as (s' & Hrun). split; [eauto|].
        intros t s0 Hrun0. rewrite Hrun in Hrun0. discriminate Hrun0.
    + destruct Hout as (s' & Hrun & _). split; [eauto|].
      intros t s0 Hrun0. rewrite Hrun in Hrun0. discriminate Hrun0.
  - intros cfg dir s p e l es Hres Hget Htame.
    eapply tame_is_bounded; [exact Hres|exact Hget|exact Htame|].
    apply le_n.
Qed.

(** [/a] holds [self], a link to [/a], and [lnk], a link to [/b]: the first
    is passed over, the second is followed, and the scan of [/a] needs the
    frames of two nested scans. *)
Lemma cyclic_links_are_passed_over_witness :
  link_followed demo.linked (mkState ["a"] [] false) "self" = false
  /\ link_followed demo.linked (mkState ["a"] [] false) "lnk" = true
  /\ check_dir (Py := py.one_frame) 3 demo.linked (mkFlags true false)
       (Rel ["a"]) parent_dir demo.start
     = Ret (Some (Node [("lnk", Node [])]))
         (mkState [] [Opened 2 ["a"] "z.txt" false;
                      Opened 1 ["b"] "c.png" true] false)
  /\ keys_followed demo.linked ["a"] (Node [("lnk", Node [])]) = true.
Proof.
  split; [reflexivity|]. split; [reflexivity|]. split; [reflexivity|].
  assert (Hframes : forall o, py.depth (interpreter := py.one_frame) o <= 1).
  { intros o. destruct o; cbn; lia. }
  destruct (proj1 (proj2 (cyclic_links_are_passed_over (Py := py.one_frame)
                            demo.linked))
              1 (mkFlags true false) 2 3 (Rel ["a"]) parent_dir demo.start
              Hframes eq_refl (le_n 3))
    as (new & _ & _ & _ & Hkeys).
  destruct (Hkeys (Node [("lnk", Node [])]) _ eq_refl) as (q & Hq & H).
  injection Hq as <-. exact H.
Defined.
End scan_facts.

(** ** The options checked against the configuration *)

Module config_facts.
Import config.

Lemma getattr_setattr_same ns k v : getattr (setattr ns k v) k = v.
Proof.
  induction ns as [|[k' v'] ns IH]; cbn.
  - rewrite String.eqb_refl. reflexivity.
  - destruct (String.eqb k k') eqn:E; cbn.
    + rewrite String.eqb_refl. reflexivity.
    + rewrite E. exact IH.
Qed.

Lemma getattr_setattr_other ns k v k' :
  k <> k' -> getattr (setattr ns k v) k' = getattr ns k'.
Proof.
  intros Hne. induction ns as [|[k0 v0] ns IH]; cbn.
  - destruct (String.eqb_spec k' k); [congruence|reflexivity].
  - destruct (String.eqb_spec k k0) as [->|Hk]; cbn.
    + destruct (String.eqb_spec k' k0); [congruence|reflexivity].
    + destruct (String.eqb k' k0); [reflexivity|exact IH].
Qed.

Lemma setattr_present ns k v :
  getattr ns k <> VNone -> map fst (setattr ns k v) = map fst ns.
Proof.
  induction ns as [|[k0 v0] ns IH]; cbn; [congruence|].
  destruct (String.eqb_spec k k0) as [->|Hk]; cbn; [reflexivity|].
  intros H. rewrite (IH H). reflexivity.
Qed.

Lemma setattr_same_value ns k :
  getattr ns k <> VNone -> setattr ns k (getattr ns k) = ns.
Proof.
  induction ns as [|[k0 v0] ns IH]; cbn; [congruence|].
  destruct (String.eqb_spec k k0) as [->|Hk]; cbn; [reflexivity|].
  intros H. rewrite (IH H). reflexivity.
Qed.

Lemma locals_plain env name v :
  plain_option name = true ->
  locals env name (replace_spaces name) v (replace_spaces name)
  = env (replace_spaces name).
Proof.
  unfold plain_option, locals. intros H.
  repeat (apply andb_prop in H; destruct H as [H ?]).
  repeat match goal with
         | Hn : negb ?b = true |- _ => apply negb_true_iff in Hn; rewrite Hn
         end.
  reflexivity.
Qed.

Lemma is_not_None_true v : is_not_None v = true -> v <> VNone.
Proof. destruct v; cbn; congruence. Qed.

(** A round of the loop keeps settled what was settled, and settles its own
    option. *)
Lemma round_settles env o ns notes ns' notes' :
  plain_option (fst o) = true ->
  reconcile_option env o ns notes = Done ns' notes' ->
  settled_option env ns' o
  /\ forall o', settled_option env ns o' -> settled_option env ns' o'.
Proof.
  destruct o as [name is_valid]. cbn [fst]. intros Hplain.
  unfold reconcile_option.
  destruct (is_not_None (getattr ns (replace_spaces name))
            && negb (is_valid (getattr ns (replace_spaces name)))) eqn:E.
  - rewrite (locals_plain env name _ Hplain).
    destruct (env (replace_spaces name)) as [c|] eqn:Ec; [|discriminate].
    intros H. inversion H; subst. split.
    + right. right. cbn [fst]. rewrite getattr_setattr_same. exact Ec.
    + intros [name' valid'] Hs. unfold settled_option in *. cbn [fst snd] in *.
      destruct (String.eqb_spec (replace_spaces name) (replace_spaces name'))
        as [Heq|Hne].
      * right. right. rewrite <- Heq, getattr_setattr_same. exact Ec.
      * rewrite (getattr_setattr_other _ _ _ _ Hne). exact Hs.
  - intros H. inversion H; subst. split; [|auto].
    unfold settled_option. cbn [fst snd].
    destruct (getattr ns' (replace_spaces name)) eqn:Ev; auto;
      right; left; cbn in E; destruct (is_valid _); auto; discriminate.
Qed.

Lemma reconcile_settles env : forall options ns notes ns' notes',
  (forall o, In o options -> plain_option (fst o) = true) ->
  reconcile env options ns notes = Done ns' notes' ->
  (forall o, In o options -> settled_option env ns' o)
  /\ forall o', settled_option env ns o' -> settled_option env ns' o'.
Proof.
  induction options as [|o rest IH]; intros ns notes ns' notes' Hplain Hrun.
  { cbn in Hrun. inversion Hrun; subst. split; [intros o []|auto]. }
  cbn [reconcile] in Hrun.
  destruct (reconcile_option env o ns notes) as [ns1 notes1|k ns1 notes1] eqn:E1;
    [|discriminate].
  destruct (round_settles env o ns notes ns1 notes1
              (Hplain o (or_introl eq_refl)) E1) as [Hown Hkeep].
  destruct (IH ns1 notes1 ns' notes'
              (fun o' H => Hplain o' (or_intror H)) Hrun) as [Hrest Hkeep'].
  split.
  - intros o' [<-|Hin]; [apply Hkeep'; exact Hown|apply Hrest; exact Hin].
  - intros o' Hs. apply Hkeep'. apply Hkeep. exact Hs.
Qed.

(** In a namespace where the options are settled, the loop changes nothing
    in the namespace. *)
Lemma reconcile_settled_fixed env : forall options ns notes,
  (forall o, In o options -> plain_option (fst o) = true) ->
  (forall o, In o options -> settled_option env ns o) ->
  exists notes', reconcile env options ns notes = Done ns notes'.
Proof.
  induction options as [|o rest IH]; intros ns notes Hplain Hs.
  { exists notes. reflexivity. }
  cbn [reconcile].
  assert (Hround : exists notes1, reconcile_option env o ns notes
                                  = Done ns notes1).
  { specialize (Hs o (or_introl eq_refl)).
    specialize (Hplain o (or_introl eq_refl)).
    destruct o as [name is_valid]. unfold settled_option in Hs.
    cbn [fst snd] in *. unfold reconcile_option.
    destruct (is_not_None (getattr ns (replace_spaces name))
              && negb (is_valid (getattr ns (replace_spaces name)))) eqn:E;
      [|eauto].
    apply andb_prop in E. destruct E as [Hsome Hbad].
    apply negb_true_iff in Hbad. apply is_not_None_true in Hsome.
    destruct Hs as [Hn|[Hv|He]]; [contradiction|congruence|].
    rewrite (locals_plain env name _ Hplain), He.
    rewrite (setattr_same_value _ _ Hsome). eauto. }
  destruct Hround as [notes1 ->].
  apply IH; [|intros o' H; apply Hs; right; exact H].
  intros o' H. apply Hplain. right. exact H.
Qed.

(** X1.  When the loop over the configuration options runs through, every
    option is settled: its attribute is absent or [None], or passes the
    option's test, or holds the configuration's value; and running the loop
    again on the result changes no attribute. *)
Theorem reconciled_options_are_settled env options ns ns' notes' :
  (forall o, In o options -> plain_option (fst o) = true) ->
  reconcile env options ns [] = Done ns' notes' ->
  (forall o, In o options -> settled_option env ns' o)
  /\ exists notes'', reconcile env options ns' [] = Done ns' notes''.
Proof.
  intros Hplain Hrun.
  destruct (reconcile_settles env options ns [] ns' notes' Hplain Hrun)
    as [Hs _].
  split; [exact Hs|].
  apply reconcile_settled_fixed; assumption.
Qed.

Lemma reconciled_options_are_settled_witness :
  reconcile env0 options0 namespace0 []
  = Done [("font_ratio", VFloat (1, 2)%Z);
          ("frame_duration", VFloat (1, 5)%Z);
          ("width", VNone);
          ("max_pixels", VInt 4194304);
          ("recursive", VBool true)]
         [mkNotification "max pixels" (VInt 10);
          mkNotification "font ratio" (VFloat (0, 1)%Z)]
  /\ settled_option env0
       [("font_ratio", VFloat (1, 2)%Z);
        ("frame_duration", VFloat (1, 5)%Z);
        ("width", VNone);
        ("max_pixels", VInt 4194304);
        ("recursive", VBool true)]
       ("max notifications", positive).
Proof.
  split; [reflexivity|].
  refine (proj1 (reconciled_options_are_settled env0 options0 namespace0 _ _
                   _ eq_refl) _ _).
  - intros o [<-|[<-|[<-|[<-|[]]]]]; reflexivity.
  - right. right. right. left. reflexivity.
Defined.

(** X2.  The loop neither adds nor removes an attribute, and an attribute
    that no option names, spaces taken as underscores, keeps its value. *)
Theorem reconcile_touches_options_only env : forall options ns notes ns' notes',
  reconcile env options ns notes = Done ns' notes' ->
  map fst ns' = map fst ns
  /\ forall k, (forall o, In o options -> replace_spaces (fst o) <> k) ->
               getattr ns' k = getattr ns k.
Proof.
  induction options as [|o rest IH]; intros ns notes ns' notes' Hrun.
  { cbn in Hrun. inversion Hrun; subst. auto. }
  cbn [reconcile] in Hrun.
  destruct (reconcile_option env o ns notes) as [ns1 notes1|k ns1 notes1] eqn:E1;
    [|discriminate].
  destruct (IH ns1 notes1 ns' notes' Hrun) as [Hkeys Hother].
  assert (Hround : map fst ns1 = map fst ns
                   /\ forall k, replace_spaces (fst o) <> k ->
                                getattr ns1 k = getattr ns k).
  { destruct o as [name is_valid]. cbn [fst]. unfold reconcile_option in E1.
    destruct (is_not_None (getattr ns (replace_spaces name))
              && negb (is_valid (getattr ns (replace_spaces name)))) eqn:E.
    - apply andb_prop in E. destruct E as [Hsome _].
      apply is_not_None_true in Hsome.
      destruct (locals env name (replace_spaces name) _ (replace_spaces name))
        as [c|]; [|discriminate].
      inversion E1; subst. split.
      + apply setattr_present. exact Hsome.
      + intros k Hk. apply getattr_setattr_other. exact Hk.
    - inversion E1; subst. auto. }
  destruct Hround as [Hkeys1 Hother1]. split; [congruence|].
  intros k Hk. rewrite Hother.
  - apply Hother1. apply Hk. left. reflexivity.
  - intros o' H. apply Hk. right. exact H.
Qed.

Lemma reconcile_touches_options_only_witness :
  getattr [("font_ratio", VFloat (1, 2)%Z);
           ("frame_duration", VFloat (1, 5)%Z);
           ("width", VNone);
           ("max_pixels", VInt 4194304);
           ("recursive", VBool true)] "recursive" = VBool true.
Proof.
  refine (proj2 (reconcile_touches_options_only env0 options0 namespace0 [] _ _
                   eq_refl) "recursive" _).
  intros o [<-|[<-|[<-|[<-|[]]]]]; cbn; discriminate.
Defined.

(** X3.  Every notification of the loop names an option together with a
    value that the args held for it when its turn came, after the rounds of
    the options before it: a value that is not [None] and that failed the
    option's test.  When the loop gives no notification the namespace is as
    it was; and it gives none when every option's attribute is absent,
    [None] or passes the test. *)
Theorem reconcile_notifies_what_it_replaces env :
  forall options ns notes ns' notes',
  reconcile env options ns notes = Done ns' notes' ->
  exists added,
    notes' = added ++ notes
    /\ (forall n, In n added ->
          got n <> VNone
          /\ exists before is_valid after ns_at notes_at,
               options = before ++ (about n, is_valid) :: after
               /\ reconcile env before ns notes = Done ns_at notes_at
               /\ got n = getattr ns_at (replace_spaces (about n))
               /\ is_valid (got n) = false)
    /\ (added = [] -> ns' = ns)
    /\ ((forall o, In o options ->
           getattr ns (replace_spaces (fst o)) = VNone
           \/ snd o (getattr ns (replace_spaces (fst o))) = true) ->
        added = []).
Proof.
  induction options as [|o rest IH]; intros ns notes ns' notes' Hrun.
  { cbn in Hrun. inversion Hrun; subst. exists [].
    split; [reflexivity|]. split; [intros ? []|]. split; reflexivity. }
  cbn [reconcile] in Hrun.
  destruct (reconcile_option env o ns notes) as [ns1 notes1|k ns1 notes1] eqn:E1;
    [|discriminate].
  destruct (IH ns1 notes1 ns' notes' Hrun) as (added2 & Hn2 & Htrue2 & Hsame2
                                               & Hquiet2).
  assert (Hlater : forall n, In n added2 ->
            got n <> VNone
            /\ exists before is_valid after ns_at notes_at,
                 o :: rest = before ++ (about n, is_valid) :: after
                 /\ reconcile env before ns notes = Done ns_at notes_at
                 /\ got n = getattr ns_at (replace_spaces (about n))
                 /\ is_valid (got n) = false).
  { intros n Hin.
    destruct (Htrue2 n Hin)
      as (Hg & before & v & after & ns_at & notes_at & Hopt & Hrun' & Hval
          & Hf).
    split; [exact Hg|].
    exists (o :: before), v, after, ns_at, notes_at.
    split; [rewrite Hopt; reflexivity|].
    split; [cbn [reconcile]; rewrite E1; exact Hrun'|].
    split; assumption. }
  destruct o as [name is_valid]. unfold reconcile_option in E1.
  destruct (is_not_None (getattr ns (replace_spaces name))
            && negb (is_valid (getattr ns (replace_spaces name)))) eqn:E.
  - apply andb_prop in E. destruct E as [Hsome Hbad].
    apply negb_true_iff in Hbad. apply is_not_None_true in Hsome.
    destruct (locals env name (replace_spaces name) _ (replace_spaces name))
      as [c|]; [|discriminate].
    inversion E1; subst.
    exists (added2 ++ [mkNotification name (getattr ns (replace_spaces name))]).
    rewrite <- app_assoc. split; [reflexivity|]. split; [|split].
    + intros n Hin. apply in_app_or in Hin. destruct Hin as [Hin|[<-|[]]].
      * apply Hlater. exact Hin.
      * cbn [got about]. split; [exact Hsome|].
        exists [], is_valid, rest, ns, notes.
        repeat split; [exact Hbad].
    + intros H. destruct added2; discriminate H.
    + intros Hall. exfalso.
      destruct (Hall (name, is_valid) (or_introl eq_refl)) as [H|H];
        cbn [fst snd] in H; congruence.
  - inversion E1; subst. exists added2. split; [reflexivity|].
    split; [|split].
    + exact Hlater.
    + exact Hsame2.
    + intros Hall. apply Hquiet2. intros o' H. apply Hall. right. exact H.
Qed.

(** The command line of [namespace0] asks for 10 pixels: the notification
    about it holds the value that the args had when the turn of [max pixels]
    came, after the round of [font ratio] and [frame duration]. *)
Lemma reconcile_notifies_what_it_replaces_witness :
  exists added,
    [mkNotification "max pixels" (VInt 10);
     mkNotification "font ratio" (VFloat (0, 1)%Z)] = added ++ []
    /\ forall n, In n added ->
          got n <> VNone
          /\ exists before is_valid after ns_at notes_at,
               options0 = before ++ (about n, is_valid) :: after
               /\ reconcile env0 before namespace0 [] = Done ns_at notes_at
               /\ got n = getattr ns_at (replace_spaces (about n))
               /\ is_valid (got n) = false.
Proof.
  destruct (reconcile_notifies_what_it_replaces env0 options0 namespace0 []
              _ _ eq_refl) as (added & Hn & Htrue & _).
  exists added. split; [exact Hn|exact Htrue].
Defined.

Lemma locals_bound env name var_name v k :
  env k <> None -> locals env name var_name v k <> None.
Proof.
  unfold locals. intros H.
  repeat match goal with
         | |- context [String.eqb k ?x] => destruct (String.eqb k x)
         end; try discriminate. exact H.
Qed.

Lemma locals_unbound env name var_name v k :
  locals env name var_name v k = None -> env k = None.
Proof.
  unfold locals.
  repeat match goal with
         | |- context [String.eqb k ?x] => destruct (String.eqb k x)
         end; try discriminate. auto.
Qed.

(** X14.  How the loop over the configuration options can fail.  It runs
    through whenever each option whose attribute is present in the args has
    a local variable of [main] of its name.  When it fails, with the
    [KeyError] of [locals()[var_name]], it does so at an option whose
    attribute held a value, not [None], that failed the option's test and
    for whose name [main] has no variable; the namespace still holds that
    value, and the notification that the config value is being used was
    given just before. *)
Theorem reconcile_fails_only_for_want_of_a_local env :
  forall options ns notes,
  ((forall o, In o options ->
      getattr ns (replace_spaces (fst o)) = VNone
      \/ env (replace_spaces (fst o)) <> None) ->
   exists ns' notes', reconcile env options ns notes = Done ns' notes')
  /\
  (forall k ns' notes',
     reconcile env options ns notes = KeyError k ns' notes' ->
     exists name is_valid older,
       In (name, is_valid) options
       /\ k = replace_spaces name
       /\ env k = None
       /\ getattr ns' k <> VNone
       /\ is_valid (getattr ns' k) = false
       /\ notes' = mkNotification name (getattr ns' k) :: older).
Proof.
  induction options as [|[name is_valid] rest IH]; intros ns notes.
  { split; [intros _; eexists _, _; reflexivity|discriminate]. }
  cbn [reconcile]. unfold reconcile_option.
  destruct (is_not_None (getattr ns (replace_spaces name))
            && negb (is_valid (getattr ns (replace_spaces name)))) eqn:E.
  - apply andb_prop in E. destruct E as [Hsome Hbad].
    apply negb_true_iff in Hbad. apply is_not_None_true in Hsome.
    destruct (locals env name (replace_spaces name) _ (replace_spaces name))
      as [c|] eqn:Eloc.
    + destruct (IH (setattr ns (replace_spaces name) c)
                  (mkNotification name (getattr ns (replace_spaces name))
                   :: notes)) as [IHa IHb].
      split.
      * intros Hbound. apply IHa. intros o Hin.
        destruct (String.eqb_spec (replace_spaces name) (replace_spaces (fst o)))
          as [Heq|Hne].
        -- right. rewrite <- Heq.
           destruct (Hbound (name, is_valid) (or_introl eq_refl)) as [H|H];
             [contradiction|exact H].
        -- rewrite (getattr_setattr_other _ _ _ _ Hne).
           apply Hbound. right. exact Hin.
      * intros k ns' notes' Hrun.
        destruct (IHb k ns' notes' Hrun) as (n & v & older & Hin & H).
        exists n, v, older. split; [right; exact Hin|exact H].
    + split.
      * intros Hbound. exfalso.
        destruct (Hbound (name, is_valid) (or_introl eq_refl)) as [H|H];
          [contradiction|].
        exact (locals_bound env name (replace_spaces name) _ _ H Eloc).
      * intros k ns' notes' Hrun. inversion Hrun; subst.
        exists name, is_valid, notes.
        split; [left; reflexivity|]. split; [reflexivity|].
        split; [eapply locals_unbound; exact Eloc|auto].
  - destruct (IH ns notes) as [IHa IHb]. split.
    + intros Hbound. apply IHa. intros o Hin. apply Hbound. right. exact Hin.
    + intros k ns' notes' Hrun.
      destruct (IHb k ns' notes' Hrun) as (n & v & older & Hin & H).
      exists n, v, older. split; [right; exact Hin|exact H].
Qed.

Lemma reconcile_fails_only_for_want_of_a_local_witness :
  exists ns' notes', reconcile env0 options0 namespace0 [] = Done ns' notes'.
Proof.
  apply (proj1 (reconcile_fails_only_for_want_of_a_local env0 options0
                  namespace0 [])).
  intros o [<-|[<-|[<-|[<-|[]]]]];
    [right; discriminate|right; discriminate|right; discriminate
    |left; reflexivity].
Defined.

End config_facts.

(** ** What a scan does to the process, and what it lets out *)

Module effects_facts.
Import os ospath os_ops data cli observe effects.

(** X4.  The only exceptions that [check_dir] lets out are [RecursionError]
    and [OSError].  A [RecursionError] comes out only of a call that had no
    frame to run in, or not the frames for one of the calls it makes itself;
    a recursion-depth error raised in a scan below is caught by the handler
    in the loop. *)
Theorem scan_lets_few_errors_out {Py : py.interpreter} fs cfg n dir prev s e
  s' :
  check_dir n fs cfg dir prev s = Raise e s' ->
  (e = py.RecursionError /\ (n = 0 \/ exists o, n - 1 < py.depth o))
  \/ e = py.OSError.
Proof.
  intros Hrun.
  destruct (scan_facts.check_dir_contained fs cfg n dir prev s)
    as [[_ Hx] Hdeep].
  rewrite Hrun in Hx.
  destruct e; cbn in Hx; try discriminate; [left|right; reflexivity].
  split; [reflexivity|]. apply (Hdeep s'). exact Hrun.
Qed.

Lemma scan_lets_few_errors_out_witness :
  check_dir (Py := py.one_frame) 1 demo.deep (mkFlags true false) (Rel ["d"])
    parent_dir demo.start
  = Raise py.RecursionError (mkState ["d"] [] false)
  /\ (1 = 0 \/ exists o, 1 - 1 < py.depth (interpreter := py.one_frame) o).
Proof.
  split; [reflexivity|].
  destruct (scan_lets_few_errors_out (Py := py.one_frame) demo.deep
              (mkFlags true false) 1 (Rel ["d"]) parent_dir demo.start
              py.RecursionError (mkState ["d"] [] false) eq_refl)
    as [[_ H]|H].
  - exact H.
  - discriminate H.
Defined.

(** X5.  A scan leaves the flag of the TUI alone, and every event it adds
    is its own: an attempt to open an entry that is not hidden from it (with
    [--all] unset, no name that starts with a dot), the "Too deep" error of
    the handler, or a logged exception for a directory that it could not
    enter or list.  It requests no URL, draws nothing and runs no loop. *)
Theorem scan_leaves_its_own_traces {Py : py.interpreter} fs cfg n dir prev s :
  launched (final (check_dir n fs cfg dir prev s)) = launched s
  /\ exists new,
       events (final (check_dir n fs cfg dir prev s)) = new ++ events s
       /\ (forall e, In e new -> scan_event cfg e = true)
       /\ (forall f d entry ok, In (Opened f d entry ok) new ->
             f < n
             /\ (_SHOW_HIDDEN cfg = false -> py.startswith entry "." = false)).
Proof.
  destruct (scan_facts.check_dir_contained fs cfg n dir prev s)
    as [[[Hl Hev] _] _].
  destruct Hev as (new & Hev & Hall & _).
  destruct (scan_facts.check_dir_events fs cfg n dir prev s)
    as (new' & Hev' & Hbelow & _).
  assert (new' = new) as ->.
  { rewrite Hev in Hev'. apply app_inv_tail in Hev'. congruence. }
  split; [exact Hl|]. exists new. split; [exact Hev|].
  rewrite forallb_forall in Hall. split; [exact Hall|].
  intros f d entry ok Hin. split.
  - rewrite Forall_forall in Hbelow. exact (Hbelow _ Hin).
  - intros Hhid. specialize (Hall _ Hin). cbn in Hall. unfold visible in Hall.
    rewrite Hhid in Hall. destruct (py.startswith entry "."); [|reflexivity].
    discriminate Hall.
Qed.

Lemma no_hidden_intro : forall content,
  (forall k t, In (k, t) content ->
               py.startswith k "." = false /\ no_hidden_keys t = true) ->
  no_hidden_keys (Node content) = true.
Proof.
  induction content as [|[k t] rest IH]; intros H; [reflexivity|].
  destruct (H k t (or_introl eq_refl)) as [Hk Ht].
  specialize (IH (fun k' t' Hin => H k' t' (or_intror Hin))).
  cbn in IH |- *. rewrite Hk, Ht. cbn. exact IH.
Qed.

(** X6.  With [--all] unset, no hidden directory is reported: no key of the
    tree that [check_dir] returns, at any level, starts with a dot. *)
Theorem hidden_directories_stay_out {Py : py.interpreter} fs cfg :
  _SHOW_HIDDEN cfg = false ->
  forall n dir prev s t s',
    check_dir n fs cfg dir prev s = Ret (Some t) s' ->
    no_hidden_keys t = true.
Proof.
  intros Hhid. induction n as [|k IH]; intros dir prev s t s' Hrun;
    [discriminate|].
  destruct (scan_facts.check_dir_ret _ _ _ _ _ _ _ _ Hrun)
    as [(_ & Hr & _)|[(s1 & _ & _ & Hr & _)
                     |(s1 & entries & acc & s2 & _ & _ & Eloop & _ & Hr)]];
    try discriminate.
  destruct (fst acc && negb (dict_truthy (snd acc))); [discriminate|].
  inversion Hr; subst. apply no_hidden_intro. intros key t Hin.
  destruct (scan_facts.scan_entries_keys (check_dir k fs cfg) k fs cfg
              (fun _ => True)
              (turns (check_dir k fs cfg) k fs cfg entries (true, []) s1)
              entries (true, []) s1 acc s2
              (fun _ _ => I) (incl_refl _) (fun _ _ H => match H with end)
              Eloop key t Hin)
    as [_ (_ & Hvis & s0 & s0' & prev' & _ & _ & Hsub)].
  unfold visible in Hvis. rewrite Hhid, andb_true_r in Hvis.
  apply negb_true_iff in Hvis. split; [exact Hvis|].
  eapply IH. exact Hsub.
Qed.

Lemma hidden_directories_stay_out_witness :
  no_hidden_keys (Node [("sub", Node [])]) = true.
Proof.
  exact (hidden_directories_stay_out (Py := py.one_frame) demo.root
           (mkFlags true false) eq_refl 3 (Rel ["pics"]) parent_dir
           demo.start _ _ eq_refl).
Defined.

(** The loop without [--recursive]: a pass over the regular files. *)
Lemma flat_loop {Py : py.interpreter} cfg rec k fs s1 :
  has_frames k ->
  _RECURSIVE cfg = false ->
  forall entries empty s,
  cwd s = cwd s1 ->
  exists s2,
    cwd s2 = cwd s1
    /\ scan_entries rec k fs cfg entries (empty, []) s
       = Ret (empty && negb (existsb (counts_flat cfg fs s1) entries), []) s2.
Proof.
  intros Hk Hflat. induction entries as [|entry rest IH]; intros empty s Hcwd.
  { exists s. cbn. rewrite andb_true_r. auto. }
  cbn [scan_entries existsb]. unfold scan_entry, counts_flat at 1, visible.
  unfold readable_image, isfile, pil_open.
  rewrite !(proj2 (Nat.leb_le _ _) (Hk _)). cbn [negb].
  rewrite <- (scan_facts.stat_cwd fs s s1 (Rel [entry]) Hcwd).
  destruct (py.startswith entry "." && negb (_SHOW_HIDDEN cfg));
    cbn [negb andb orb].
  { apply IH. exact Hcwd. }
  destruct (stat fs s (Rel [entry])) as [[image| | |]|];
    rewrite ?Hflat; cbn [orb]; try (apply IH; exact Hcwd).
  destruct empty; cbn [negb andb].
  - destruct (IH (if image then false else true)
                (record (Opened k (cwd s) entry image) s) Hcwd)
      as (s2 & Hc & Hrun).
    exists s2. split; [exact Hc|]. etransitivity; [exact Hrun|].
    destruct image; reflexivity.
  - apply IH. exact Hcwd.
Qed.

(** X7.  Without [--recursive], in a call that has the frames for the calls
    it makes, a directory that can be entered and listed is reported, with
    an empty mapping, exactly if one of the entries it lists is not hidden
    from the scan and is a regular file (links followed) that opens as an
    image; otherwise the result is [None].  Nothing below the directory is
    entered, and the call ends with [os.chdir(prev_dir)] made from the
    directory itself. *)
Theorem flat_scan_counts_own_images {Py : py.interpreter} fs cfg k dir prev s
  s1 entries :
  has_frames k ->
  _RECURSIVE cfg = false ->
  chdir fs dir s = Some s1 ->
  listdir fs s1 = Some entries ->
  exists s2,
    cwd s2 = cwd s1
    /\ check_dir (S k) fs cfg dir prev s
       = match chdir fs prev s2 with
         | Some s' =>
             Ret (if existsb (counts_flat cfg fs s1) entries
                  then Some (Node []) else None) s'
         | None => Raise py.OSError s2
         end.
Proof.
  intros Hk Hflat Hcd Hls.
  destruct (flat_loop cfg (check_dir k fs cfg) k fs s1 Hk Hflat entries true
              s1 eq_refl) as (s2 & Hc & Hrun).
  exists s2. split; [exact Hc|].
  rewrite scan_facts.check_dir_S.
  rewrite (scan_facts.needs_enough py.Chdir k _ _ (Hk _)), Hcd.
  rewrite (scan_facts.needs_enough py.Listdir k _ _ (Hk _)), Hls, Hrun.
  cbn [bind]. unfold leave.
  rewrite (scan_facts.needs_enough py.Chdir k _ _ (Hk _)).
  destruct (chdir fs prev s2); [|reflexivity].
  cbn [fst snd dict_truthy andb negb].
  destruct (existsb (counts_flat cfg fs s1) entries); reflexivity.
Qed.

Lemma flat_scan_counts_own_images_witness :
  exists s2,
    cwd s2 = ["pics"]
    /\ check_dir (Py := py.nested_stat) 3 demo.root (mkFlags false false)
         (Rel ["pics"]) parent_dir demo.start
       = match chdir demo.root parent_dir s2 with
         | Some s' =>
             Ret (if existsb
                       (counts_flat (mkFlags false false) demo.root
                          (mkState ["pics"] [] false))
                       ["a.png"; "notes.txt"; "b.png"; "sub"; ".cache";
                        "self"; "up"; "void"]
                  then Some (Node []) else None) s'
         | None => Raise py.OSError s2
         end.
Proof.
  refine (flat_scan_counts_own_images (Py := py.nested_stat) demo.root
            (mkFlags false false) 2 (Rel ["pics"]) parent_dir demo.start
            (mkState ["pics"] [] false)
            ["a.png"; "notes.txt"; "b.png"; "sub"; ".cache"; "self"; "up";
             "void"] _ eq_refl eq_refl eq_refl).
  intros o. destruct o; cbn; lia.
Defined.

(** X8.  The default [prev_dir]: when [check_dir] is called on a
    subdirectory of the working directory by its name, and the call frames
    suffice for the directories nested below it and for the calls of the
    helpers, which take [D] frames at most, the links to directories all
    being cyclic, the call returns with the working directory as it was. *)
Theorem parent_is_restored_when_frames_suffice {Py : py.interpreter} D fs cfg
  n (entry : name) s e0 l0 es0 l es r s' :
  (forall o, py.depth o <= D) ->
  get fs (cwd s) = Some (Dir e0 l0 es0) ->
  plain_name entry = true ->
  find_entry entry es0 = Some (Dir true l es) ->
  only_cyclic_links fs (cwd s ++ [entry]) (Dir true l es) = true ->
  height (Dir true l es) + D <= n ->
  check_dir n fs cfg (Rel [entry]) parent_dir s = Ret r s' ->
  cwd s' = cwd s.
Proof.
  apply scan_facts.prev_dir_is_restored_when_frames_suffice.
Qed.

Lemma parent_is_restored_when_frames_suffice_witness :
  cwd (final (check_dir (Py := py.one_frame) 3 demo.deep (mkFlags true false)
                (Rel ["d"]) parent_dir demo.start)) = [].
Proof.
  refine (parent_is_restored_when_frames_suffice (Py := py.one_frame) 1
            demo.deep (mkFlags true false) 3 "d" demo.start true true _ true
            _ _ _ _ eq_refl eq_refl eq_refl eq_refl (le_n 3) eq_refl).
  intros o. destruct o; cbn; lia.
Defined.

End effects_facts.

(** ** The loop over the sources, and [main] as a whole *)

Module loop_facts.
Import os ospath os_ops data cli observe effects.

(** What one round of the loop over the sources comes to: either nothing is
    scanned, the state moves on in the same working directory with the same
    flag, and at most one plain image is added; or the source is a
    directory and the round is the scan and what follows it. *)
Lemma resolve_source_shape {Py : py.interpreter} w frames cfg source images
  contents s :
  (exists s',
     cwd s' = cwd s /\ launched s' = launched s
     /\ (resolve_source w frames cfg source (images, contents) s
         = Ret (images, contents) s'
         \/ exists n im,
              resolve_source w frames cfg source (images, contents) s
              = Ret (images ++ [(n, Image im)], contents) s'))
  \/
  (let s1 :=
     record (Log None ("Checking directory " ++ py.repr source ++ "...")) s in
   resolve_source w frames cfg source (images, contents) s
   = match getcwd (fs w) s1 with
     | None => Raise py.OSError s1
     | Some _ =>
         match check_dir frames (fs w) cfg (parse_path source) (Abs (cwd s1))
                 s1
         with
         | Raise e s2 => Raise e s2
         | Ret result s2 =>
             let s3 := record (Log None "... Done!") s2 in
             match result with
             | None => Ret (images, contents) s3
             | Some t =>
                 let source' := path_text (abspath s3 (parse_path source)) in
                 match getcwd (fs w) s3 with
                 | None => Raise py.OSError s3
                 | Some here =>
                     Ret (images ++ [(source', Scanner source' t here)],
                          dict_set source' t contents) s3
                 end
             end
         end
     end).
Proof.
  unfold resolve_source.
  destruct (py.all (first3 (urlparse w source))) eqn:Hurl.
  { left. unfold image.from_url. rewrite Hurl. cbn [negb].
    destruct (requests_get w source) as [r|].
    2:{ eexists. split; [|split; [|left; reflexivity]]; reflexivity. }
    destruct (Nat.eqb (status_code r) 404).
    { eexists. split; [|split; [|left; reflexivity]]; reflexivity. }
    destruct (decodable w (body r)).
    - eexists. split; [|split; [|right; eexists _, _; reflexivity]];
        reflexivity.
    - eexists. split; [|split; [|left; reflexivity]]; reflexivity. }
  destruct (isfile (fs w) s (parse_path source)).
  { left. unfold relpath, image.from_file.
    destruct (getcwd (fs w) s);
      [|eexists; split; [|split; [|left; reflexivity]]; reflexivity].
    destruct (stat (fs w) s (parse_path source)) as [[[|]| | |]|];
      destruct (can_open w source); cbn [negb];
      eexists;
      (split; [|split; [|first [left; reflexivity
                               |right; eexists _, _; reflexivity]]]);
      reflexivity. }
  destruct (isdir (fs w) s (parse_path source)).
  - right. reflexivity.
  - left. eexists. split; [|split; [|left; reflexivity]]; reflexivity.
Qed.

(** A scan that [main] starts returns to where [main] was. *)
Lemma scan_returns_home {Py : py.interpreter} fs cfg n dir s r s' :
  walk MAXSYMLINKS fs [] (cwd s) = Some (cwd s) ->
  check_dir n fs cfg dir (Abs (cwd s)) s = Ret r s' ->
  cwd s' = cwd s.
Proof.
  intros Hhome Hrun.
  destruct (chdir fs dir s) as [s0|] eqn:Ecd.
  - pose proof (scan_facts.absolute_prev_dir_is_restored _ _ _ _ _ _ _ _ _
                  Ecd Hrun) as H.
    rewrite Hhome in H. inversion H. reflexivity.
  - destruct n as [|k]; [discriminate|].
    destruct (scan_facts.check_dir_ret _ _ _ _ _ _ _ _ Hrun)
      as [(_ & _ & ->)|[(s1 & Hcd & _)|(s1 & ? & ? & ? & Hcd & _)]];
      [reflexivity|congruence|congruence].
Qed.

Lemma resolve_source_cwd {Py : py.interpreter} w frames cfg source acc s acc'
  s' :
  walk MAXSYMLINKS (fs w) [] (cwd s) = Some (cwd s) ->
  resolve_source w frames cfg source acc s = Ret acc' s' ->
  cwd s' = cwd s.
Proof.
  intros Hhome Hrun. destruct acc as [images contents].
  destruct (resolve_source_shape w frames cfg source images contents s)
    as [(s1 & Hc & _ & [H|(n & im & H)])|H];
    rewrite H in Hrun.
  - inversion Hrun; subst. exact Hc.
  - inversion Hrun; subst. exact Hc.
  - cbn zeta in Hrun.
    destruct (getcwd (fs w) _); [|discriminate].
    destruct (check_dir frames (fs w) cfg (parse_path source) _ _)
      as [r s2|e s2] eqn:Escan; [|discriminate].
    apply scan_returns_home in Escan; [|exact Hhome].
    destruct r; [destruct (getcwd (fs w) _); [|discriminate]|];
      inversion Hrun; subst; exact Escan.
Qed.

(** X9.  When the loop over the sources runs through, the process is in the
    working directory it started in, whatever was scanned on the way, and
    also when a scan was cut short for want of call frames: [main] hands
    [check_dir] the absolute path of the working directory to return to.
    The working directory is taken to be what [os.getcwd()] returns, an
    existing path without links.  ([TermImage.from_url] and [from_file] are
    taken not to change the working directory.) *)
Theorem sources_leave_the_working_directory {Py : py.interpreter} w frames
  cfg :
  forall sources acc s acc' s',
  walk MAXSYMLINKS (fs w) [] (cwd s) = Some (cwd s) ->
  resolve_sources w frames cfg sources acc s = Ret acc' s' ->
  cwd s' = cwd s.
Proof.
  induction sources as [|source rest IH]; intros acc s acc' s' Hhome Hrun.
  { inversion Hrun. reflexivity. }
  cbn [resolve_sources] in Hrun.
  destruct (resolve_source w frames cfg source acc s) as [acc1 s1|e s1] eqn:E1;
    [|discriminate].
  cbn [bind] in Hrun.
  pose proof (resolve_source_cwd _ _ _ _ _ _ _ _ Hhome E1) as Hc1.
  rewrite <- Hc1. eapply IH; [|exact Hrun]. rewrite Hc1. exact Hhome.
Qed.

Lemma sources_leave_the_working_directory_witness :
  cwd (final (resolve_sources (Py := py.one_frame)
                (with_fs demo.deep demo.world0) 3
                (mkFlags true false) ["d"; "d/e"; "d/x.png"] ([], [])
                demo.start)) = [].
Proof.
  exact (sources_leave_the_working_directory (Py := py.one_frame)
           (with_fs demo.deep demo.world0) 3
           (mkFlags true false) ["d"; "d/e"; "d/x.png"] ([], []) demo.start
           _ _ eq_refl eq_refl).
Defined.

Lemma dict_set_key k v : forall d, In k (map fst (dict_set k v d)).
Proof.
  induction d as [|[k' v'] d IH]; cbn; [auto|].
  destruct (String.eqb k k'); cbn; auto.
Qed.

Lemma dict_set_keeps k v x : forall d,
  In x (map fst d) -> In x (map fst (dict_set k v d)).
Proof.
  induction d as [|[k' v'] d IH]; cbn; [tauto|].
  destruct (String.eqb_spec k k') as [->|Hne]; cbn; tauto.
Qed.

Lemma dict_set_no_more k v x : forall d,
  In x (map fst (dict_set k v d)) -> x = k \/ In x (map fst d).
Proof.
  induction d as [|[k' v'] d IH]; cbn.
  - intros [H|[]]. auto.
  - destruct (String.eqb_spec k k') as [->|Hne]; cbn; [tauto|].
    intros [H|H]; [auto|]. destruct (IH H); auto.
Qed.

Lemma dict_set_nodup k v : forall d,
  NoDup (map fst d) -> NoDup (map fst (dict_set k v d)).
Proof.
  induction d as [|[k' v'] d IH]; cbn; intros H.
  - constructor; [intros []|constructor].
  - inversion H as [|? ? Hnotin Hrest]; subst.
    destruct (String.eqb_spec k k') as [->|Hne]; cbn.
    + constructor; assumption.
    + constructor; [|apply IH; exact Hrest].
      intros Hin. apply dict_set_no_more in Hin.
      destruct Hin as [->|Hin]; [apply Hne; reflexivity|contradiction].
Qed.

Lemma agree_image images contents n im :
  agree images contents -> agree (images ++ [(n, Image im)]) contents.
Proof.
  intros (Ha & Hb & Hc). split; [|split; [|exact Hc]].
  - intros k t Hin. destruct (Ha k t Hin) as [c Hc']. exists c.
    apply in_or_app. left. exact Hc'.
  - intros k src t c Hin. apply in_app_or in Hin.
    destruct Hin as [Hin|[Hin|[]]]; [eapply Hb; exact Hin|discriminate Hin].
Qed.

Lemma agree_scanner images contents k t c :
  agree images contents ->
  agree (images ++ [(k, Scanner k t c)]) (dict_set k t contents).
Proof.
  intros (Ha & Hb & Hc). split; [|split].
  - intros k' t' Hin. apply scan_facts.dict_set_in in Hin.
    destruct Hin as [Heq|Hin].
    + inversion Heq; subst. exists c. apply in_or_app. right. left.
      reflexivity.
    + destruct (Ha k' t' Hin) as [c' Hc']. exists c'.
      apply in_or_app. left. exact Hc'.
  - intros k' src t' c' Hin. apply in_app_or in Hin.
    destruct Hin as [Hin|[Hin|[]]].
    + destruct (Hb _ _ _ _ Hin) as [-> Hk]. split; [reflexivity|].
      apply dict_set_keeps. exact Hk.
    + inversion Hin; subst. split; [reflexivity|]. apply dict_set_key.
  - apply dict_set_nodup. exact Hc.
Qed.

Lemma resolve_source_agree {Py : py.interpreter} w frames cfg source images
  contents s images' contents' s' :
  agree images contents ->
  resolve_source w frames cfg source (images, contents) s
  = Ret (images', contents') s' ->
  agree images' contents' /\ length images' <= S (length images).
Proof.
  intros Hagree Hrun.
  destruct (resolve_source_shape w frames cfg source images contents s)
    as [(s1 & _ & _ & [H|(n & im & H)])|H];
    rewrite H in Hrun.
  - inversion Hrun; subst. split; [exact Hagree|lia].
  - inversion Hrun; subst. split; [apply agree_image; exact Hagree|].
    rewrite length_app. cbn. lia.
  - cbn zeta in Hrun.
    destruct (getcwd (fs w) _); [|discriminate].
    destruct (check_dir frames (fs w) cfg (parse_path source) _ _)
      as [r s2|e s2]; [|discriminate].
    destruct r as [t|]; [destruct (getcwd (fs w) _); [|discriminate]|];
      inversion Hrun; subst.
    + split; [apply agree_scanner; exact Hagree|].
      rewrite length_app. cbn. lia.
    + split; [exact Hagree|lia].
Qed.

Lemma resolve_sources_agree {Py : py.interpreter} w frames cfg :
  forall sources images contents s images' contents' s',
  agree images contents ->
  resolve_sources w frames cfg sources (images, contents) s
  = Ret (images', contents') s' ->
  agree images' contents'
  /\ length images' <= length sources + length images.
Proof.
  induction sources as [|source rest IH];
    intros images contents s images' contents' s' Hagree Hrun.
  { inversion Hrun; subst. split; [exact Hagree|cbn; lia]. }
  cbn [resolve_sources] in Hrun.
  destruct (resolve_source w frames cfg source (images, contents) s)
    as [[images1 contents1] s1|e s1] eqn:E1; [|discriminate].
  cbn [bind] in Hrun.
  destruct (resolve_source_agree _ _ _ _ _ _ _ _ _ _ Hagree E1) as [H1 Hl1].
  destruct (IH _ _ _ _ _ _ H1 Hrun) as [H2 Hl2].
  split; [exact H2|cbn [length]; lia].
Qed.

Lemma agree_nil : agree [] [].
Proof.
  split; [intros k t []|]. split; [intros k src t c []|constructor].
Qed.

(** X10.  What the loop over the sources hands on: [images] has at most one
    element for each source, [contents] has an entry exactly for the
    directories among them, filed under the name of the element and holding
    the very tree that its scan holds, and no name is filed twice. *)
Theorem images_and_contents_agree {Py : py.interpreter} w frames cfg sources
  s images contents s' :
  resolve_sources w frames cfg sources ([], []) s = Ret (images, contents) s' ->
  length images <= length sources
  /\ (forall k t, In (k, t) contents -> exists c, In (k, Scanner k t c) images)
  /\ (forall k src t c, In (k, Scanner src t c) images ->
                        src = k /\ In k (map fst contents))
  /\ NoDup (map fst contents).
Proof.
  intros Hrun.
  destruct (resolve_sources_agree _ _ _ _ _ _ _ _ _ _ agree_nil Hrun)
    as [(Ha & Hb & Hc) Hl].
  cbn [length] in Hl. rewrite Nat.add_0_r in Hl. auto.
Qed.

Lemma images_and_contents_agree_witness :
  exists c, In ("/pics", Scanner "/pics" (Node [("sub", Node [])]) c)
              [("/pics/a.png", Image (mkTermImage "/pics/a.png" None));
               ("/pics", Scanner "/pics" (Node [("sub", Node [])]) "/")].
Proof.
  exact (proj1 (proj2 (images_and_contents_agree (Py := py.one_frame)
                         demo.world0 4
                         (mkFlags true false) ["/pics/a.png"; "/pics"]
                         demo.start _ _ _ eq_refl))
           "/pics" (Node [("sub", Node [])]) (or_introl eq_refl)).
Defined.

(** X11.  A directory that was accepted opens the TUI: when the loop over
    the sources leaves an entry in [contents], [main] is [tui.init] on the
    images and contents found, followed by SUCCESS; it neither draws
    directly nor reports that no source is valid. *)
Theorem a_directory_opens_the_tui {Py : py.interpreter} w frames a s images
  contents s1 :
  resolve_sources w frames (mkFlags (args.recursive a) (args.all a))
    (args.sources a) ([], []) s = Ret (images, contents) s1 ->
  contents <> [] ->
  main w frames a s
  = bind (tui.init w a images contents s1) (fun _ s2 => Ret SUCCESS s2).
Proof.
  intros Hrun Hsome.
  destruct (resolve_sources_agree _ _ _ _ _ _ _ _ _ _ agree_nil Hrun)
    as [(Ha & _ & _) _].
  rewrite (main_facts.main_unfold _ _ _ _ _ _ _ Hrun).
  destruct contents as [|[k t] rest]; [contradiction|].
  destruct (Ha k t (or_introl eq_refl)) as [c Hin].
  unfold dispatch.
  destruct images as [|[n [im|src t' p]] [|x more]]; try reflexivity.
  - destruct Hin.
  - destruct Hin as [Hin|[]]. discriminate Hin.
Qed.

Lemma a_directory_opens_the_tui_witness :
  main (Py := py.one_frame) demo.world0 4 (demo.args0 ["/pics"]) demo.start
  = bind (tui.init demo.world0 (demo.args0 ["/pics"])
            [("/pics", Scanner "/pics" (Node [("sub", Node [])]) "/")]
            [("/pics", Node [("sub", Node [])])]
            (mkState []
               [Log None "... Done!";
                Opened 2 ["pics"; "sub"] "c.gif" true;
                Opened 3 ["pics"] "a.png" true;
                Log None "Checking directory '/pics'..."] false))
         (fun _ s2 => Ret SUCCESS s2).
Proof.
  refine (a_directory_opens_the_tui (Py := py.one_frame) demo.world0 4
            (demo.args0 ["/pics"])
            demo.start _ _ _ eq_refl _).
  discriminate.
Defined.

End loop_facts.

(** ** A run of [main]: the flag of the TUI and the errors that end it *)

Module run_facts.
Import os ospath os_ops data cli observe effects.

Lemma resolve_source_launched {Py : py.interpreter} w frames cfg source acc
  s :
  launched (final (resolve_source w frames cfg source acc s)) = launched s.
Proof.
  destruct acc as [images contents].
  destruct (loop_facts.resolve_source_shape w frames cfg source images
              contents s) as [(s1 & _ & Hl & [H|(n & im & H)])|H];
    rewrite H; try exact Hl.
  cbn zeta.
  destruct (getcwd (fs w) _); [|reflexivity].
  destruct (scan_facts.check_dir_contained (fs w) cfg frames
              (parse_path source)
              (Abs (cwd (record (Log None ("Checking directory "
                                             ++ py.repr source ++ "...")) s)))
              (record (Log None ("Checking directory " ++ py.repr source
                                   ++ "...")) s)) as [[[Hl _] _] _].
  destruct (check_dir frames (fs w) cfg (parse_path source) _ _)
    as [[t|] s2|e s2]; [destruct (getcwd (fs w) _)| |]; exact Hl.
Qed.

Lemma resolve_sources_launched {Py : py.interpreter} w frames cfg :
  forall sources acc s,
  launched (final (resolve_sources w frames cfg sources acc s)) = launched s.
Proof.
  induction sources as [|source rest IH]; intros acc s; [reflexivity|].
  cbn [resolve_sources].
  pose proof (resolve_source_launched w frames cfg source acc s) as H1.
  destruct (resolve_source w frames cfg source acc s) as [acc1 s1|e s1];
    cbn [bind final] in *; [|exact H1].
  rewrite IH. exact H1.
Qed.

(** Drawing either records [Drawn] or raises with the state as it was. *)
Lemma draw_state w a im s :
  draw w a im s = Ret tt (record Drawn s)
  \/ exists e, draw w a im s = Raise e s.
Proof.
  unfold draw, attempt.
  destruct (args.width a) as [n|]; [|destruct (args.height a) as [n|]];
    repeat match goal with
           | |- context [match ?x with Some _ => _ | None => _ end] =>
               destruct x; cbn [bind]
           end; eauto.
Qed.

(** [init] returns with the flag down; it raises with the flag up only when
    the first step of the display generator raised. *)
Lemma init_flag w a images contents s :
  match tui.init w a images contents s with
  | Ret _ s' => launched s' = false
  | Raise e s' =>
      launched s' = launched s
      \/ launched s' = false
      \/ exists s3, foreign (displayer_next w images contents) s3 = Raise e s'
  end.
Proof.
  unfold tui.init.
  pose proof (tui_facts.foreign_launched (make_loop w) s) as H1.
  destruct (foreign (make_loop w) s) as [[] s1|e s1]; cbn [bind final] in *;
    [|left; exact H1].
  destruct (foreign (displayer_next w images contents) _) as [[] s4|e s4] eqn:E;
    cbn [bind]; [|right; right; eexists; exact E].
  pose proof (tui_facts.finally_launched
                (bind (foreign (loop_run w) (record LoopRun s4))
                   (fun _ s5 =>
                    Ret tt (record (Log None "Exited TUI normally") s5)))
                false) as Hf.
  destruct (finally _ _) as [r s'|e s']; cbn [final] in Hf; auto.
Qed.

(** X12.  The flag of the TUI after a run of [main] that started with the
    flag down: whenever [main] returns an exit code the flag is down, and
    when [main] ends in an exception with the flag up, the exception is the
    one that the first step of the display generator raised.  Neither the
    loop over the sources, nor a scan, nor drawing touches the flag. *)
Theorem flag_is_down_when_main_returns {Py : py.interpreter} w frames a s :
  launched s = false ->
  (forall code s', main w frames a s = Ret code s' -> launched s' = false)
  /\ (forall e s', main w frames a s = Raise e s' -> launched s' = true ->
        exists images contents s3,
          foreign (displayer_next w images contents) s3 = Raise e s').
Proof.
  intros Hdown. unfold main.
  pose proof (resolve_sources_launched w frames
                (mkFlags (args.recursive a) (args.all a)) (args.sources a)
                ([], []) s) as Hl.
  destruct (resolve_sources w frames _ (args.sources a) ([], []) s)
    as [[images contents] s1|e1 s1]; cbn [bind final fst snd] in *.
  2:{ split; [discriminate|]. intros e s' H Hup. inversion H; subst.
      congruence. }
  rewrite Hdown in Hl.
  assert (Htui : forall r,
            bind (tui.init w a images contents s1)
              (fun _ s2 => Ret SUCCESS s2) = r ->
            match r with
            | Ret _ s' => launched s' = false
            | Raise e s' =>
                launched s' = true ->
                exists images contents s3,
                  foreign (displayer_next w images contents) s3 = Raise e s'
            end).
  { intros r <-. pose proof (init_flag w a images contents s1) as Hi.
    destruct (tui.init w a images contents s1) as [[] s2|e s2]; cbn [bind];
      [exact Hi|].
    intros Hup. destruct Hi as [Hi|[Hi|(s3 & Hi)]]; [congruence|congruence|].
    eauto. }
  assert (Hdraw : forall im r,
            match draw w a im
                    (record (Log None
                       "Single image source; Printing directly to console") s1)
            with
            | Ret _ s2 => Ret SUCCESS s2
            | Raise e s2 =>
                if py.is_ValueError e then
                  Ret (if py.is_InvalidSize e then INVALID_SIZE else FAILURE)
                      (record (Log (Some py.CRITICAL) (str e)) s2)
                else Raise e s2
            end = r ->
            launched (final r) = false).
  { intros im r <-.
    destruct (draw_state w a im
                (record (Log None
                   "Single image source; Printing directly to console") s1))
      as [->|(e & ->)]; [exact Hl|].
    destruct (py.is_ValueError e); exact Hl. }
  unfold dispatch.
  destruct images as [|[n [im|src t p]] [|x more]].
  - split; [|discriminate]. intros code s' H. inversion H. exact Hl.
  - split.
    + intros code s' H. apply Hdraw in H. exact H.
    + intros e s' H Hup. apply Hdraw in H. cbn [final] in H. congruence.
  - split; [intros code s' H|intros e s' H]; apply Htui in H; exact H.
  - split; [intros code s' H|intros e s' H]; apply Htui in H; exact H.
  - split; [intros code s' H|intros e s' H]; apply Htui in H; exact H.
Qed.

Lemma flag_is_down_when_main_returns_witness :
  launched (final (main (Py := py.one_frame) demo.world0 4
                     (demo.args0 ["/pics"]) demo.start))
  = false.
Proof.
  destruct (main (Py := py.one_frame) demo.world0 4 (demo.args0 ["/pics"])
              demo.start)
    as [code s'|e s'] eqn:E.
  - exact (proj1 (flag_is_down_when_main_returns (Py := py.one_frame)
                    demo.world0 4
                    (demo.args0 ["/pics"]) demo.start eq_refl) code s' E).
  - vm_compute in E. discriminate E.
Defined.



End run_facts.

(** ** Links that are followed *)

Module link_facts.
Import os ospath os_ops data cli observe effects.

(** X15.  A link that the scan follows is left for the directory that holds
    the link, not for the parent of the directory it leads to: when the
    round of a link entry returns, the working directory is as it was, also
    when the scan below was cut short for want of call frames.  The working
    directory is taken to be an existing path without links, as
    [os.getcwd()] returns it. *)
Theorem followed_link_returns_to_its_directory {Py : py.interpreter} fs cfg k
  frames (entry : name) s r s' :
  islink fs s (Rel [entry]) = true ->
  walk MAXSYMLINKS fs [] (cwd s) = Some (cwd s) ->
  scan_try (check_dir k fs cfg) frames fs entry s = Ret r s' ->
  cwd s' = cwd s.
Proof.
  intros Hlink Hhome Hrun. unfold scan_try, needs in Hrun.
  rewrite Hlink in Hrun.
  repeat match type of Hrun with
         | context [if ?b then _ else _] => destruct b
         | context [match getcwd ?a ?b with _ => _ end] =>
             destruct (getcwd a b)
         end;
    first [discriminate Hrun
          |eapply loop_facts.scan_returns_home; [exact Hhome|exact Hrun]
          |inversion Hrun; reflexivity].
Qed.

Lemma followed_link_returns_to_its_directory_witness :
  link_followed demo.twisted (mkState ["r"; "x"] [] false) "l1" = true
  /\ cwd (final (scan_try (Py := py.one_frame)
                   (check_dir (Py := py.one_frame) 2 demo.twisted
                      (mkFlags true false)) 3
                   demo.twisted "l1" (mkState ["r"; "x"] [] false)))
     = ["r"; "x"].
Proof.
  split; [reflexivity|].
  destruct (scan_try (Py := py.one_frame)
              (check_dir (Py := py.one_frame) 2 demo.twisted
                 (mkFlags true false)) 3
              demo.twisted "l1" (mkState ["r"; "x"] [] false))
    as [r s'|e s'] eqn:E.
  - exact (followed_link_returns_to_its_directory (Py := py.one_frame)
             demo.twisted (mkFlags true false) 2 3 "l1"
             (mkState ["r"; "x"] [] false) r s' eq_refl eq_refl E).
  - vm_compute in E. discriminate E.
Defined.

End link_facts.

(** ** The order of the mapping *)

Module order_facts.
Import os ospath os_ops data cli observe effects.

Lemma subseq_nil : forall b, subseq [] b = true.
Proof. destruct b; reflexivity. Qed.

Lemma subseq_more : forall b a c, subseq a b = true -> subseq a (b ++ c) = true.
Proof.
  induction b as [|y b IH]; intros a c H.
  - destruct a; [apply subseq_nil|discriminate H].
  - destruct a as [|x a]; [reflexivity|]. cbn in H |- *.
    destruct (String.eqb x y); apply IH; exact H.
Qed.

Lemma subseq_snoc e : forall b a,
  subseq a b = true -> subseq (a ++ [e]) (b ++ [e]) = true.
Proof.
  induction b as [|y b IH]; intros a H.
  - destruct a; [|discriminate H]. cbn. rewrite String.eqb_refl. reflexivity.
  - destruct a as [|x a]; cbn in H |- *.
    + destruct (String.eqb e y); [apply subseq_nil|].
      apply (IH [] (subseq_nil b)).
    + destruct (String.eqb x y); [apply IH|apply (IH (x :: a))]; exact H.
Qed.

Lemma dict_set_keys k v : forall d,
  map fst (dict_set k v d)
  = if existsb (String.eqb k) (map fst d) then map fst d
    else map fst d ++ [k].
Proof.
  induction d as [|[k' v'] d IH]; cbn; [reflexivity|].
  destruct (String.eqb_spec k k') as [->|Hne]; cbn; [reflexivity|].
  rewrite IH. destruct (existsb (String.eqb k) (map fst d)); reflexivity.
Qed.

Lemma subseq_dict_set k v d b :
  subseq (map fst d) b = true ->
  subseq (map fst (dict_set k v d)) (b ++ [k]) = true.
Proof.
  intros H. rewrite dict_set_keys.
  destruct (existsb (String.eqb k) (map fst d));
    [apply subseq_more|apply subseq_snoc]; exact H.
Qed.

(** A round of the loop leaves the mapping as it was or files the entry. *)
Lemma scan_entry_files {Py : py.interpreter} rec k fs cfg entry acc s :
  match scan_entry rec k fs cfg entry acc s with
  | Next acc' _ | Stop acc' _ =>
      snd acc' = snd acc \/ exists t, snd acc' = dict_set entry t (snd acc)
  | Fail _ _ => True
  end.
Proof.
  destruct acc as [empty content]. unfold scan_entry.
  destruct (negb (Nat.leb (py.depth py.Startswith) k)); [exact I|].
  destruct (py.startswith entry "." && negb (_SHOW_HIDDEN cfg)); [auto|].
  destruct (negb (Nat.leb (py.depth py.Isfile) k)); [exact I|].
  destruct (isfile fs s (Rel [entry])).
  - destruct empty; cbn [negb]; [unfold pil_open|]; auto.
  - destruct (_RECURSIVE cfg); [|auto].
    destruct (scan_try rec k fs entry s) as [[t|] s'|e s']; cbn [snd];
      eauto.
    destruct e; auto. unfold handle_too_deep.
    destruct (Nat.leb (py.depth py.Getcwd) k); [|exact I].
    destruct (getcwd fs s'); [|exact I].
    destruct (Nat.leb (py.depth py.Log) k); auto.
Qed.

Lemma scan_entries_order {Py : py.interpreter} rec k fs cfg :
  forall entries acc s acc' s' seen,
  subseq (map fst (snd acc)) seen = true ->
  NoDup (map fst (snd acc)) ->
  scan_entries rec k fs cfg entries acc s = Ret acc' s' ->
  subseq (map fst (snd acc')) (seen ++ entries) = true
  /\ NoDup (map fst (snd acc')).
Proof.
  induction entries as [|entry rest IH]; intros acc s acc' s' seen Hsub Hnd Hrun.
  { inversion Hrun; subst. rewrite app_nil_r. auto. }
  cbn [scan_entries] in Hrun.
  pose proof (scan_entry_files rec k fs cfg entry acc s) as Hround.
  destruct (scan_entry rec k fs cfg entry acc s)
    as [[e1 c1] s1|[e1 c1] s1|e s1]; [| |discriminate];
    cbn [snd] in Hround.
  - replace (seen ++ entry :: rest) with ((seen ++ [entry]) ++ rest)
      by (rewrite <- app_assoc; reflexivity).
    apply (IH (e1, c1) s1 acc' s' (seen ++ [entry])); [| |exact Hrun];
      cbn [snd].
    + destruct Hround as [->|(t & ->)];
        [apply subseq_more; exact Hsub|apply subseq_dict_set; exact Hsub].
    + destruct Hround as [->|(t & ->)];
        [exact Hnd|apply loop_facts.dict_set_nodup; exact Hnd].
  - inversion Hrun; subst. cbn [snd]. destruct Hround as [->|(t & ->)].
    + split; [apply subseq_more; exact Hsub|exact Hnd].
    + split; [|apply loop_facts.dict_set_nodup; exact Hnd].
      replace (seen ++ entry :: rest) with ((seen ++ [entry]) ++ rest)
        by (rewrite <- app_assoc; reflexivity).
      apply subseq_more. apply subseq_dict_set. exact Hsub.
Qed.

(** X16.  The mapping that [check_dir] returns lists its directories in the
    order in which [os.listdir()] gave them, each of them once. *)
Theorem keys_follow_the_listing {Py : py.interpreter} fs cfg k dir prev s
  content s' :
  check_dir (S k) fs cfg dir prev s = Ret (Some (Node content)) s' ->
  exists s0 entries,
    chdir fs dir s = Some s0
    /\ listdir fs s0 = Some entries
    /\ subseq (map fst content) entries = true
    /\ NoDup (map fst content).
Proof.
  intros Hrun.
  destruct (scan_facts.check_dir_ret _ _ _ _ _ _ _ _ Hrun)
    as [(_ & Hr & _)|[(s1 & _ & _ & Hr & _)
                     |(s1 & entries & acc & s2 & Ecd & Els & Eloop & _ & Hr)]];
    try discriminate.
  destruct (fst acc && negb (dict_truthy (snd acc))); [discriminate|].
  inversion Hr; subst.
  exists s1, entries. split; [exact Ecd|]. split; [exact Els|].
  apply (scan_entries_order _ _ _ _ entries (true, []) s1 acc s2 []
           eq_refl (NoDup_nil _) Eloop).
Qed.

Lemma keys_follow_the_listing_witness :
  exists s0 entries,
    chdir demo.root (Rel ["pics"]) demo.start = Some s0
    /\ listdir demo.root s0 = Some entries
    /\ subseq (map fst [("sub", Node []); (".cache", Node [])]) entries
       = true
    /\ NoDup (map fst [("sub", Node []); (".cache", Node [])]).
Proof.
  exact (keys_follow_the_listing (Py := py.one_frame) demo.root
           (mkFlags true true) 2 (Rel ["pics"]) parent_dir demo.start
           [("sub", Node []); (".cache", Node [])] _ eq_refl).
Defined.

End order_facts.
